(** * Reservoirmod / bg3translator_v2: the rule-based rewriting pipeline

    A shallow embedding of the text-transformation core of the translator:
    - [TextProcessor] (expression protection, bg3_translator_core.py),
    - [RuleEngine] and [DeepLTranslator.process_text] (bg3_translator_core.py),
    - [GlossaryManager] (glossary_manager.py),
    - [DynamicRulesManager] (dynamic_rules_manager.py).

    Python [str] values are modelled as [string] (the bytes of their UTF-8
    encoding), a finite [float] value as the rational [Q] that it denotes,
    with the arithmetic of floats as an interface, [int] values as [Z] (or
    [nat] for counts and indices), ordered [dict]s as association lists in
    insertion order and [defaultdict(list)] partitions as
    [gmap string (list _)] read with a default.  The [re] and [difflib]
    modules and the two network services are interfaces (type classes); a
    small concrete regex engine and the binary64 arithmetic are given for
    running the code on examples. *)

From Stdlib Require Import Ascii String QArith.
From stdpp Require Import gmap strings list pretty sorting.

(** ** Python builtins used by the code *)

Module Py.

(** Truthiness of a [str]: non-empty. *)
Definition truthy (s : string) : bool := negb (String.eqb s "").

Definition starts_with_opt (s : string) : option ascii :=
  match s with String a _ => Some a | "" => None end.

(** *** Characters and white space

    A [str] is held as the bytes of its UTF-8 encoding.  A character is a
    byte together with the continuation bytes (0x80-0xBF) that follow it. *)
Definition is_continuation (c : ascii) : bool :=
  let n := nat_of_ascii c in (128 <=? n)%nat && (n <? 192)%nat.

Definition starts_with_continuation (s : string) : bool :=
  match s with String c _ => is_continuation c | "" => false end.

Fixpoint characters (s : string) : list string :=
  match s with
  | "" => []
  | String c s' =>
      if starts_with_continuation s'
      then match characters s' with
           | ch :: l => String c ch :: l
           | [] => [String c ""]
           end
      else String c "" :: characters s'
  end.

(** ["".join(l)] *)
Definition join (l : list string) : string := foldr String.append "" l.

(** [len(s)]: the number of characters. *)
Definition len (s : string) : nat := length (characters s).

(** [s[i:j]] for [0 <= i] and [0 <= j]. *)
Definition slice (s : string) (i j : nat) : string :=
  join (take (j - i) (drop i (characters s))).

(** [s.replace(old, new)] for a non-empty [old]: leftmost, non-overlapping
    occurrences (an occurrence in the bytes of a text is an occurrence in
    its characters).  [skip] counts the bytes of a replaced occurrence that
    are still to be dropped. *)
Fixpoint replace_go (old new : string) (skip : nat) (s : string) : string :=
  match s with
  | "" => ""
  | String c s' =>
      match skip with
      | S k => replace_go old new k s'
      | O =>
          if String.prefix old s
          then new +:+ replace_go old new (String.length old - 1) s'
          else String c (replace_go old new 0 s')
      end
  end.

(** [s.replace("", new)] puts [new] before every character and at the end. *)
Fixpoint replace_empty (new : string) (l : list string) : string :=
  match l with
  | [] => new
  | ch :: l' => new +:+ ch +:+ replace_empty new l'
  end.

Definition replace (s old new : string) : string :=
  match old with
  | "" => replace_empty new (characters s)
  | _ => replace_go old new 0 s
  end.

Definition of_bytes (l : list nat) : string :=
  foldr (λ n s, String (ascii_of_nat n) s) "" l.

(** The white-space characters of [str.isspace], [str.strip], [str.split]
    and of [\s] in a [str] pattern: U+0009 to U+000D, U+001C to U+001F,
    U+0020, U+0085, U+00A0, U+1680, U+2000 to U+200A, U+2028, U+2029,
    U+202F, U+205F and U+3000, each as its UTF-8 bytes. *)
Definition whitespace : list string :=
  of_bytes <$>
    [ [9]; [10]; [11]; [12]; [13]; [28]; [29]; [30]; [31]; [32];
      [194; 133]; [194; 160]; [225; 154; 128];
      [226; 128; 128]; [226; 128; 129]; [226; 128; 130]; [226; 128; 131];
      [226; 128; 132]; [226; 128; 133]; [226; 128; 134]; [226; 128; 135];
      [226; 128; 136]; [226; 128; 137]; [226; 128; 138];
      [226; 128; 168]; [226; 128; 169]; [226; 128; 175]; [226; 129; 159];
      [227; 128; 128] ].

Definition isspace (ch : string) : bool := existsb (String.eqb ch) whitespace.

(** [s.strip()]: the characters of [s] without the white space at its
    start and at its end. *)
Fixpoint lstrip_chars (l : list string) : list string :=
  match l with
  | ch :: l' => if isspace ch then lstrip_chars l' else l
  | [] => []
  end.

Fixpoint rstrip_chars (l : list string) : list string :=
  match l with
  | ch :: l' => if forallb isspace l then [] else ch :: rstrip_chars l'
  | [] => []
  end.

Definition strip (s : string) : string :=
  join (rstrip_chars (lstrip_chars (characters s))).

(** [s.split()]: the maximal runs of characters that are not white space;
    [cur] is the run that is being read. *)
Fixpoint words_go (cur : option string) (l : list string) : list string :=
  match l with
  | [] => option_list cur
  | ch :: l' =>
      if isspace ch then option_list cur ++ words_go None l'
      else words_go (Some (default "" cur +:+ ch)) l'
  end.

Definition split (s : string) : list string := words_go None (characters s).

(** [str(b)] for a [bool]. *)
Definition str_of_bool (b : bool) : string := if b then "True" else "False".

(** An insertion-ordered [dict]: [d[k] = v] overwrites the value of an
    existing key in place and appends a new key at the end. *)
Fixpoint dict_set {V} (k : string) (v : V) (d : list (string * V)) : list (string * V) :=
  match d with
  | [] => [(k, v)]
  | (k', v') :: d' =>
      if String.eqb k' k then (k, v) :: d' else (k', v') :: dict_set k v d'
  end.

Fixpoint dict_get {V} (k : string) (d : list (string * V)) : option V :=
  match d with
  | [] => None
  | (k', v') :: d' => if String.eqb k' k then Some v' else dict_get k d'
  end.

(** [sorted(l, key=..., reverse=True)] and [l.sort(key=..., reverse=True)]:
    a stable sort by descending key; elements with equal keys keep their
    original order.  [lt a b] is [key(a) < key(b)]. *)
Fixpoint insert_desc {A} (lt : A → A → bool) (x : A) (l : list A) : list A :=
  match l with
  | [] => [x]
  | y :: l' => if lt x y then y :: insert_desc lt x l' else x :: y :: l'
  end.

Fixpoint sort_desc {A} (lt : A → A → bool) (l : list A) : list A :=
  match l with
  | [] => []
  | x :: l' => insert_desc lt x (sort_desc lt l')
  end.

(** [Counter(l).most_common(1)[0][0]]: the first-seen element among those
    with the greatest count. *)
Fixpoint counter (l : list string) (acc : list (string * nat)) : list (string * nat) :=
  match l with
  | [] => acc
  | x :: l' => counter l' (dict_set x (S (default 0 (dict_get x acc))) acc)
  end.

Fixpoint max_count (best : string * nat) (c : list (string * nat)) : string * nat :=
  match c with
  | [] => best
  | (x, n) :: c' => max_count (if (best.2 <? n)%nat then (x, n) else best) c'
  end.

Definition most_common1 (l : list string) : option string :=
  match counter l [] with
  | [] => None
  | b :: c => Some (max_count b c).1
  end.

End Py.

(** ** Floating-point numbers *)

(** The arithmetic of Python floats on the rationals that finite floats
    denote: [float(n)] for an [int], the product and the quotient of two
    floats (the divisor is not zero: the code raises [ZeroDivisionError]
    before), and [sum] over floats, which starts from the [int] 0.  Each
    operation returns the float that the interpreter computes; infinities
    and NaN are outside the embedding. *)
Class FloatLib := {
  float_of_int : Z → Q;
  fmul : Q → Q → Q;
  fdiv : Q → Q → Q;
  fsum : list Q → Q;
}.

(** IEEE 754 binary64 with rounding to nearest, ties to even: every
    operation gives the exact result rounded to 53 significant bits (to a
    multiple of 2^-1074 for subnormal results). *)
Module Binary64.

(** The float nearest to [n / d], for positive [n] and [d]. *)
Definition round_pos (n d : positive) : Q :=
  let e0 := (Z.log2 (Zpos n) - Z.log2 (Zpos d))%Z in
  let exponent :=
    if (Zpos d * 2 ^ Z.max 0 e0 <=? Zpos n * 2 ^ Z.max 0 (- e0))%Z
    then e0 else (e0 - 1)%Z in
  let shift := Z.max (exponent - 52) (-1074) in
  let num := (Zpos n * 2 ^ Z.max 0 (- shift))%Z in
  let den := (Zpos d * 2 ^ Z.max 0 shift)%Z in
  let m := (num / den)%Z in
  let r := (num mod den)%Z in
  let m' :=
    if (2 * r <? den)%Z then m
    else if (den <? 2 * r)%Z then (m + 1)%Z
    else if Z.even m then m else (m + 1)%Z in
  Qred (if (0 <=? shift)%Z then inject_Z (m' * 2 ^ shift)
        else m' # Z.to_pos (2 ^ (- shift))).

Definition round (q : Q) : Q :=
  match Qnum q with
  | Z0 => 0%Q
  | Zpos n => round_pos n (Qden q)
  | Zneg n => (- round_pos n (Qden q))%Q
  end.

(** [sum] adds from left to right, as it does up to Python 3.11; from 3.12
    on it compensates the rounding errors of the partial sums. *)
#[global] Instance float_lib : FloatLib :=
  {| float_of_int := λ n, round (inject_Z n);
     fmul := λ a b, round (a * b)%Q;
     fdiv := λ a b, round (a / b)%Q;
     fsum := λ l, fold_left (λ acc x, round (acc + x)%Q) l 0%Q |}.

End Binary64.

(** The float literals [0.8] and [0.9] of the source. *)
Definition float_0_8 : Q := Eval vm_compute in Binary64.round (8 # 10).
Definition float_0_9 : Q := Eval vm_compute in Binary64.round (9 # 10).

(** ** Exceptions *)

(** The exceptions that the code meets.  [ReError] is [re.error];
    [OtherError] stands for any other exception, with its message. *)
Inductive exn : Type :=
| ZeroDivisionError
| AttributeError
| ReError
| IndexError
| TranslationError
| OtherError (message : string).

Inductive outcome (A : Type) : Type :=
| Ok (a : A)
| Raise (e : exn).

Arguments Ok {A} a.
Arguments Raise {A} e.

#[export] Instance outcome_ret : MRet outcome := λ A a, Ok a.

#[export] Instance outcome_bind : MBind outcome := λ A B f m,
  match m with
  | Ok a => f a
  | Raise e => Raise e
  end.

(** ** The [re] module *)

(** [re.escape] (Python 3.7 and later): a backslash before each special
    character. *)
Definition re_special (c : ascii) : bool :=
  match c with
  | "("%char | ")"%char | "["%char | "]"%char | "{"%char | "}"%char
  | "?"%char | "*"%char | "+"%char | "-"%char | "|"%char | "^"%char
  | "$"%char | "\"%char | "."%char | "&"%char | "~"%char | "#"%char
  | " "%char | "009"%char | "010"%char | "011"%char | "012"%char
  | "013"%char => true
  | _ => false
  end.

Fixpoint re_escape (s : string) : string :=
  match s with
  | "" => ""
  | String c s' =>
      if re_special c then String "\"%char (String c (re_escape s'))
      else String c (re_escape s')
  end.

(** The regular-expression engine: compiled patterns with [findall], and
    [re.sub(pattern, repl, s, flags=re.IGNORECASE)] on pattern strings, which
    returns the new string or raises: [re.error] ([Raise ReError]) for an
    ill-formed pattern or template, [IndexError] for a template that names
    a group the pattern does not have, or what else the library raises.
    [compiled_dice_pattern] is the value of
    [re.compile(r"\b(\d+d\d+(?:\s*[+-]\s*\d+)?)\b", re.IGNORECASE)]. *)
Class RegexLib := {
  Pattern : Type;
  findall : Pattern → string → list string;
  re_sub : string → string → string → outcome string;
  compiled_dice_pattern : Pattern;
}.

(** ** TextProcessor (bg3_translator_core.py) *)

Module TextProcessor.

(** [f"__PROTECTED_{i}_{j}__"] *)
Definition placeholder (i j : nat) : string :=
  "__PROTECTED_" +:+ pretty i +:+ "_" +:+ pretty j +:+ "__".

Section Protect.
Context {RE : RegexLib}.

(** The class attribute [DICE_PATTERN]. *)
Definition DICE_PATTERN : Pattern := compiled_dice_pattern.

(** The inner loop of [protect_expressions]: [for j, match in
    enumerate(matches)]. *)
Fixpoint protect_matches (i j : nat) (matches : list string)
    (acc : string * list (string * string)) : string * list (string * string) :=
  match matches with
  | [] => acc
  | m :: ms =>
      let ph := placeholder i j in
      protect_matches i (S j) ms (Py.replace acc.1 m ph, Py.dict_set ph m acc.2)
  end.

(** The outer loop: [for i, pattern in enumerate(patterns)]; the matches
    are searched in the original [text]. *)
Fixpoint protect_patterns (i : nat) (patterns : list Pattern) (text : string)
    (acc : string * list (string * string)) : string * list (string * string) :=
  match patterns with
  | [] => acc
  | p :: ps => protect_patterns (S i) ps text (protect_matches i 0 (findall p text) acc)
  end.

Definition protect_expressions (text : string) (patterns : list Pattern)
    : string * list (string * string) :=
  protect_patterns 0 patterns text (text, []).
End Protect.

Definition restore_expressions (text : string) (protections : list (string * string)) : string :=
  fold_left (λ result '(ph, original), Py.replace result ph original) protections text.

(** [ENCODING_FIXES], in the order of the dict literal. *)
Definition ENCODING_FIXES : list (string * string) :=
  [ ("â€™", "'"); ("â€œ", String "034"%char ""); ("â€", String "034"%char "");
    ("Ã©", "é"); ("Ã ", "à"); ("Ã§", "ç"); ("Ã¨", "è"); ("Ã´", "ô") ].

Definition clean_encoding (text : string) : string :=
  if Py.truthy text
  then fold_left (λ result '(bad, good), Py.replace result bad good) ENCODING_FIXES text
  else text.

(** [re.sub(r"\s+", " ", text)]: every run of white-space characters
    becomes one space; [in_run] tells whether the character before was
    white space. *)
Fixpoint collapse_spaces (in_run : bool) (l : list string) : list string :=
  match l with
  | [] => []
  | ch :: l' =>
      if Py.isspace ch
      then (if in_run then collapse_spaces true l' else " " :: collapse_spaces true l')
      else ch :: collapse_spaces false l'
  end.

Definition normalize_whitespace (text : string) : string :=
  if Py.truthy text
  then Py.strip (Py.join (collapse_spaces false (Py.characters text)))
  else text.

End TextProcessor.

(** ** A concrete regex engine for running examples

    A backtracking matcher for the fragment of [re] that the patterns of the
    examples use, with [re.IGNORECASE] on ASCII letters.  The engine reads a
    text byte by byte and is meant for ASCII texts, on which it follows
    [re].  Outside ASCII it knows no character class: a byte above 127 is
    taken as part of a letter, which suits the accented letters of the
    examples and not the punctuation, the digits or the white space
    outside ASCII; there [\b], [\d], [\s] and [\w] of [re] may answer
    differently.  The statements below that hold for every library are
    stated over [RegexLib], not over this engine. *)

Module MiniRe.

Inductive regex : Type :=
| Eps
| Lit (c : ascii)
| Digit
| Space
| Word
| OneOf (cs : list ascii)
| WordB
| Cat (r1 r2 : regex)
| Alt (r1 r2 : regex)
| Opt (r : regex)
| Star (r : regex).

Definition Plus (r : regex) : regex := Cat r (Star r).

Definition is_digit (c : ascii) : bool :=
  let n := nat_of_ascii c in (48 <=? n)%nat && (n <=? 57)%nat.

Definition is_upper (c : ascii) : bool :=
  let n := nat_of_ascii c in (65 <=? n)%nat && (n <=? 90)%nat.

Definition is_lower (c : ascii) : bool :=
  let n := nat_of_ascii c in (97 <=? n)%nat && (n <=? 122)%nat.

Definition is_word (c : ascii) : bool :=
  is_digit c || is_upper c || is_lower c || Ascii.eqb c "_"%char
  || (128 <=? nat_of_ascii c)%nat.

Definition lower (c : ascii) : ascii :=
  if is_upper c then ascii_of_nat (nat_of_ascii c + 32) else c.

(** Character equality under [re.IGNORECASE]. *)
Definition ci_eqb (a b : ascii) : bool := Ascii.eqb (lower a) (lower b).

Definition is_word_opt (o : option ascii) : bool :=
  match o with Some c => is_word c | None => false end.

Definition one (p : ascii → bool) (s : string)
    (k : option ascii → string → option string) : option string :=
  match s with
  | String a s' => if p a then k (Some a) s' else None
  | "" => None
  end.

(** [rmatch r prev s k]: match [r] at the front of [s], where [prev] is the
    character before [s]; [k] receives the position after the match.
    Alternatives are tried in order and quantifiers are greedy. *)
Fixpoint rmatch (r : regex) (prev : option ascii) (s : string)
    (k : option ascii → string → option string) {struct r} : option string :=
  match r with
  | Eps => k prev s
  | Lit c => one (ci_eqb c) s k
  | Digit => one is_digit s k
  | Space => one Ascii.is_space s k
  | Word => one is_word s k
  | OneOf cs => one (λ a, existsb (ci_eqb a) cs) s k
  | WordB =>
      if xorb (is_word_opt prev) (is_word_opt (Py.starts_with_opt s))
      then k prev s else None
  | Cat r1 r2 => rmatch r1 prev s (λ p' s', rmatch r2 p' s' k)
  | Alt r1 r2 =>
      match rmatch r1 prev s k with
      | Some x => Some x
      | None => rmatch r2 prev s k
      end
  | Opt r1 =>
      match rmatch r1 prev s k with
      | Some x => Some x
      | None => k prev s
      end
  | Star r1 =>
      (fix star (n : nat) (prev : option ascii) (s : string) : option string :=
         match n with
         | O => k prev s
         | S n' =>
             match rmatch r1 prev s
                     (λ p' s', if (String.length s' <? String.length s)%nat
                               then star n' p' s' else None) with
             | Some x => Some x
             | None => k prev s
             end
         end) (String.length s) prev s
  end.

(** The leftmost match at the front of [s]: the matched text and the rest. *)
Definition match_here (r : regex) (prev : option ascii) (s : string)
    : option (string * string) :=
  match rmatch r prev s (λ _ rest, Some rest) with
  | Some rest =>
      Some (String.substring 0 (String.length s - String.length rest) s, rest)
  | None => None
  end.

Fixpoint last_char (prev : option ascii) (s : string) : option ascii :=
  match s with
  | "" => prev
  | String a s' => last_char (Some a) s'
  end.

(** [pattern.findall(s)] for a pattern whose single group spans the whole
    match: the non-overlapping matches from left to right. *)
Fixpoint findall_go (fuel : nat) (r : regex) (prev : option ascii) (s : string)
    : list string :=
  match fuel with
  | O => []
  | S fuel' =>
      let step :=
        match s with
        | "" => []
        | String a s' => findall_go fuel' r (Some a) s'
        end in
      match match_here r prev s with
      | Some ("", _) => "" :: step
      | Some (m, rest) => m :: findall_go fuel' r (last_char prev m) rest
      | None => step
      end
  end.

Definition run_findall (r : regex) (s : string) : list string :=
  findall_go (S (String.length s)) r None s.

(** [re.sub]: every match, from left to right, is replaced by the
    expansion [repl m] of the template for the matched text [m]. *)
Fixpoint sub_go (fuel : nat) (r : regex) (repl : string → string) (prev : option ascii)
    (s : string) : string :=
  match fuel with
  | O => s
  | S fuel' =>
      let step (pre : string) :=
        match s with
        | "" => pre
        | String a s' => pre +:+ String a (sub_go fuel' r repl (Some a) s')
        end in
      match match_here r prev s with
      | Some ("", _) => step (repl "")
      | Some (m, rest) => repl m +:+ sub_go fuel' r repl (last_char prev m) rest
      | None => step ""
      end
  end.

(** The strings that a regex can match, word boundaries left aside: the
    declarative reading against which the matcher is checked. *)
Inductive matches : regex → string → Prop :=
| matches_eps : matches Eps ""
| matches_lit c a : ci_eqb c a = true → matches (Lit c) (String a "")
| matches_digit a : is_digit a = true → matches Digit (String a "")
| matches_space a : Ascii.is_space a = true → matches Space (String a "")
| matches_word a : is_word a = true → matches Word (String a "")
| matches_oneof cs a : existsb (ci_eqb a) cs = true → matches (OneOf cs) (String a "")
| matches_wordb : matches WordB ""
| matches_cat r1 r2 m1 m2 : matches r1 m1 → matches r2 m2 → matches (Cat r1 r2) (m1 +:+ m2)
| matches_alt_l r1 r2 m : matches r1 m → matches (Alt r1 r2) m
| matches_alt_r r1 r2 m : matches r2 m → matches (Alt r1 r2) m
| matches_opt_none r : matches (Opt r) ""
| matches_opt_some r m : matches r m → matches (Opt r) m
| matches_star_nil r : matches (Star r) ""
| matches_star_cons r m1 m2 : matches r m1 → matches (Star r) m2 → matches (Star r) (m1 +:+ m2).

(** The characters that a match of a regex can hold. *)
Fixpoint chars_of (r : regex) (a : ascii) : bool :=
  match r with
  | Eps | WordB => false
  | Lit c => ci_eqb c a
  | Digit => is_digit a
  | Space => Ascii.is_space a
  | Word => is_word a
  | OneOf cs => existsb (ci_eqb a) cs
  | Cat r1 r2 | Alt r1 r2 => chars_of r1 a || chars_of r2 a
  | Opt r1 | Star r1 => chars_of r1 a
  end.

(** The pattern syntax of the fragment: literal characters, escaped
    punctuation and the classes [\b], [\d], [\s], [\w]; such a pattern has
    no group.  For a pattern outside the fragment the answer is [re.error]
    where Python is sure to give it (a closing parenthesis without an
    opening one, an opening parenthesis or bracket that is never closed, a
    leading quantifier, a backslash at the end) and [OtherError] elsewhere:
    the engine does not know what [re] does there. *)
Definition outside_fragment {A} : outcome A :=
  Raise (OtherError "outside the fragment of the example engine").

Definition is_operator (c : ascii) : bool :=
  match c with
  | "("%char | ")"%char | "["%char | "]"%char | "{"%char | "}"%char
  | "?"%char | "*"%char | "+"%char | "|"%char | "^"%char | "$"%char
  | "."%char => true
  | _ => false
  end.

Fixpoint has_ascii (c : ascii) (s : string) : bool :=
  match s with
  | "" => false
  | String a s' => Ascii.eqb a c || has_ascii c s'
  end.

Definition escape_atom (c : ascii) : option regex :=
  match c with
  | "b"%char => Some WordB
  | "d"%char => Some Digit
  | "s"%char => Some Space
  | "w"%char => Some Word
  | _ => if is_digit c || is_upper c || is_lower c then None else Some (Lit c)
  end.

(** The pattern after its first character; no operator stands before
    [p]. *)
Fixpoint compile_go (p : string) : outcome regex :=
  match p with
  | "" => Ok Eps
  | String "\"%char "" => Raise ReError
  | String "\"%char (String c p') =>
      match escape_atom c with
      | Some a => r ← compile_go p'; Ok (Cat a r)
      | None => outside_fragment
      end
  | String c p' =>
      if is_operator c
      then
        if Ascii.eqb c ")"%char then Raise ReError
        else if Ascii.eqb c "("%char && negb (has_ascii ")"%char p') then Raise ReError
        else if Ascii.eqb c "["%char && negb (has_ascii "]"%char p') then Raise ReError
        else outside_fragment
      else r ← compile_go p'; Ok (Cat (Lit c) r)
  end.

Definition compile (p : string) : outcome regex :=
  match p with
  | String c _ =>
      if Ascii.eqb c "*"%char || Ascii.eqb c "+"%char || Ascii.eqb c "?"%char
      then Raise ReError else compile_go p
  | "" => compile_go p
  end.

(** The replacement template for a pattern without groups: a literal
    character or the whole match, [\g<0>]. *)
Inductive piece : Type :=
| PLit (c : ascii)
| PWhole.

Definition is_octal (c : ascii) : bool :=
  let n := nat_of_ascii c in (48 <=? n)%nat && (n <=? 55)%nat.

Definition is_ident_start (c : ascii) : bool :=
  is_upper c || is_lower c || Ascii.eqb c "_"%char.

Definition is_ident_char (c : ascii) : bool := is_ident_start c || is_digit c.

Fixpoint string_all (p : ascii → bool) (s : string) : bool :=
  match s with
  | "" => true
  | String a s' => p a && string_all p s'
  end.

(** The group that [\g<name>] names, for a pattern without groups: group 0
    is the whole match, another number is an invalid reference, an
    identifier is an unknown group name ([IndexError]). *)
Definition resolve_group (group_name : string) : outcome piece :=
  match group_name with
  | "" => Raise ReError
  | String c _ =>
      if string_all is_digit group_name
      then if string_all (Ascii.eqb "0"%char) group_name then Ok PWhole else Raise ReError
      else if is_ident_start c && string_all is_ident_char group_name
      then Raise IndexError
      else outside_fragment
  end.

(** The escapes of a template.  [\a \b \f \n \r \t \v] and the doubled
    backslash stand for one character, another ASCII letter is a bad
    escape, a digit is a reference to a group that the pattern does not
    have (octal escapes are outside the fragment), and any other character
    stays with its backslash. *)
Definition template_escape (c : ascii) : outcome (list piece) :=
  match c with
  | "a"%char => Ok [PLit "007"%char]
  | "b"%char => Ok [PLit "008"%char]
  | "f"%char => Ok [PLit "012"%char]
  | "n"%char => Ok [PLit "010"%char]
  | "r"%char => Ok [PLit "013"%char]
  | "t"%char => Ok [PLit "009"%char]
  | "v"%char => Ok [PLit "011"%char]
  | "\"%char => Ok [PLit "\"%char]
  | _ =>
      if is_upper c || is_lower c then Raise ReError
      else Ok [PLit "\"%char; PLit c]
  end.

(** [group_name] is [Some acc] inside [\g<...>], with the characters read
    so far in reverse. *)
Fixpoint template_go (group_name : option string) (t : string) : outcome (list piece) :=
  match group_name with
  | Some acc =>
      match t with
      | "" => Raise ReError
      | String c t' =>
          if Ascii.eqb c ">"%char
          then p ← resolve_group (String.rev acc); ps ← template_go None t'; Ok (p :: ps)
          else template_go (Some (String c acc)) t'
      end
  | None =>
      match t with
      | "" => Ok []
      | String "\"%char "" => Raise ReError
      | String "\"%char (String "g"%char (String "<"%char t')) => template_go (Some "") t'
      | String "\"%char (String "g"%char _) => Raise ReError
      | String "\"%char (String c t') =>
          if is_digit c
          then
            match t' with
            | String c2 (String c3 _) =>
                if Ascii.eqb c "0"%char || (is_octal c && is_octal c2 && is_octal c3)
                then outside_fragment else Raise ReError
            | _ => if Ascii.eqb c "0"%char then outside_fragment else Raise ReError
            end
          else e ← template_escape c; ps ← template_go None t'; Ok (e ++ ps)
      | String c t' => ps ← template_go None t'; Ok (PLit c :: ps)
      end
  end.

Definition parse_template (repl : string) : outcome (list piece) := template_go None repl.

Fixpoint expand_template (ps : list piece) (m : string) : string :=
  match ps with
  | [] => ""
  | PLit c :: ps' => String c (expand_template ps' m)
  | PWhole :: ps' => m +:+ expand_template ps' m
  end.

(** [re.sub(pattern, repl, s, flags=re.IGNORECASE)]: the pattern is compiled
    first, then the template. *)
Definition run_sub (pattern repl s : string) : outcome string :=
  r ← compile pattern;
  ps ← parse_template repl;
  Ok (sub_go (S (String.length s)) r (expand_template ps) None s).

(** The dice pattern [\b(\d+d\d+(?:\s*[+-]\s*\d+)?)\b] of [TextProcessor],
    compiled; its group spans the whole match. *)
Definition dice_regex : regex :=
  Cat WordB
    (Cat (Cat (Plus Digit) (Cat (Lit "d") (Cat (Plus Digit)
            (Opt (Cat (Star Space) (Cat (OneOf ["+"%char; "-"%char])
                   (Cat (Star Space) (Plus Digit))))))))
         WordB).

#[global] Instance engine : RegexLib :=
  {| Pattern := regex; findall := run_findall; re_sub := run_sub;
     compiled_dice_pattern := dice_regex |}.

End MiniRe.

(** ** Collaborators outside the repository *)

(** [difflib.SequenceMatcher(None, a, b).get_opcodes()]. *)
Inductive opcode_tag : Type := op_replace | op_delete | op_insert | op_equal.

#[export] Instance opcode_tag_eq_dec : EqDecision opcode_tag.
Proof. solve_decision. Defined.

Record opcode : Type := mkOpcode {
  op_tag : opcode_tag;
  op_i1 : nat; op_i2 : nat;
  op_j1 : nat; op_j2 : nat;
}.

Class DiffLib := {
  get_opcodes : string → string → list opcode;
}.

(** The clock and the iteration order of a [set] of strings (which depends on
    the hash seed of the interpreter). *)
Class Runtime := {
  now_isoformat : string;
  now_strftime : string;
  set_elements : list string → list string;
}.

(** The machine-translation service and the LLM service; [None] stands for a
    raised exception (for the LLM service also for a response that is not
    [ok]). *)
Class Services := {
  translate_text : string → string → string → option string;
  openrouter_completion : string → string → string → option string;
}.

(** ** Rules and learning candidates (dynamic_rules_manager.py) *)

Record Rule : Type := mkRule {
  name : string;
  pattern : string;
  replacement : string;
  description : string;
  stage : string;
  confidence : Q;
  usage_count : Z;
  success_rate : Q;
  created_at : option string;
  mod_specific : option string;
}.

Record LearningCandidate : Type := mkCandidate {
  source_text : string;
  original_translation : string;
  improved_translation : string;
  improvement_source : string;
  cand_confidence : Q;
  frequency : Z;
  detected_pattern : option string;
  suggested_replacement : option string;
}.

Record LearningConfig : Type := mkConfig {
  enabled : bool;
  auto_improve : bool;
  confidence_threshold : Q;
  max_learned_rules : nat;
  min_frequency_for_pattern : Z;
  similarity_threshold : Q;
}.

(** The configuration set by [DynamicRulesManager.__init__]. *)
Definition default_learning_config : LearningConfig :=
  {| enabled := true; auto_improve := true;
     confidence_threshold := float_0_8;
     max_learned_rules := 100;
     min_frequency_for_pattern := 3;
     similarity_threshold := float_0_9 |}.

Definition Qlt_bool (a b : Q) : bool := negb (Qle_bool b a).

Definition set_usage_count (u : Z) (r : Rule) : Rule :=
  {| name := name r; pattern := pattern r; replacement := replacement r;
     description := description r; stage := stage r; confidence := confidence r;
     usage_count := u; success_rate := success_rate r;
     created_at := created_at r; mod_specific := mod_specific r |}.

Definition set_success_rate (q : Q) (r : Rule) : Rule :=
  {| name := name r; pattern := pattern r; replacement := replacement r;
     description := description r; stage := stage r; confidence := confidence r;
     usage_count := usage_count r; success_rate := q;
     created_at := created_at r; mod_specific := mod_specific r |}.

(** [rule.usage_count += 1] *)
Definition bump_usage (r : Rule) : Rule := set_usage_count (usage_count r + 1) r.

(** [rule.success_rate *= 0.9] *)
Definition penalize {FL : FloatLib} (r : Rule) : Rule :=
  set_success_rate (fmul (success_rate r) float_0_9) r.

(** The assignments of [import_reviewed_rules] to an existing rule. *)
Definition overwrite_reviewed (new old : Rule) : Rule :=
  {| name := name old; pattern := pattern new; replacement := replacement new;
     description := description new; stage := stage old; confidence := confidence new;
     usage_count := usage_count old; success_rate := success_rate old;
     created_at := created_at old; mod_specific := mod_specific old |}.

(** A read [d[stage]] of a [defaultdict(list)]: the empty list for a missing
    key.  (The empty entry that the read leaves behind is not kept: every
    function below treats a missing stage and an empty one alike.) *)
Definition rules_at (d : gmap string (list Rule)) (stage : string) : list Rule :=
  default [] (d !! stage).

(** The three sources of rules.  A [Rule] object is stored in exactly one
    slot of one partition (every constructor call of the source is followed
    by a single [append]), so a reference to the object is the slot. *)
Inductive partition : Type :=
| Base
| Learned
| ModSpecific (mod_name : string).

#[export] Instance partition_eq_dec : EqDecision partition.
Proof. solve_decision. Defined.

Definition slot : Type := partition * nat.

Module DynamicRulesManager.

Record t : Type := mk {
  base_rules : gmap string (list Rule);
  learned_rules : gmap string (list Rule);
  mod_specific_rules : gmap string (gmap string (list Rule));
  learning_candidates : list LearningCandidate;
  learning_config : LearningConfig;
}.

Definition set_learned_rules (l : gmap string (list Rule)) (st : t) : t :=
  {| base_rules := base_rules st; learned_rules := l;
     mod_specific_rules := mod_specific_rules st;
     learning_candidates := learning_candidates st;
     learning_config := learning_config st |}.

Definition set_base_rules (l : gmap string (list Rule)) (st : t) : t :=
  {| base_rules := l; learned_rules := learned_rules st;
     mod_specific_rules := mod_specific_rules st;
     learning_candidates := learning_candidates st;
     learning_config := learning_config st |}.

Definition set_mod_specific_rules (l : gmap string (gmap string (list Rule))) (st : t) : t :=
  {| base_rules := base_rules st; learned_rules := learned_rules st;
     mod_specific_rules := l;
     learning_candidates := learning_candidates st;
     learning_config := learning_config st |}.

Definition set_learning_candidates (l : list LearningCandidate) (st : t) : t :=
  {| base_rules := base_rules st; learned_rules := learned_rules st;
     mod_specific_rules := mod_specific_rules st;
     learning_candidates := l;
     learning_config := learning_config st |}.

(** The rules of a partition for a stage. *)
Definition partition_rules (st : t) (p : partition) (stage : string) : list Rule :=
  match p with
  | Base => rules_at (base_rules st) stage
  | Learned => rules_at (learned_rules st) stage
  | ModSpecific m => rules_at (default ∅ (mod_specific_rules st !! m)) stage
  end.

(** The object behind a reference. *)
Definition deref (st : t) (stage : string) (sl : slot) : option Rule :=
  partition_rules st sl.1 stage !! sl.2.

(** A mutation of the object behind a reference. *)
Definition update_rule (stage : string) (sl : slot) (f : Rule → Rule) (st : t) : t :=
  match sl.1 with
  | Base => set_base_rules (alter (alter f sl.2) stage (base_rules st)) st
  | Learned => set_learned_rules (alter (alter f sl.2) stage (learned_rules st)) st
  | ModSpecific m =>
      set_mod_specific_rules
        (alter (alter (alter f sl.2) stage) m (mod_specific_rules st)) st
  end.

Definition tagged (p : partition) (l : list Rule) : list (slot * Rule) :=
  imap (λ i r, ((p, i), r)) l.

(** [get_applicable_rules]: the rule objects of the three partitions, merged
    in a fresh list and sorted by descending confidence (stable). *)
Definition get_applicable_rules (st : t) (stage : string) (mod_name : option string)
    : list (slot * Rule) :=
  let rules := tagged Base (partition_rules st Base stage) in
  let rules := rules ++ tagged Learned (partition_rules st Learned stage) in
  let rules :=
    match mod_name with
    | Some m =>
        if Py.truthy m && bool_decide (is_Some (mod_specific_rules st !! m))
        then rules ++ tagged (ModSpecific m) (partition_rules st (ModSpecific m) stage)
        else rules
    | None => rules
    end in
  Py.sort_desc (λ a b, Qlt_bool (confidence a.2) (confidence b.2)) rules.

Section Apply.
Context {RE : RegexLib} {FL : FloatLib}.

(** The loop of [apply_rules].  A [re.error] leaves [result] as it was
    and penalises the rule; any other exception leaves the loop and the
    function, with the rule objects as they are by then.  The pattern and
    the replacement of a rule are not assigned to in the loop, so they are
    read from the list. *)
Fixpoint apply_loop (stage : string) (rules : list (slot * Rule))
    (result : string) (st : t) : outcome string * t :=
  match rules with
  | [] => (Ok result, st)
  | (sl, rule) :: rules' =>
      match re_sub (pattern rule) (replacement rule) result with
      | Ok new =>
          let st' := if String.eqb result new then st
                     else update_rule stage sl bump_usage st in
          apply_loop stage rules' new st'
      | Raise ReError =>
          apply_loop stage rules' result (update_rule stage sl penalize st)
      | Raise e => (Raise e, st)
      end
  end.

(** [apply_rules]: the returned string or the exception that left the
    function, and the manager afterwards. *)
Definition apply_rules (st : t) (text : string) (stage : string)
    (mod_name : option string) : outcome string * t :=
  if Py.truthy text
  then apply_loop stage (get_applicable_rules st stage mod_name) text st
  else (Ok text, st).
End Apply.

End DynamicRulesManager.

(** ** The learner (dynamic_rules_manager.py) *)

Module Learner.
Import DynamicRulesManager.

(** [==] on two [LearningCandidate]s, field by field as the dataclass
    compares them. *)
Definition candidate_eqb (a b : LearningCandidate) : bool :=
  String.eqb (source_text a) (source_text b)
  && String.eqb (original_translation a) (original_translation b)
  && String.eqb (improved_translation a) (improved_translation b)
  && String.eqb (improvement_source a) (improvement_source b)
  && Qeq_bool (cand_confidence a) (cand_confidence b)
  && Z.eqb (frequency a) (frequency b)
  && bool_decide (detected_pattern a = detected_pattern b)
  && bool_decide (suggested_replacement a = suggested_replacement b).

(** [l.remove(c)] guarded by [c in l]: the first equal element goes. *)
Fixpoint remove_first (c : LearningCandidate) (l : list LearningCandidate)
    : list LearningCandidate :=
  match l with
  | [] => []
  | x :: l' => if candidate_eqb x c then l' else x :: remove_first c l'
  end.

(** [sum(c.frequency for c in candidates)] *)
Definition total_frequency (candidates : list LearningCandidate) : Z :=
  fold_left (λ acc c, acc + frequency c)%Z candidates 0%Z.

Section Scores.
Context {FL : FloatLib}.

(** [sum(c.confidence * c.frequency for c in candidates)] *)
Definition weighted_sum (candidates : list LearningCandidate) : Q :=
  fsum ((λ c, fmul (cand_confidence c) (float_of_int (frequency c))) <$> candidates).

(** The frequency-weighted average confidence,
    [sum(c.confidence * c.frequency for c in candidates) / total_frequency];
    the division raises on a zero total. *)
Definition avg_confidence (candidates : list LearningCandidate) : outcome Q :=
  let total := total_frequency candidates in
  if (total =? 0)%Z then Raise ZeroDivisionError
  else Ok (fdiv (weighted_sum candidates) (float_of_int total)).
End Scores.

(** [pattern_groups[candidate.detected_pattern].append(candidate)] on an
    insertion-ordered [defaultdict(list)]. *)
Fixpoint group_add (p : string) (c : LearningCandidate)
    (groups : list (string * list LearningCandidate))
    : list (string * list LearningCandidate) :=
  match groups with
  | [] => [(p, [c])]
  | (p', cs) :: groups' =>
      if String.eqb p' p then (p', cs ++ [c]) :: groups'
      else (p', cs) :: group_add p c groups'
  end.

Definition pattern_groups (candidates : list LearningCandidate)
    : list (string * list LearningCandidate) :=
  fold_left
    (λ groups c,
       match detected_pattern c with
       | Some p => if Py.truthy p then group_add p c groups else groups
       | None => groups
       end)
    candidates [].

(** The truthy suggested replacements of a group, in order. *)
Definition suggestions (candidates : list LearningCandidate) : list string :=
  omap (λ c, match suggested_replacement c with
             | Some s => if Py.truthy s then Some s else None
             | None => None
             end) candidates.

Section Cleanup.
Context {FL : FloatLib}.

(** [rule.confidence * (1 + rule.usage_count) * rule.success_rate] *)
Definition rule_score (rule : Rule) : Q :=
  fmul (fmul (confidence rule) (float_of_int (1 + usage_count rule))) (success_rate rule).

(** [_cleanup_learned_rules] on one stage. *)
Definition cleanup_stage (max_rules : nat) (rules : list Rule) : list Rule :=
  if (max_rules <? length rules)%nat
  then take max_rules (Py.sort_desc (λ a b, Qlt_bool (rule_score a) (rule_score b)) rules)
  else rules.

Definition _cleanup_learned_rules (st : t) : t :=
  set_learned_rules
    (cleanup_stage (max_learned_rules (learning_config st)) <$> learned_rules st) st.

(** [save_learned_rules]: the eviction first, then the serialisation of the
    learned rules and of the pending candidates.  The result is the manager
    and the data handed to [json.dump]; the boolean of the source only
    tells whether the file could be written. *)
Definition save_learned_rules (st : t)
    : t * (gmap string (list Rule) * list LearningCandidate) :=
  let st' := _cleanup_learned_rules st in
  (st', (learned_rules st', learning_candidates st')).
End Cleanup.

Section Learn.
Context {RE : RegexLib} {DIFF : DiffLib} {RT : Runtime} {FL : FloatLib}.

Definition join_comma (l : list string) : string :=
  String.concat ", " l.

Definition _create_learned_rule (st : t) (pattern replacement : string)
    (candidates : list LearningCandidate) : outcome t :=
  let stage := "post_translation" in
  let rule_name :=
    "learned_" +:+ pretty (length (rules_at (learned_rules st) stage))
               +:+ "_" +:+ now_strftime in
  let total_freq := total_frequency candidates in
  avg ← avg_confidence candidates;
  let sources := set_elements (improvement_source <$> candidates) in
  let description :=
    "Règle apprise automatiquement (sources: " +:+ join_comma sources
      +:+ ", fréquence: " +:+ pretty total_freq +:+ ")" in
  let rule :=
    {| name := rule_name; pattern := pattern; replacement := replacement;
       description := description; stage := stage; confidence := avg;
       usage_count := 0; success_rate := 1;
       created_at := Some now_isoformat; mod_specific := None |} in
  let st1 :=
    set_learned_rules
      (<[stage := rules_at (learned_rules st) stage ++ [rule]]> (learned_rules st)) st in
  let st2 :=
    set_learning_candidates
      (fold_left (λ l c, remove_first c l) candidates (learning_candidates st1)) st1 in
  Ok (save_learned_rules st2).1.

(** The loop of [_evaluate_learning_candidates] over the groups. *)
Fixpoint evaluate_groups (groups : list (string * list LearningCandidate)) (st : t)
    : outcome t :=
  match groups with
  | [] => Ok st
  | (pattern, candidates) :: groups' =>
      let total := total_frequency candidates in
      avg ← avg_confidence candidates;
      if (min_frequency_for_pattern (learning_config st) <=? total)%Z
         && Qle_bool (confidence_threshold (learning_config st)) avg
      then
        match Py.most_common1 (suggestions candidates) with
        | Some most_common_replacement =>
            st' ← _create_learned_rule st pattern most_common_replacement candidates;
            evaluate_groups groups' st'
        | None => evaluate_groups groups' st
        end
      else evaluate_groups groups' st
  end.

Definition _evaluate_learning_candidates (st : t) : outcome t :=
  match learning_candidates st with
  | [] => Ok st
  | _ => evaluate_groups (pattern_groups (learning_candidates st)) st
  end.

(** Tier 1 of [_detect_improvement_pattern]: the first pair of words that
    differ. *)
Fixpoint first_word_difference (original_words improved_words : list string)
    : option (string * string) :=
  match original_words, improved_words with
  | orig_word :: ows, impr_word :: iws =>
      if String.eqb orig_word impr_word then first_word_difference ows iws
      else Some ("\b" +:+ re_escape orig_word +:+ "\b", impr_word)
  | _, _ => None
  end.

(** Tier 2: the first significant [replace] opcode whose two stripped
    segments are non-empty. *)
Fixpoint first_replace_segment (original improved : string) (ops : list opcode)
    : option (string * string) :=
  match ops with
  | [] => None
  | o :: ops' =>
      let orig_segment := Py.strip (Py.slice original (op_i1 o) (op_i2 o)) in
      let impr_segment := Py.strip (Py.slice improved (op_j1 o) (op_j2 o)) in
      if bool_decide (op_tag o = op_replace)
         && (2 <? op_i2 o - op_i1 o)%nat && (2 <? op_j2 o - op_j1 o)%nat
         && Py.truthy orig_segment && Py.truthy impr_segment
      then Some (re_escape orig_segment, impr_segment)
      else first_replace_segment original improved ops'
  end.

Definition _detect_improvement_pattern (original improved : string)
    : option string * option string :=
  let original_words := Py.split original in
  let improved_words := Py.split improved in
  let tier1 :=
    if (length original_words =? length improved_words)%nat
    then first_word_difference original_words improved_words
    else None in
  match tier1 with
  | Some (p, r) => (Some p, Some r)
  | None =>
      match first_replace_segment original improved (get_opcodes original improved) with
      | Some (p, r) => (Some p, Some r)
      | None => (None, None)
      end
  end.

(** The duplicate search of [learn_from_llm_improvement]: the first
    candidate with the same source text and baseline is updated in
    place. *)
Fixpoint bump_duplicate (source_text0 original_translation0 : string) (conf : Q)
    (l : list LearningCandidate) : option (list LearningCandidate) :=
  match l with
  | [] => None
  | c :: l' =>
      if String.eqb (source_text c) source_text0
         && String.eqb (original_translation c) original_translation0
      then
        Some ({| source_text := source_text c;
                 original_translation := original_translation c;
                 improved_translation := improved_translation c;
                 improvement_source := improvement_source c;
                 cand_confidence :=
                   if Qlt_bool (cand_confidence c) conf then conf else cand_confidence c;
                 frequency := frequency c + 1;
                 detected_pattern := detected_pattern c;
                 suggested_replacement := suggested_replacement c |} :: l')
      else (c ::.) <$> bump_duplicate source_text0 original_translation0 conf l'
  end.

Definition learn_from_llm_improvement (st : t)
    (source_text0 original_translation0 improved_translation0 : string) (conf : Q)
    : outcome (bool * t) :=
  if negb (enabled (learning_config st)) then Ok (false, st)
  else
    match bump_duplicate source_text0 original_translation0 conf
            (learning_candidates st) with
    | Some l => Ok (true, set_learning_candidates l st)
    | None =>
        let '(detected, suggested) :=
          _detect_improvement_pattern original_translation0 improved_translation0 in
        let candidate :=
          {| source_text := source_text0;
             original_translation := original_translation0;
             improved_translation := improved_translation0;
             improvement_source := "llm";
             cand_confidence := conf; frequency := 1;
             detected_pattern := detected;
             suggested_replacement := suggested |} in
        let st1 := set_learning_candidates (learning_candidates st ++ [candidate]) st in
        if Qle_bool (confidence_threshold (learning_config st1)) conf
           && auto_improve (learning_config st1)
        then st2 ← _evaluate_learning_candidates st1; Ok (true, st2)
        else Ok (true, st1)
    end.
End Learn.

End Learner.

(** ** JSON data *)

(** The values that [json.load] returns and [json.dump] takes; an object is an
    insertion-ordered [dict]. *)
#[local] Unset Elimination Schemes.
Inductive json : Type :=
| JNull
| JBool (b : bool)
| JInt (z : Z)
| JFloat (q : Q)
| JString (s : string)
| JArray (l : list json)
| JObject (o : list (string * json)).
#[local] Set Elimination Schemes.

(** ** Rules as dictionaries (dynamic_rules_manager.py) *)

(** [datetime.fromisoformat]; a [datetime] is represented by its ISO text,
    as [created_at] holds it, and [None] stands for [ValueError]. *)
Class DateTimeLib := {
  fromisoformat : string → option string;
}.

(** The truth value of a JSON value in a condition. *)
Definition json_truthy (v : json) : bool :=
  match v with
  | JNull => false
  | JBool b => b
  | JInt z => negb (z =? 0)%Z
  | JFloat q => negb (Qeq_bool q 0)
  | JString s => Py.truthy s
  | JArray l => negb (bool_decide (l = []))
  | JObject o => negb (bool_decide (o = []))
  end.

Definition json_of_option (o : option string) : json :=
  match o with
  | Some s => JString s
  | None => JNull
  end.

(** [Rule.to_dict] *)
Definition to_dict (r : Rule) : list (string * json) :=
  [ ("name", JString (name r)); ("pattern", JString (pattern r));
    ("replacement", JString (replacement r)); ("description", JString (description r));
    ("stage", JString (stage r)); ("confidence", JFloat (confidence r));
    ("usage_count", JInt (usage_count r)); ("success_rate", JFloat (success_rate r));
    ("created_at", json_of_option (created_at r));
    ("mod_specific", json_of_option (mod_specific r)) ].

(** The outcome of [Rule.from_dict]: a rule, or the exception raised.  A
    value whose type is not the one of its field would be stored as it is by
    the source; such rules are outside the embedding ([Unsupported]). *)
Inductive from_dict_result : Type :=
| FromDict (rule : Rule)
| KeyError (key : string)
| TypeError
| Unsupported.

Definition required_string (data : list (string * json)) (key : string)
    (k : string → from_dict_result) : from_dict_result :=
  match Py.dict_get key data with
  | None => KeyError key
  | Some (JString s) => k s
  | Some _ => Unsupported
  end.

Definition optional_float (data : list (string * json)) (key : string) (default : Q)
    (k : Q → from_dict_result) : from_dict_result :=
  match Py.dict_get key data with
  | None => k default
  | Some (JFloat q) => k q
  | Some (JInt z) => k (inject_Z z)
  | Some _ => Unsupported
  end.

Definition optional_int (data : list (string * json)) (key : string) (default : Z)
    (k : Z → from_dict_result) : from_dict_result :=
  match Py.dict_get key data with
  | None => k default
  | Some (JInt z) => k z
  | Some _ => Unsupported
  end.

Definition optional_string (data : list (string * json)) (key : string)
    (k : option string → from_dict_result) : from_dict_result :=
  match Py.dict_get key data with
  | None | Some JNull => k None
  | Some (JString s) => k (Some s)
  | Some _ => Unsupported
  end.

Section FromDict.
Context {DT : DateTimeLib} {RT : Runtime}.

(** [Rule.__post_init__]: a rule without a creation date gets the present
    one. *)
Definition post_init (r : Rule) : Rule :=
  match created_at r with
  | Some _ => r
  | None =>
      {| name := name r; pattern := pattern r; replacement := replacement r;
         description := description r; stage := stage r; confidence := confidence r;
         usage_count := usage_count r; success_rate := success_rate r;
         created_at := Some now_isoformat; mod_specific := mod_specific r |}
  end.

(** The creation date that [from_dict] reads: [None] for a falsy value or a
    text that is no date; a truthy value that is no string makes
    [fromisoformat] raise [TypeError]. *)
Definition read_created_at (data : list (string * json)) : option (option string) :=
  match Py.dict_get "created_at" data with
  | None => Some None
  | Some v =>
      if json_truthy v
      then match v with
           | JString s => Some (fromisoformat s)
           | _ => None
           end
      else Some None
  end.

(** [Rule.from_dict] *)
Definition from_dict (data : list (string * json)) : from_dict_result :=
  match read_created_at data with
  | None => TypeError
  | Some created =>
      required_string data "name" (λ name0,
      required_string data "pattern" (λ pattern0,
      required_string data "replacement" (λ replacement0,
      required_string data "description" (λ description0,
      required_string data "stage" (λ stage0,
      optional_float data "confidence" 1 (λ confidence0,
      optional_int data "usage_count" 0 (λ usage_count0,
      optional_float data "success_rate" 1 (λ success_rate0,
      optional_string data "mod_specific" (λ mod_specific0,
        FromDict
          (post_init
             {| name := name0; pattern := pattern0; replacement := replacement0;
                description := description0; stage := stage0;
                confidence := confidence0; usage_count := usage_count0;
                success_rate := success_rate0; created_at := created;
                mod_specific := mod_specific0 |}))))))))))
  end.
End FromDict.

(** ** The review gate (dynamic_rules_manager.py) *)

Module Review.
Import DynamicRulesManager Learner.

(** An entry of [rules_for_review] as [export_rules_for_review] writes it:
    [{**rule.to_dict(), "approved": None, "review_notes": ""}]. *)
Definition exported_entry (rule : Rule) : json :=
  JObject (Py.dict_set "review_notes" (JString "")
             (Py.dict_set "approved" JNull (to_dict rule))).

(** [export_rules_for_review]: the data handed to [json.dump].  The stages
    are listed in the order of the map. *)
Definition export_rules_for_review {RT : Runtime} (st : t) : json :=
  JObject
    [ ("metadata",
       JObject
         [ ("exported_at", JString now_isoformat);
           ("total_rules",
            JInt (Z.of_nat (sum_list (length <$> (map_to_list (learned_rules st)).*2))));
           ("review_instructions",
            JString "Révisez chaque règle et marquez approved=true/false") ]);
      ("rules_for_review",
       JArray ('(_, rules) ← map_to_list (learned_rules st); exported_entry <$> rules)) ].

(** The search loop for an existing rule of the same name, followed by the
    four assignments when one is found. *)
Fixpoint update_first (rule : Rule) (stage_rules : list Rule) : option (list Rule) :=
  match stage_rules with
  | [] => None
  | existing :: rest =>
      if String.eqb (name existing) (name rule)
      then Some (overwrite_reviewed rule existing :: rest)
      else (existing ::.) <$> update_first rule rest
  end.

(** What one iteration of the loop of [import_reviewed_rules] comes to: the
    manager with the two counters, an exception (which the [except] clause
    of the function catches), or a state of the manager that the embedding
    does not cover (a value of the entry has not the type of its field and
    would be stored as it is). *)
Inductive step : Type :=
| Continue (acc : t * nat * nat)
| Abort
| Outside.

Section ImportLoop.
Context {FL : FloatLib} {DT : DateTimeLib} {RT : Runtime}.

(** One iteration.  [rule_data.get] raises [AttributeError] on an entry that
    is no object; [Rule.from_dict] and the subscripts [rule_data["name"]]
    and [rule_data["stage"]] raise [KeyError] on a missing key; a stage that
    is a list or an object cannot be a key of [learned_rules]. *)
Definition import_entry (acc : t * nat * nat) (rule_data : json) : step :=
  let '(st, approved_count, rejected_count) := acc in
  match rule_data with
  | JObject d =>
      match Py.dict_get "approved" d with
      | Some (JBool true) =>
          match from_dict d with
          | FromDict rule =>
              let stage_rules := rules_at (learned_rules st) (stage rule) in
              let stage_rules' :=
                match update_first rule stage_rules with
                | Some updated => updated
                | None => stage_rules ++ [rule]
                end in
              Continue
                (set_learned_rules (<[stage rule := stage_rules']> (learned_rules st)) st,
                 S approved_count, rejected_count)
          | KeyError _ | TypeError => Abort
          | Unsupported => Outside
          end
      | Some (JBool false) =>
          match Py.dict_get "name" d, Py.dict_get "stage" d with
          | None, _ | Some _, None => Abort
          | Some _, Some (JArray _) | Some _, Some (JObject _) => Abort
          | Some (JString rule_name), Some (JString stage) =>
              Continue
                (set_learned_rules
                   (<[stage := filter (λ r, name r ≠ rule_name)
                                 (rules_at (learned_rules st) stage)]>
                      (learned_rules st)) st,
                 approved_count, S rejected_count)
          | Some _, Some _ => Outside
          end
      | _ => Continue acc
      end
  | _ => Abort
  end.

(** The loop: [None] when it is left with an exception, with the manager as
    it is by then. *)
Fixpoint import_loop (rules_for_review : list json) (acc : t * nat * nat)
    : option (option (t * nat * nat) * t) :=
  match rules_for_review with
  | [] => Some (Some acc, acc.1.1)
  | rule_data :: rest =>
      match import_entry acc rule_data with
      | Continue acc' => import_loop rest acc'
      | Abort => Some (None, acc.1.1)
      | Outside => None
      end
  end.

(** [import_reviewed_rules].  [reviewed] is the value that [json.load]
    returns, [None] for a review file that cannot be read or parsed.  The
    result is the returned count and the manager afterwards ([None] where
    the embedding does not cover the entries).  Every exception is caught
    and gives 0: a file that is no object, a list of entries that cannot be
    iterated or whose elements are no objects, an entry that raises in the
    loop; nothing is saved then. *)
Definition import_reviewed_rules (st : t) (reviewed : option json) : option (nat * t) :=
  match reviewed with
  | Some (JObject data) =>
      match Py.dict_get "rules_for_review" data with
      | None => Some (0, st)
      | Some (JArray rules_for_review) =>
          match import_loop rules_for_review (st, 0, 0) with
          | Some (Some (st', approved_count, rejected_count), _) =>
              if (0 <? approved_count)%nat || (0 <? rejected_count)%nat
              then Some (approved_count, (save_learned_rules st').1)
              else Some (approved_count, st')
          | Some (None, st') => Some (0, st')
          | None => None
          end
      | Some _ => Some (0, st)
      end
  | _ => Some (0, st)
  end.
End ImportLoop.

End Review.

(** ** RuleEngine and the interface IRuleEngine (bg3_translator_core.py) *)

(** [apply_rules] returns a string or leaves with an exception; the engine
    may have changed in both cases. *)
Class IRuleEngine (E : Type) := {
  apply_rules : E → string → string → outcome string * E;
}.

Module RuleEngine.

Record t : Type := mk {
  _rules : gmap string (list (string * string));
}.

(** [RuleEngine.__init__] *)
Definition init : t :=
  {| _rules := {[ "pre_translation" := []; "post_translation" := [];
                  "final_cleanup" := [] ]} |}.

Section Apply.
Context {RE : RegexLib}.

(** The loop of [apply_rules]: a [re.error] is logged and the rule
    skipped; any other exception leaves the function. *)
Fixpoint apply_loop (rules : list (string * string)) (result : string) : outcome string :=
  match rules with
  | [] => Ok result
  | (pattern, replacement) :: rules' =>
      match re_sub pattern replacement result with
      | Ok new => apply_loop rules' new
      | Raise ReError => apply_loop rules' result
      | Raise e => Raise e
      end
  end.

Definition apply_rules (e : t) (text : string) (stage : string) : outcome string :=
  match _rules e !! stage with
  | Some rules => if Py.truthy text then apply_loop rules text else Ok text
  | None => Ok text
  end.
End Apply.

Definition add_rule (e : t) (stage pattern replacement : string) : t :=
  {| _rules := <[stage := default [] (_rules e !! stage) ++ [(pattern, replacement)]]>
                 (_rules e) |}.

End RuleEngine.

#[export] Instance RuleEngine_engine {RE : RegexLib} : IRuleEngine RuleEngine.t :=
  {| apply_rules e text stage := (RuleEngine.apply_rules e text stage, e) |}.

(** [EnhancedBG3Translator] hands the [DynamicRulesManager] to the translator
    as its rule engine; [mod_name] keeps its default [None]. *)
#[export] Instance DynamicRulesManager_engine {RE : RegexLib} {FL : FloatLib}
    : IRuleEngine DynamicRulesManager.t :=
  {| apply_rules st text stage := DynamicRulesManager.apply_rules st text stage None |}.

(** ** TranslationCache (bg3_translator_core.py) *)

Module TranslationCache.

Record t : Type := mk {
  _cache : gmap string string;
  hits : nat;
  misses : nat;
}.

Definition empty : t := {| _cache := ∅; hits := 0; misses := 0 |}.

Definition get (c : t) (key : string) : option string * t :=
  match _cache c !! key with
  | Some v => (Some v, {| _cache := _cache c; hits := S (hits c); misses := misses c |})
  | None => (None, {| _cache := _cache c; hits := hits c; misses := S (misses c) |})
  end.

Definition set (c : t) (key value : string) : t :=
  {| _cache := <[key := value]> (_cache c); hits := hits c; misses := misses c |}.

Definition clear (c : t) : t := empty.

End TranslationCache.

(** ** GlossaryManager (glossary_manager.py) *)

Module GlossaryManager.

(** The objects that can be passed as [glossary_manager].

    The body of [class GlossaryManager] in glossary_manager.py holds its
    docstring only: the [def learn_from_llm_improvement] that follows
    starts in the first column, which ends the class, and [__init__],
    [get_glossary], [add_terms] and the others are indented under that
    function, after its [return].  An instance of the class therefore has
    no [get_glossary] attribute ([PlainInstance]).  [WithGetGlossary] is an
    object that does expose [get_glossary] as it is written there, over
    its [_glossary] dict. *)
Inductive t : Type :=
| PlainInstance
| WithGetGlossary (_glossary : list (string * string)).

(** [hasattr(glossary_manager, 'get_glossary')] *)
Definition hasattr_get_glossary (g : t) : bool :=
  match g with
  | PlainInstance => false
  | WithGetGlossary _ => true
  end.

(** [dict(sorted(self._glossary.items(), key=lambda x: -len(x[0])))] *)
Definition get_glossary (_glossary : list (string * string)) : list (string * string) :=
  Py.sort_desc (λ a b, (Py.len a.1 <? Py.len b.1)%nat) _glossary.

(** The call [glossary_manager.get_glossary()]. *)
Definition call_get_glossary (g : t) : outcome (list (string * string)) :=
  match g with
  | PlainInstance => Raise AttributeError
  | WithGetGlossary _glossary => Ok (get_glossary _glossary)
  end.

(** [self._glossary.update(terms)] *)
Definition add_terms (_glossary terms : list (string * string)) : list (string * string) :=
  fold_left (λ g '(k, v), Py.dict_set k v g) terms _glossary.

End GlossaryManager.

(** ** DeepLTranslator (bg3_translator_core.py) *)

Record TranslationConfig : Type := mkTranslationConfig {
  source_lang : string;
  target_lang : string;
  use_llm_optimization : bool;
  emit_loca_files : bool;
  clear_cache : bool;
  parallel_translation : bool;
  max_workers : nat;
}.

Definition default_translation_config : TranslationConfig :=
  {| source_lang := "EN"; target_lang := "FR"; use_llm_optimization := false;
     emit_loca_files := false; clear_cache := false; parallel_translation := true;
     max_workers := 4 |}.

Module DeepLTranslator.

Record t (E : Type) : Type := mk {
  config : TranslationConfig;
  rule_engine : E;
  glossary_manager : option GlossaryManager.t;
  cache : TranslationCache.t;
}.

Arguments mk {E} _ _ _ _.
Arguments config {E} _.
Arguments rule_engine {E} _.
Arguments glossary_manager {E} _.
Arguments cache {E} _.

Definition set_cache {E} (c : TranslationCache.t) (tr : t E) : t E :=
  {| config := config tr; rule_engine := rule_engine tr;
     glossary_manager := glossary_manager tr; cache := c |}.

Definition set_rule_engine {E} (e : E) (tr : t E) : t E :=
  {| config := config tr; rule_engine := e;
     glossary_manager := glossary_manager tr; cache := cache tr |}.

Section Process.
Context {RE : RegexLib} {SV : Services} {E : Type} {ENG : IRuleEngine E}.

(** The loop of [_apply_glossary]; an exception of [re.sub] is not caught
    here. *)
Fixpoint glossary_loop (glossary : list (string * string)) (result : string)
    : outcome string :=
  match glossary with
  | [] => Ok result
  | (term, translation) :: glossary' =>
      new ← re_sub ("\b" +:+ re_escape term +:+ "\b") translation result;
      glossary_loop glossary' new
  end.

Definition _apply_glossary (g : GlossaryManager.t) (text : string) : outcome string :=
  if negb (GlossaryManager.hasattr_get_glossary g) then Ok text
  else
    glossary ← GlossaryManager.call_get_glossary g;
    glossary_loop glossary text.

Definition _optimize_with_llm (source translation api_key : string) : string :=
  match openrouter_completion source translation api_key with
  | Some content => Py.strip content
  | None => translation
  end.

(** [context and context.get("openrouter_key")] when truthy. *)
Definition openrouter_key (context : option (gmap string string)) : option string :=
  match context with
  | Some d =>
      match d !! "openrouter_key" with
      | Some k => if Py.truthy k then Some k else None
      | None => None
      end
  | None => None
  end.

(** [process_text].  The result is the returned string, the translator
    afterwards, and the exception that the [except] clause caught and
    logged, if any. *)
Definition process_text (tr : t E) (text : string)
    (context : option (gmap string string)) : string * t E * option exn :=
  if negb (Py.truthy text) || negb (Py.truthy (Py.strip text)) then (text, tr, None)
  else
    let cleaned :=
      TextProcessor.normalize_whitespace (TextProcessor.clean_encoding text) in
    let cache_key :=
      cleaned +:+ "_" +:+ Py.str_of_bool (use_llm_optimization (config tr)) in
    let '(cached_result, cache1) := TranslationCache.get (cache tr) cache_key in
    let tr1 := set_cache cache1 tr in
    let hit :=
      match cached_result with
      | Some cached => if Py.truthy cached then Some cached else None
      | None => None
      end in
    match hit with
    | Some cached => (cached, tr1, None)
    | None =>
        let '(protected, protections) :=
          TextProcessor.protect_expressions cleaned [TextProcessor.DICE_PATTERN] in
        let '(pre, engine1) :=
          apply_rules (rule_engine tr1) protected "pre_translation" in
        let tr2 := set_rule_engine engine1 tr1 in
        let glossed :=
          preprocessed ← pre;
          match glossary_manager tr2 with
          | Some g => _apply_glossary g preprocessed
          | None => Ok preprocessed
          end in
        match glossed with
        | Raise e => (text, tr2, Some e)
        | Ok preprocessed =>
            match translate_text preprocessed (source_lang (config tr2))
                    (target_lang (config tr2)) with
            | None => (text, tr2, Some TranslationError)
            | Some translated =>
                let '(post, engine2) :=
                  apply_rules (rule_engine tr2) translated "post_translation" in
                match post with
                | Raise e => (text, set_rule_engine engine2 tr2, Some e)
                | Ok translated =>
                    let translated :=
                      match openrouter_key context with
                      | Some key =>
                          if use_llm_optimization (config tr2)
                          then _optimize_with_llm cleaned translated key
                          else translated
                      | None => translated
                      end in
                    let '(fin, engine3) :=
                      apply_rules engine2 translated "final_cleanup" in
                    let tr3 := set_rule_engine engine3 tr2 in
                    match fin with
                    | Raise e => (text, tr3, Some e)
                    | Ok final_result =>
                        let final_result :=
                          TextProcessor.restore_expressions final_result protections in
                        (final_result,
                         set_cache (TranslationCache.set (cache tr3) cache_key final_result)
                           tr3,
                         None)
                    end
                end
            end
        end
    end.
End Process.

End DeepLTranslator.

(** ** Vocabulary of the statements *)

(** [c in s] for a character. *)
Fixpoint has_char (c : ascii) (s : string) : bool :=
  match s with
  | "" => false
  | String a s' => Ascii.eqb a c || has_char c s'
  end.

(** [m in s] for a string. *)
Fixpoint contains (s m : string) : bool :=
  String.prefix m s ||
  match s with
  | "" => false
  | String _ s' => contains s' m
  end.

Fixpoint last_is (c : ascii) (s : string) : bool :=
  match s with
  | "" => false
  | String a "" => Ascii.eqb a c
  | String _ s' => last_is c s'
  end.

Fixpoint string_forallb (p : ascii → bool) (s : string) : bool :=
  match s with
  | "" => true
  | String a s' => p a && string_forallb p s'
  end.

(** A matched string that cannot be confused with a piece of a placeholder:
    it is not empty, has no underscore, is no part of the word PROTECTED and
    is not a plain number.  Every match of the dice pattern is of this
    kind. *)
Definition apart_from_placeholders (m : string) : Prop :=
  m ≠ "" ∧ has_char "_" m = false ∧ contains "PROTECTED" m = false
  ∧ string_forallb MiniRe.is_digit m = false.

(** The state of the protection loops when every match is the same string
    [m]: either nothing was matched yet, or the text is masked with the
    first placeholder and each entry maps a placeholder to [m]. *)
Definition masked_with (text m : string) (acc : string * list (string * string)) : Prop :=
  acc = (text, []) ∨
  ∃ i0 j0 rest,
    acc = (Py.replace text m (TextProcessor.placeholder i0 j0),
           (TextProcessor.placeholder i0 j0, m) :: rest)
    ∧ Forall (λ e, (∃ i j, e.1 = TextProcessor.placeholder i j) ∧ e.2 = m) rest.

(** A masked text read as a sequence of tokens: a character of the original
    text, or the placeholder [(i, j)] standing for the matched string [m]. *)
Inductive token :=
  | Chr (c : ascii)
  | Ph (i j : nat) (m : string).

Fixpoint chars (s : string) : list token :=
  match s with
  | "" => []
  | String c s' => Chr c :: chars s'
  end.

(** The text as it is masked, and the text that the tokens stand for. *)
Definition render_token (t : token) : string :=
  match t with
  | Chr c => String c ""
  | Ph i j _ => TextProcessor.placeholder i j
  end.

Definition decode_token (t : token) : string :=
  match t with
  | Chr c => String c ""
  | Ph _ _ m => m
  end.

Definition render (toks : list token) : string :=
  foldr (λ t s, render_token t +:+ s) "" toks.

Definition decode (toks : list token) : string :=
  foldr (λ t s, decode_token t +:+ s) "" toks.

Definition token_ok (t : token) : Prop :=
  match t with
  | Chr c => c ≠ "_"%char
  | Ph _ _ m => has_char "_" m = false
  end.

(** The tokens after the placeholder [(i, j)] was replaced by what it
    stands for. *)
Fixpoint expand (i j : nat) (toks : list token) : list token :=
  match toks with
  | [] => []
  | Chr c :: toks' => Chr c :: expand i j toks'
  | Ph i' j' m :: toks' =>
      if decide (i' = i ∧ j' = j) then chars m ++ expand i j toks'
      else Ph i' j' m :: expand i j toks'
  end.

(** The placeholder [(i', j')] was made before the loops reached [(i, j)]. *)
Definition older (i j i' j' : nat) : Prop := i' < i ∨ (i' = i ∧ j' < j).

(** The state of the protection loops at [(i, j)] for an underscore-free
    [text]: the masked text is a token sequence that stands for [text], each
    of its placeholders is recorded with the string it stands for, and the
    recorded keys are distinct placeholders made before [(i, j)]. *)
Definition protected (text : string) (i j : nat) (acc : string * list (string * string)) : Prop :=
  ∃ toks,
    acc.1 = render toks
    ∧ decode toks = text
    ∧ Forall token_ok toks
    ∧ (∀ i' j' m, Ph i' j' m ∈ toks → (TextProcessor.placeholder i' j', m) ∈ acc.2)
    ∧ NoDup acc.2.*1
    ∧ (∀ k v, (k, v) ∈ acc.2 → ∃ i' j', k = TextProcessor.placeholder i' j' ∧ older i j i' j').

(** [before lt a b]: in a list sorted by descending key, [a] may stand
    before [b]: its key is not below the key of [b]. *)
Definition before {A} (lt : A → A → bool) (a b : A) : Prop := lt a b = false.

(** ** Concrete values for the examples *)

Module Examples.

(** A translation service that is down, and one that answers with its
    input. *)
Definition services_down : Services :=
  {| translate_text := λ _ _ _, None; openrouter_completion := λ _ _ _, None |}.

Definition services_echo : Services :=
  {| translate_text := λ s _ _, Some s; openrouter_completion := λ _ _ _, None |}.

(** A coarse stand-in for [difflib]: equal texts give one [equal] block,
    different texts one [replace] block. *)
Definition whole_text_diff : DiffLib :=
  {| get_opcodes := λ a b,
       if String.eqb a b
       then (if String.eqb a "" then []
             else [mkOpcode op_equal 0 (Py.len a) 0 (Py.len b)])
       else [mkOpcode op_replace 0 (Py.len a) 0 (Py.len b)] |}.

Definition runtime : Runtime :=
  {| now_isoformat := "2025-01-01T12:00:00";
     now_strftime := "20250101_120000";
     set_elements := remove_dups |}.

Definition bolt : Rule :=
  mkRule "bolt" "\bBolt\b" "Carreau" "crossbow bolt" "pre_translation" 1 0 1 None None.

Definition loaded : Rule :=
  mkRule "loaded" "loaded" "chargé" "loaded state" "pre_translation" (1 # 2) 0 1 None None.

(** A learned rule whose pattern does not compile (unclosed group). *)
Definition broken : Rule :=
  mkRule "broken" "(" "x" "ill-formed" "pre_translation" 1 0 1 None None.

Definition manager : DynamicRulesManager.t :=
  DynamicRulesManager.mk
    {[ "pre_translation" := [loaded; bolt] ]}
    {[ "pre_translation" := [broken] ]}
    ∅ [] default_learning_config.



Definition translator : DeepLTranslator.t DynamicRulesManager.t :=
  DeepLTranslator.mk default_translation_config manager None TranslationCache.empty.

Definition armor_glossary : list (string * string) :=
  [("Armor", "Armure"); ("Heavy Armor", "Armure lourde")].

(** The translator as translate_mod.py builds it: [GlossaryManager()] is
    passed as [glossary_manager]; no rule is loaded. *)
Definition translator_with_glossary : DeepLTranslator.t RuleEngine.t :=
  DeepLTranslator.mk default_translation_config RuleEngine.init
    (Some GlossaryManager.PlainInstance) TranslationCache.empty.

(** A manager without rules and without pending candidates. *)
Definition fresh_manager : DynamicRulesManager.t :=
  DynamicRulesManager.mk ∅ ∅ ∅ [] default_learning_config.

(** Three learned rules in a stage capped at two. *)
Definition scored (rule_name : string) (conf : Q) (uses : Z) : Rule :=
  mkRule rule_name "x" "y" "" "post_translation" conf uses 1 None None.

Definition crowded_manager : DynamicRulesManager.t :=
  DynamicRulesManager.mk ∅
    {[ "post_translation" := [scored "low" (1 # 2) 0; scored "high" float_0_9 3;
                              scored "mid" float_0_9 0] ]}
    ∅ [] (mkConfig true true float_0_8 2 3 float_0_9).

(** Two learned rules and their review: the first approved with another
    replacement, the second rejected. *)
Definition reviewed_manager : DynamicRulesManager.t :=
  DynamicRulesManager.mk ∅
    {[ "post_translation" := [scored "first" float_0_9 4; scored "second" float_0_9 0] ]}
    ∅ [] default_learning_config.

(** The same two rules in a stage capped at one rule. *)
Definition reviewed_manager_capped : DynamicRulesManager.t :=
  DynamicRulesManager.mk ∅
    {[ "post_translation" := [scored "first" float_0_9 4; scored "second" float_0_9 0] ]}
    ∅ [] (mkConfig true true float_0_8 1 3 float_0_9).

(** An entry of a review file: the rule as [to_dict] writes it, with the
    value of [approved] and the notes of the review. *)
Definition reviewed_entry (rule : Rule) (approved : json) (notes : string) : json :=
  JObject (Py.dict_set "review_notes" (JString notes)
             (Py.dict_set "approved" approved (to_dict rule))).

Definition review_entries : list json :=
  [ reviewed_entry
      (mkRule "first" "x" "better" "" "post_translation" float_0_9 0 1 None None)
      (JBool true) "ok";
    reviewed_entry (scored "second" float_0_9 0) (JBool false) "no" ].

Definition review_file : json :=
  JObject [ ("rules_for_review", JArray review_entries) ].

(** A review file whose second entry is approved but has lost its
    pattern. *)
Definition review_file_without_pattern : json :=
  JObject
    [ ("rules_for_review",
       JArray
         [ reviewed_entry
             (mkRule "first" "x" "better" "" "post_translation" float_0_9 0 1 None None)
             (JBool true) "ok";
           JObject [ ("name", JString "second"); ("replacement", JString "y");
                     ("description", JString ""); ("stage", JString "post_translation");
                     ("approved", JBool true) ] ]) ].

(** A date library that reads the texts that [isoformat] writes for a time
    without microseconds, [YYYY-MM-DDTHH:MM:SS], and no other text. *)
Definition is_iso_seconds (s : string) : bool :=
  match s with
  | String y1 (String y2 (String y3 (String y4 (String "-" (String m1 (String m2
      (String "-" (String d1 (String d2 (String "T" (String h1 (String h2
      (String ":" (String n1 (String n2 (String ":" (String s1 (String s2
      "")))))))))))))))))) =>
      forallb MiniRe.is_digit [y1; y2; y3; y4; m1; m2; d1; d2; h1; h2; n1; n2; s1; s2]
  | _ => false
  end.

Definition iso_seconds : DateTimeLib :=
  {| fromisoformat := λ s, if is_iso_seconds s then Some s else None |}.

(** The rule chaining of the specification: a pre-stage rule and a
    post-stage rule added at run time. *)
Definition chained_engine : RuleEngine.t :=
  RuleEngine.add_rule
    (RuleEngine.add_rule RuleEngine.init "pre_translation" "Bolt Loaded" "X")
    "post_translation" "X" "Carreau chargé".

Definition chained_translator : DeepLTranslator.t RuleEngine.t :=
  DeepLTranslator.mk default_translation_config chained_engine None TranslationCache.empty.

End Examples.

(** ** The review gate in the words of the specification *)

Module ReviewSpec.
Import DynamicRulesManager.

(** [rules'] is [rules] with the first rule named like [rule] updated on
    the fields pattern, replacement, description and confidence, and on
    no other field. *)
Definition updated_in_place (rule : Rule) (rules rules' : list Rule) : Prop :=
  ∃ l1 old new l2,
    rules = l1 ++ old :: l2 ∧ rules' = l1 ++ new :: l2
    ∧ Forall (λ r, name r ≠ name rule) l1 ∧ name old = name rule
    ∧ pattern new = pattern rule ∧ replacement new = replacement rule
    ∧ description new = description rule ∧ confidence new = confidence rule
    ∧ name new = name old ∧ stage new = stage old
    ∧ usage_count new = usage_count old ∧ success_rate new = success_rate old
    ∧ created_at new = created_at old ∧ mod_specific new = mod_specific old.

(** No rule of [rules] is named like [rule], and [rules'] has [rule]
    appended. *)
Definition appended (rule : Rule) (rules rules' : list Rule) : Prop :=
  Forall (λ r, name r ≠ name rule) rules ∧ rules' = rules ++ [rule].

(** [rules'] is [rules] without the rules named [rule_name], the others
    in their order. *)
Definition rejected (rule_name : string) (rules rules' : list Rule) : Prop :=
  rules' = filter (λ r, name r ≠ rule_name) rules
  ∧ Forall (λ r, name r ≠ rule_name) rules'.

(** Only the learned rules of [stage] may differ between [st] and [st']. *)
Definition only_stage_changed (stage : string) (st st' : t) : Prop :=
  base_rules st' = base_rules st
  ∧ mod_specific_rules st' = mod_specific_rules st
  ∧ learning_candidates st' = learning_candidates st
  ∧ learning_config st' = learning_config st
  ∧ ∀ s, s ≠ stage → rules_at (learned_rules st') s = rules_at (learned_rules st) s.

(** What a well-formed entry of the review file says: the rule that it
    holds is approved, a rule of a stage is rejected by its name, or the
    entry is still pending. *)
Inductive verdict : Type :=
| Approved (rule : Rule)
| Rejected (rule_name stage : string)
| Pending.

Definition is_approved (v : verdict) : bool :=
  match v with Approved _ => true | _ => false end.

Definition is_rejected (v : verdict) : bool :=
  match v with Rejected _ _ => true | _ => false end.

Section Entries.
Context {DT : DateTimeLib} {RT : Runtime}.

(** The entry is an object that says [v]: [approved] is [true] and the
    entry holds a rule, as [Rule.from_dict] reads it; [approved] is [false]
    and the entry has a name and a stage; or [approved] is neither. *)
Definition reads_as (e : json) (v : verdict) : Prop :=
  ∃ d, e = JObject d ∧
    match v with
    | Approved rule =>
        Py.dict_get "approved" d = Some (JBool true) ∧ from_dict d = FromDict rule
    | Rejected rule_name stage =>
        Py.dict_get "approved" d = Some (JBool false)
        ∧ Py.dict_get "name" d = Some (JString rule_name)
        ∧ Py.dict_get "stage" d = Some (JString stage)
    | Pending =>
        Py.dict_get "approved" d ≠ Some (JBool true)
        ∧ Py.dict_get "approved" d ≠ Some (JBool false)
    end.

(** The entry makes the loop raise: it is no object; it is approved and
    [Rule.from_dict] raises on it; or it is rejected and has no name or no
    stage, or a stage that cannot be the key of a dict. *)
Definition raises (e : json) : Prop :=
  match e with
  | JObject d =>
      (Py.dict_get "approved" d = Some (JBool true)
       ∧ ((∃ k, from_dict d = KeyError k) ∨ from_dict d = TypeError))
      ∨ (Py.dict_get "approved" d = Some (JBool false)
         ∧ (Py.dict_get "name" d = None
            ∨ Py.dict_get "stage" d = None
            ∨ (is_Some (Py.dict_get "name" d)
               ∧ ∃ x, Py.dict_get "stage" d = Some x
                      ∧ match x with JArray _ | JObject _ => True | _ => False end)))
  | _ => True
  end.
End Entries.

(** The effect of one reviewed entry. *)
Definition entry_effect (v : verdict) (st st' : t) : Prop :=
  match v with
  | Approved rule =>
      only_stage_changed (stage rule) st st'
      ∧ (updated_in_place rule (rules_at (learned_rules st) (stage rule))
                               (rules_at (learned_rules st') (stage rule))
         ∨ appended rule (rules_at (learned_rules st) (stage rule))
                         (rules_at (learned_rules st') (stage rule)))
  | Rejected rule_name stage =>
      only_stage_changed stage st st'
      ∧ rejected rule_name (rules_at (learned_rules st) stage)
                           (rules_at (learned_rules st') stage)
  | Pending => st' = st
  end.

(** The entries are processed in order, each with its effect. *)
Inductive processed : list verdict → t → t → Prop :=
| processed_nil st : processed [] st st
| processed_cons v vs st st1 st' :
    entry_effect v st st1 → processed vs st1 st' → processed (v :: vs) st st'.

End ReviewSpec.

(** ** The effects of a rule application *)

(** What one rule of the effective list does to the text: its substitution
    changes the text or leaves it as it is, raises [re.error] ([Failed]), or
    raises another exception, which ends the application ([Aborted]); the
    rules after that one are not reached. *)
Inductive effect : Type := Changed | Unchanged | Failed | Aborted | NotReached.

Section Effects.
Context {RE : RegexLib}.

Definition rule_effect (rule : Rule) (text : string) : effect * outcome string :=
  match re_sub (pattern rule) (replacement rule) text with
  | Ok new => (if String.eqb text new then Unchanged else Changed, Ok new)
  | Raise ReError => (Failed, Ok text)
  | Raise e => (Aborted, Raise e)
  end.

(** The effects of the rules of a list applied in turn, each to the text
    that the rules before it produced, and the text or the exception in the
    end. *)
Fixpoint effects (rules : list (slot * Rule)) (text : outcome string)
    : list effect * outcome string :=
  match rules with
  | [] => ([], text)
  | (_, rule) :: rules' =>
      let '(e, text1) :=
        match text with
        | Ok t => rule_effect rule t
        | Raise x => (NotReached, Raise x)
        end in
      let '(es, text2) := effects rules' text1 in
      (e :: es, text2)
  end.
End Effects.

Definition apply_effect {FL : FloatLib} (e : effect) (r : Rule) : Rule :=
  match e with
  | Changed => bump_usage r
  | Failed => penalize r
  | Unchanged | Aborted | NotReached => r
  end.

(** The fields of a rule that rule application never assigns to. *)
Definition frame (r : Rule)
    : string * string * string * string * string * Q * option string * option string :=
  (name r, pattern r, replacement r, description r, stage r, confidence r,
   created_at r, mod_specific r).

(** ** Promotion of candidate groups in the words of the specification *)

(** The total frequency of a group and its frequency-weighted average
    confidence, as the floats compute it: the sum of the products of
    confidence and frequency, divided by the total frequency. *)
Definition claimed_total (candidates : list LearningCandidate) : Z :=
  foldr Z.add 0%Z (frequency <$> candidates).

Definition claimed_average {FL : FloatLib} (candidates : list LearningCandidate) : Q :=
  fdiv (fsum ((λ c, fmul (cand_confidence c) (float_of_int (frequency c))) <$> candidates))
       (float_of_int (claimed_total candidates)).



(** The score of the eviction in the words of the specification:
    confidence × (1 + usage_count) × success_rate, as the floats compute
    it. *)
Definition claimed_score {FL : FloatLib} (rule : Rule) : Q :=
  fmul (fmul (confidence rule) (float_of_int (1 + usage_count rule))) (success_rate rule).

Module PromotionExamples.

(** A candidate observed once with confidence 0.9 for the pattern of the
    word greve, with or without a suggested replacement. *)
Definition candidate (source : string) (suggested : option string) : LearningCandidate :=
  mkCandidate source "une grande greve" "une grande frappe" "llm" float_0_9 1
    (Some "\bgreve\b") suggested.

Definition three : DynamicRulesManager.t :=
  DynamicRulesManager.set_learning_candidates
    [candidate "a" (Some "frappe"); candidate "b" (Some "frappe");
     candidate "c" (Some "frappe")] Examples.fresh_manager.

Definition two : DynamicRulesManager.t :=
  DynamicRulesManager.set_learning_candidates
    [candidate "a" (Some "frappe"); candidate "b" (Some "frappe")] Examples.fresh_manager.


(** A candidate observed once with confidence 0.6 and one observed twice
    with confidence 0.9, for the same pattern. *)
Definition rounded : DynamicRulesManager.t :=
  DynamicRulesManager.set_learning_candidates
    [mkCandidate "a" "une grande greve" "une grande frappe" "llm"
       (Binary64.round (6 # 10)) 1 (Some "\bgreve\b") (Some "frappe");
     mkCandidate "b" "une grande greve" "une grande frappe" "llm"
       float_0_9 2 (Some "\bgreve\b") (Some "frappe")] Examples.fresh_manager.

(** Three candidates with a suggestion, and a stage that is full: two used
    rules under a maximum of two. *)
Definition three_full_stage : DynamicRulesManager.t :=
  DynamicRulesManager.mk ∅
    {[ "post_translation" := [Examples.scored "high" float_0_9 3;
                              Examples.scored "used" float_0_9 1] ]}
    ∅
    [candidate "a" (Some "frappe"); candidate "b" (Some "frappe");
     candidate "c" (Some "frappe")]
    (mkConfig true true float_0_8 2 3 float_0_9).

End PromotionExamples.

(** * Further definitions: the file handler and the metadata update *)

(** The keys of the protections are distinct placeholders made before the
    loops reached [(i, j)]. *)
Definition recorded_before (i j : nat) (d : list (string * string)) : Prop :=
  NoDup d.*1
  ∧ ∀ k, k ∈ d.*1 → ∃ i' j', k = TextProcessor.placeholder i' j' ∧ older i j i' j'.

(** A candidate carries a detected pattern exactly when it carries a
    suggested replacement, and neither is empty. *)
Definition paired (c : LearningCandidate) : Prop :=
  match detected_pattern c, suggested_replacement c with
  | Some p, Some r => p ≠ "" ∧ r ≠ ""
  | None, None => True
  | _, _ => False
  end.

(** A candidate for which no pattern was detected. *)
Definition patternless (c : LearningCandidate) : bool :=
  match detected_pattern c with
  | Some p => negb (Py.truthy p)
  | None => true
  end.

(** ** XMLFileHandler (bg3_translator_core.py) *)

(** [ProcessingResult], with the count of [data["translated_elements"]]. *)
Record ProcessingResult : Type := mkResult {
  success : bool;
  message : string;
  translated_elements : option nat;
}.

Module XMLFileHandler.

(** What [process_file] reads of the parsed file: the tag of the root, its
    [locale] attribute and the text of every element of
    [root.findall(".//content")] in document order ([None] for an element
    without text). *)
Record document : Type := mkDocument {
  root_tag : string;
  locale : option string;
  contents : list (option string);
}.

(** [root.set("locale", "fr-FR")] under its guard. *)
Definition set_locale (root : document) : document :=
  if String.eqb (root_tag root) "contentList"
     && negb (match locale root with Some l => Py.truthy l | None => false end)
  then {| root_tag := root_tag root; locale := Some "fr-FR"; contents := contents root |}
  else root.

Section Process.
Context {RE : RegexLib} {SV : Services} {E : Type} {ENG : IRuleEngine E}.

(** The loop over the content elements; [process_text] is called without a
    context. *)
Fixpoint translate_contents (processor : DeepLTranslator.t E) (translated_count : nat)
    (elems : list (option string))
    : list (option string) * nat * DeepLTranslator.t E :=
  match elems with
  | [] => ([], translated_count, processor)
  | elem_text :: elems' =>
      match elem_text with
      | Some text =>
          if Py.truthy text && Py.truthy (Py.strip text)
          then
            let '(translated_text, processor1, _) :=
              DeepLTranslator.process_text processor text None in
            let '(rest, n, processor2) :=
              translate_contents processor1 (S translated_count) elems' in
            (Some translated_text :: rest, n, processor2)
          else
            let '(rest, n, processor2) :=
              translate_contents processor translated_count elems' in
            (elem_text :: rest, n, processor2)
      | None =>
          let '(rest, n, processor2) :=
            translate_contents processor translated_count elems' in
          (elem_text :: rest, n, processor2)
      end
  end.

(** [process_file].  [parsed] is the parsed file, or the text of the
    exception that reading or parsing raised; [write_error] is the text of
    the exception that writing raises, if any.  The result comes with the
    document written to the file, if one was written, and the processor
    afterwards. *)
Definition process_file (file_path : string) (parsed : document + string)
    (write_error : option string) (processor : DeepLTranslator.t E)
    : ProcessingResult * option document * DeepLTranslator.t E :=
  match parsed with
  | inr e =>
      ({| success := false;
          message := "Erreur lors du traitement de " +:+ file_path +:+ ": " +:+ e;
          translated_elements := None |}, None, processor)
  | inl root =>
      let root := set_locale root in
      let '(elems, translated_count, processor') :=
        translate_contents processor 0 (contents root) in
      if (translated_count =? 0)%nat
      then ({| success := false;
               message := "Aucun contenu traduisible trouvé dans " +:+ file_path;
               translated_elements := None |}, None, processor')
      else
        match write_error with
        | Some e =>
            ({| success := false;
                message := "Erreur lors du traitement de " +:+ file_path +:+ ": " +:+ e;
                translated_elements := None |}, None, processor')
        | None =>
            ({| success := true;
                message := "Traduction réussie: " +:+ pretty translated_count
                           +:+ " éléments traduits";
                translated_elements := Some translated_count |},
             Some {| root_tag := root_tag root; locale := locale root; contents := elems |},
             processor')
        end
  end.
End Process.

End XMLFileHandler.

(** An element with a text to translate, [elem.text and elem.text.strip()]:
    its text holds a character that is not white space (the white space of
    [str.strip], of which the no-break space is part). *)
Definition translatable (elem_text : option string) : bool :=
  match elem_text with
  | Some text => Py.truthy text && Py.truthy (Py.strip text)
  | None => false
  end.

(** ** The metadata of a mod (bg3_translator_core.py) *)

(** [ModMetadata], with the string fields that the dataclass declares. *)
Record ModMetadata : Type := mkMetadata {
  md_name : string;
  md_author : string;
  md_uuid : string;
  md_description : string;
}.

Module BG3ModTranslator.

(** [_update_info_json].  [data] is the object read from info.json, [None]
    when the file cannot be read or parsed or holds no object; [uuid1] and
    [uuid2] are the two values of [str(uuid.uuid4())].  The result is the
    object handed to [json.dump], [None] when the function writes nothing. *)
Definition _update_info_json (data : option (list (string * json)))
    (author suffix : string) (original_metadata : ModMetadata) (uuid1 uuid2 : string)
    : option (list (string * json)) :=
  match data with
  | None => None
  | Some data =>
      let data :=
        Py.dict_set "Name"
          (JString (Py.replace (md_name original_metadata) " " "" +:+ suffix)) data in
      let data :=
        Py.dict_set "Folder"
          (JString (Py.replace (md_name original_metadata) " " "" +:+ suffix)) data in
      let data := Py.dict_set "Author" (JString author) data in
      let data :=
        Py.dict_set "Description"
          (JString ("Traduction française du mod « " +:+ md_name original_metadata
                    +:+ " » de " +:+ md_author original_metadata +:+ ".")) data in
      let data := Py.dict_set "UUID" (JString uuid1) data in
      let data := Py.dict_set "Group" (JString uuid2) data in
      Some data
  end.

End BG3ModTranslator.

(** ** Characters and white space

    The lists of characters that [Py.characters] yields: every element is
    a byte followed by continuation bytes only, and every element but the
    first starts with a byte that is no continuation byte. *)
Fixpoint all_continuation (s : string) : bool :=
  match s with
  | "" => true
  | String c s' => Py.is_continuation c && all_continuation s'
  end.

Definition is_character (ch : string) : Prop :=
  match ch with
  | "" => False
  | String _ t => all_continuation t = true
  end.

Definition proper_character (ch : string) : Prop :=
  is_character ch ∧ Py.starts_with_continuation ch = false.

Definition well_formed (l : list string) : Prop :=
  match l with
  | [] => True
  | ch :: l' => is_character ch ∧ Forall proper_character l'
  end.

(** The normal form of [normalize_whitespace], read on the characters of a
    text: every white-space character is a space that follows no white
    space; [prev_space] tells whether white space stands before [l]. *)
Fixpoint single_spaced (prev_space : bool) (l : list string) : bool :=
  match l with
  | [] => true
  | ch :: l' =>
      if Py.isspace ch
      then negb prev_space && String.eqb ch " " && single_spaced true l'
      else single_spaced false l'
  end.
(** * Properties *)

(** ** Strings *)

Lemma string_app_cons a s t : String a s +:+ t = String a (s +:+ t).
Proof. reflexivity. Qed.

Lemma string_app_nil_l t : "" +:+ t = t.
Proof. reflexivity. Qed.

Lemma string_length_app s t : String.length (s +:+ t) = String.length s + String.length t.
Proof. induction s as [|a s IH]; [done|]. rewrite string_app_cons. simpl. by rewrite IH. Qed.

Lemma string_prefix_nil s : String.prefix "" s = true.
Proof. by destruct s. Qed.

Lemma string_prefix_cons a m b s :
  String.prefix (String a m) (String b s) = bool_decide (a = b) && String.prefix m s.
Proof. simpl. destruct (ascii_dec a b); by case_bool_decide. Qed.

Lemma string_prefix_app m t : String.prefix m (m +:+ t) = true.
Proof.
  induction m as [|a m IH]; [apply string_prefix_nil|].
  rewrite string_app_cons, string_prefix_cons, IH. by rewrite bool_decide_eq_true_2.
Qed.

Lemma string_prefix_split m s : String.prefix m s = true → ∃ t, s = m +:+ t.
Proof.
  revert s. induction m as [|a m IH]; intros s Hp; [by exists s|].
  destruct s as [|b s]; [done|].
  rewrite string_prefix_cons in Hp. apply andb_true_iff in Hp as [Hab Hp].
  apply bool_decide_eq_true in Hab as ->.
  destruct (IH _ Hp) as [t ->]. by exists t.
Qed.

(** A prefix of a concatenation lies within the first part or covers it. *)
Lemma string_prefix_app_cases m q r :
  String.prefix m (q +:+ r) = true →
  String.prefix m q = true ∨ ∃ m2, m = q +:+ m2 ∧ String.prefix m2 r = true.
Proof.
  revert m. induction q as [|a q IH]; intros m Hp.
  - right. by exists m.
  - destruct m as [|b m]; [by left|].
    rewrite string_app_cons, string_prefix_cons in Hp. apply andb_true_iff in Hp as [Hab Hp].
    apply bool_decide_eq_true in Hab as ->.
    destruct (IH _ Hp) as [Hq|(m2 & -> & Hr)].
    + left. rewrite string_prefix_cons, Hq. by rewrite bool_decide_eq_true_2.
    + right. by exists m2.
Qed.

Lemma has_char_app c s t : has_char c (s +:+ t) = has_char c s || has_char c t.
Proof.
  induction s as [|a s IH]; [done|].
  rewrite string_app_cons. simpl. rewrite IH. by rewrite orb_assoc.
Qed.

(** * [str.replace] *)

Lemma replace_nonempty s a old new :
  Py.replace s (String a old) new = Py.replace_go (String a old) new 0 s.
Proof. reflexivity. Qed.

Lemma replace_go_skip old new m t :
  Py.replace_go old new (String.length m) (m +:+ t) = Py.replace_go old new 0 t.
Proof. induction m as [|a m IH]; [done|]. rewrite string_app_cons. simpl. apply IH. Qed.

Lemma replace_go_match a old new t :
  Py.replace_go (String a old) new 0 (String a old +:+ t)
  = new +:+ Py.replace_go (String a old) new 0 t.
Proof.
  rewrite string_app_cons. cbn [Py.replace_go].
  rewrite <-string_app_cons, string_prefix_app. f_equal.
  replace (String.length (String a old) - 1) with (String.length old) by (simpl; lia).
  apply replace_go_skip.
Qed.

Lemma replace_go_nomatch old new c s :
  String.prefix old (String c s) = false →
  Py.replace_go old new 0 (String c s) = String c (Py.replace_go old new 0 s).
Proof. intros Hp. cbn [Py.replace_go]. by rewrite Hp. Qed.

Lemma string_length_ind (P : string → Prop) :
  (∀ s, (∀ t, String.length t < String.length s → P t) → P s) → ∀ s, P s.
Proof.
  intros Hind s. remember (String.length s) as n eqn:Hn.
  revert s Hn. induction (lt_wf n) as [n _ IH]. intros s ->.
  apply Hind. intros t Ht. by eapply IH.
Qed.

(** Nothing changes when [old] does not occur. *)
Lemma replace_go_not_contained a old new t :
  contains t (String a old) = false → Py.replace_go (String a old) new 0 t = t.
Proof.
  induction t as [|b t IH]; [done|].
  cbn [contains]. intros Hc. apply orb_false_iff in Hc as [Hp Hc].
  rewrite replace_go_nomatch by done. by rewrite IH.
Qed.

(** A prefix of the output that is free of the marker's first character is a
    prefix of the input. *)
Lemma string_prefix_replace_go c p a m x t :
  has_char c x = false →
  String.prefix x (Py.replace_go (String a m) (String c p) 0 t) = true →
  String.prefix x t = true.
Proof.
  revert t. induction x as [|b x IH]; intros t Hx Hp; [apply string_prefix_nil|].
  simpl in Hx. apply orb_false_iff in Hx as [Hbc Hx]. apply Ascii.eqb_neq in Hbc.
  destruct t as [|d t]; [done|].
  destruct (String.prefix (String a m) (String d t)) eqn:Hm.
  - apply string_prefix_split in Hm as [t2 Ht]. rewrite Ht, replace_go_match in Hp.
    rewrite string_app_cons, string_prefix_cons in Hp. apply andb_true_iff in Hp as [Hp _].
    apply bool_decide_eq_true in Hp. congruence.
  - rewrite replace_go_nomatch in Hp by done. rewrite string_prefix_cons in Hp |- *.
    apply andb_true_iff in Hp as [-> Hp]. by rewrite (IH t).
Qed.


Lemma last_is_has_char c s : last_is c s = true → has_char c s = true.
Proof.
  induction s as [|a s IH]; [done|]. simpl.
  destruct s as [|b s]; [intros ->; done|].
  intros Hl. rewrite (IH Hl). apply orb_true_r.
Qed.

(** An occurrence of [m] in [p +:+ r] lies in [p], lies in [r], or runs over
    the last character of [p]. *)
Lemma contains_app c p r m :
  has_char c m = false → last_is c p = true →
  contains (p +:+ r) m = true → contains p m = true ∨ contains r m = true.
Proof.
  intros Hm. induction p as [|a p IH]; [done|]. intros Hl.
  rewrite string_app_cons. cbn [contains]. intros Hc.
  apply orb_true_iff in Hc as [Hp|Hc].
  - rewrite <-string_app_cons in Hp. apply string_prefix_app_cases in Hp as [Hp|(m2 & -> & _)].
    + left. by rewrite Hp.
    + rewrite has_char_app, (last_is_has_char _ _ Hl) in Hm. done.
  - destruct p as [|b p].
    + right. done.
    + destruct (IH Hl Hc) as [Hc'|Hc']; [left|by right].
      rewrite Hc'. apply orb_true_r.
Qed.

(** After the replacement, [m] occurs nowhere in the text. *)
Lemma replace_go_removes c p a m t :
  has_char c (String a m) = false → last_is c (String c p) = true →
  contains (String c p) (String a m) = false →
  contains (Py.replace_go (String a m) (String c p) 0 t) (String a m) = false.
Proof.
  intros Hm Hl Hp. induction t as [t IH] using string_length_ind.
  destruct t as [|b t]; [done|].
  destruct (String.prefix (String a m) (String b t)) eqn:Hpre.
  - apply string_prefix_split in Hpre as [t2 Ht]. rewrite Ht, replace_go_match.
    apply not_true_is_false. intros Hc.
    apply (contains_app c) in Hc as [Hc|Hc]; [congruence|..|done|done].
    rewrite IH in Hc; [done|]. rewrite Ht, string_length_app. simpl. lia.
  - rewrite replace_go_nomatch by done. cbn [contains].
    rewrite IH by (simpl; lia). rewrite orb_false_r.
    apply not_true_is_false. intros Hx.
    rewrite string_prefix_cons in Hx. apply andb_true_iff in Hx as [Hab Hx].
    apply bool_decide_eq_true in Hab as ->.
    simpl in Hm. apply orb_false_iff in Hm as [_ Hm].
    apply (string_prefix_replace_go c) in Hx; [|done].
    rewrite string_prefix_cons, Hx, bool_decide_eq_true_2 in Hpre; done.
Qed.

(** * Placeholders *)


Lemma string_app_nil_r s : s +:+ "" = s.
Proof. induction s as [|a s IH]; [done|]. by rewrite string_app_cons, IH. Qed.

Lemma string_app_assoc s t u : (s +:+ t) +:+ u = s +:+ t +:+ u.
Proof. induction s as [|a s IH]; [done|]. by rewrite !string_app_cons, IH. Qed.

Lemma string_prefix_refl s : String.prefix s s = true.
Proof. rewrite <-(string_app_nil_r s) at 2. apply string_prefix_app. Qed.

Lemma string_prefix_forallb p m s :
  String.prefix m s = true → string_forallb p s = true → string_forallb p m = true.
Proof.
  intros [t ->]%string_prefix_split. induction m as [|a m IH]; [done|].
  rewrite string_app_cons. simpl. intros [-> ?]%andb_true_iff. by apply IH.
Qed.

Lemma contains_forallb p s m :
  contains s m = true → string_forallb p s = true → string_forallb p m = true.
Proof.
  induction s as [|a s IH]; cbn [contains].
  - rewrite orb_false_r. apply string_prefix_forallb.
  - intros [Hp|Hc]%orb_true_iff Hs; [by eapply string_prefix_forallb|].
    simpl in Hs. apply andb_true_iff in Hs as [_ Hs]. by apply IH.
Qed.

Lemma contains_cons_r a s m : contains s m = true → contains (String a s) m = true.
Proof. intros Hc. cbn [contains]. rewrite Hc. apply orb_true_r. Qed.

(** An occurrence of [m] in [a +:+ String c b] lies in [a] or in [b] when
    [c] is not a character of [m]. *)
Lemma contains_sep c a b m :
  has_char c m = false →
  contains (a +:+ String c b) m = true → contains a m = true ∨ contains b m = true.
Proof.
  intros Hm. induction a as [|x a IH].
  - rewrite string_app_nil_l. cbn [contains]. intros [Hp|Hc]%orb_true_iff; [|by right].
    destruct m as [|y m]; [by left|].
    rewrite string_prefix_cons in Hp. apply andb_true_iff in Hp as [->%bool_decide_eq_true _].
    simpl in Hm. by rewrite Ascii.eqb_refl in Hm.
  - rewrite string_app_cons. cbn [contains]. intros [Hp|Hc]%orb_true_iff.
    + rewrite <-string_app_cons in Hp.
      apply string_prefix_app_cases in Hp as [Hp|(m2 & -> & Hp)]; [left; by rewrite Hp|].
      destruct m2 as [|y m2].
      * left. rewrite string_app_nil_r, string_prefix_refl. done.
      * rewrite string_prefix_cons in Hp.
        apply andb_true_iff in Hp as [->%bool_decide_eq_true _].
        rewrite has_char_app in Hm. simpl in Hm.
        rewrite Ascii.eqb_refl, orb_true_r in Hm. done.
    + destruct (IH Hc) as [Ha|Hb]; [left|by right]. by apply contains_cons_r.
Qed.

Lemma pretty_N_char_digit x : MiniRe.is_digit (pretty_N_char x) = true.
Proof. unfold pretty_N_char. by repeat case_match. Qed.

Lemma pretty_N_go_digits x s :
  string_forallb MiniRe.is_digit s = true →
  string_forallb MiniRe.is_digit (pretty_N_go x s) = true.
Proof.
  revert s. induction (N.lt_wf_0 x) as [x _ IH]. intros s Hs.
  destruct (decide (0 < x)%N) as [Hx|Hx].
  - rewrite pretty_N_go_step by done. apply IH.
    + by apply N.div_lt.
    + simpl. by rewrite pretty_N_char_digit.
  - assert (x = 0%N) as -> by lia. by rewrite pretty_N_go_0.
Qed.

Lemma pretty_nat_digits (n : nat) : string_forallb MiniRe.is_digit (pretty n) = true.
Proof.
  unfold pretty, pretty_nat, pretty, pretty_N. case_decide; [done|].
  by apply pretty_N_go_digits.
Qed.

Lemma placeholder_unfold i j :
  TextProcessor.placeholder i j
  = String "_" ("" +:+ String "_" ("PROTECTED" +:+ String "_"
      (pretty i +:+ String "_" (pretty j +:+ String "_" ("" +:+ String "_" ""))))).
Proof. reflexivity. Qed.

Lemma last_is_app_cons c s : last_is c (s +:+ String c "") = true.
Proof.
  induction s as [|a s IH]; [simpl; apply Ascii.eqb_refl|].
  rewrite string_app_cons. simpl. destruct (s +:+ String c "") eqn:E; [|done].
  by destruct s.
Qed.

Lemma placeholder_last i j : last_is "_" (TextProcessor.placeholder i j) = true.
Proof.
  unfold TextProcessor.placeholder.
  change "__" with ("_" +:+ String "_" ""). rewrite <-!string_app_assoc.
  apply last_is_app_cons.
Qed.

(** A dice-like match occurs in no placeholder. *)
Lemma placeholder_free i j m :
  m ≠ "" → has_char "_" m = false → contains "PROTECTED" m = false →
  string_forallb MiniRe.is_digit m = false →
  contains (TextProcessor.placeholder i j) m = false.
Proof.
  intros Hne Hus Hp Hd. apply not_true_is_false. intros Hc.
  assert (contains "" m = false) as Hempty by (by destruct m).
  assert (∀ n : nat, contains (pretty n) m = false) as Hdigits.
  { intros n. apply not_true_is_false. intros Hn.
    apply (contains_forallb MiniRe.is_digit) in Hn; [congruence|].
    apply pretty_nat_digits. }
  rewrite placeholder_unfold in Hc.
  change (String "_" ?s) with ("" +:+ String "_" s) in Hc at 1.
  do 6 (apply (contains_sep "_") in Hc as [Hc|Hc];
        [rewrite ?Hdigits in Hc; congruence| |exact Hus]).
  congruence.
Qed.

(** * Protection and restoration *)

Section ProtectProofs.
Context {RE : RegexLib}.
Import TextProcessor.

Lemma replace_placeholder s i j new :
  Py.replace s (placeholder i j) new = Py.replace_go (placeholder i j) new 0 s.
Proof. reflexivity. Qed.

Lemma placeholder_head i j : ∃ p, placeholder i j = String "_" p.
Proof. eexists. apply placeholder_unfold. Qed.

(** No match at all: nothing is masked and nothing is recorded. *)
Lemma protect_patterns_no_match i patterns text acc :
  Forall (λ p, findall p text = []) patterns →
  protect_patterns i patterns text acc = acc.
Proof.
  intros Hall. revert i. induction Hall as [|p ps Hp _ IH]; intros i; [done|].
  simpl. rewrite Hp. simpl. apply IH.
Qed.


Lemma dict_set_entries (Q : string * string → Prop) k v d :
  Q (k, v) → Forall Q d → Forall Q (Py.dict_set k v d).
Proof.
  intros Hq. induction 1 as [|[k' v'] d Hx Hd IH]; simpl.
  - by constructor.
  - destruct (String.eqb k' k); by constructor.
Qed.

Section Identical.
Variables (text m : string).
Hypothesis m_apart : apart_from_placeholders m.

Lemma masked_with_step i j acc :
  masked_with text m acc →
  masked_with text m
    (Py.replace acc.1 m (placeholder i j), Py.dict_set (placeholder i j) m acc.2).
Proof.
  intros [->|(i0 & j0 & rest & -> & Hrest)].
  - right. exists i, j, []. split; [reflexivity|constructor].
  - right. exists i0, j0. cbn [fst snd].
    assert (Py.replace (Py.replace text m (placeholder i0 j0)) m (placeholder i j)
            = Py.replace text m (placeholder i0 j0)) as ->.
    { destruct m_apart as (Hne & Hus & Hw & Hd).
      destruct m as [|a m']; [done|].
      destruct (placeholder_head i0 j0) as [p0 Hp0].
      rewrite !replace_nonempty. apply replace_go_not_contained.
      pose proof (placeholder_last i0 j0) as Hl.
      pose proof (placeholder_free i0 j0 _ Hne Hus Hw Hd) as Hf.
      rewrite Hp0 in Hl, Hf |- *. by apply (replace_go_removes "_"). }
    cbn [Py.dict_set].
    destruct (String.eqb (placeholder i0 j0) (placeholder i j)) eqn:Heq.
    + apply String.eqb_eq in Heq. rewrite <-Heq. by exists rest.
    + eexists. split; [done|]. apply dict_set_entries; [|done]. eauto.
Qed.

Lemma protect_matches_masked i j matches acc :
  Forall (.= m) matches → masked_with text m acc →
  masked_with text m (protect_matches i j matches acc).
Proof.
  intros Hall. revert j acc. induction Hall as [|x xs -> _ IH]; intros j acc Hacc; [done|].
  simpl. apply IH. by apply masked_with_step.
Qed.

Lemma protect_patterns_masked i patterns acc :
  Forall (λ p, Forall (.= m) (findall p text)) patterns → masked_with text m acc →
  masked_with text m (protect_patterns i patterns text acc).
Proof.
  intros Hall. revert i acc. induction Hall as [|p ps Hp _ IH]; intros i acc Hacc; [done|].
  simpl. apply IH. by apply protect_matches_masked.
Qed.

End Identical.

End ProtectProofs.

(** ** Masked texts as token sequences *)

Lemma render_cons t toks : render (t :: toks) = render_token t +:+ render toks.
Proof. reflexivity. Qed.

Lemma decode_cons t toks : decode (t :: toks) = decode_token t +:+ decode toks.
Proof. reflexivity. Qed.

Lemma render_chars s toks : render (chars s ++ toks) = s +:+ render toks.
Proof.
  induction s as [|a s IH]; [done|].
  cbn [chars app]. by rewrite render_cons, IH.
Qed.

Lemma decode_chars s toks : decode (chars s ++ toks) = s +:+ decode toks.
Proof.
  induction s as [|a s IH]; [done|].
  cbn [chars app]. by rewrite decode_cons, IH.
Qed.

Lemma chars_ok s : has_char "_" s = false → Forall token_ok (chars s).
Proof.
  induction s as [|a s IH]; [constructor|]. simpl.
  intros [Ha Hs]%orb_false_iff. constructor; [|by apply IH].
  simpl. by apply Ascii.eqb_neq.
Qed.

Lemma chars_length s : length (chars s) = String.length s.
Proof. induction s as [|a s IH]; [done|]. simpl. by rewrite IH. Qed.

Lemma chars_no_placeholder s i j m : Ph i j m ∉ chars s.
Proof.
  induction s as [|a s IH]; simpl; [apply not_elem_of_nil|].
  apply not_elem_of_cons. split; [done|apply IH].
Qed.

(** Tokens without a placeholder are rendered as what they stand for. *)
Lemma render_no_placeholder toks :
  (∀ i j m, Ph i j m ∉ toks) → render toks = decode toks.
Proof.
  induction toks as [|t toks IH]; [done|]. intros Hno.
  rewrite render_cons, decode_cons, IH.
  - destruct t as [c|i j m]; [done|]. destruct (Hno i j m). by left.
  - intros i j m Hin. apply (Hno i j m). by right.
Qed.

(** An underscore-free prefix of a masked text consists of characters of the
    original text. *)
Lemma prefix_render_chars x toks :
  Forall token_ok toks → has_char "_" x = false →
  String.prefix x (render toks) = true → ∃ toks2, toks = chars x ++ toks2.
Proof.
  revert toks. induction x as [|b x IH]; intros toks Hok Hx Hp; [by exists toks|].
  simpl in Hx. apply orb_false_iff in Hx as [Hb Hx]. apply Ascii.eqb_neq in Hb.
  destruct Hok as [|t toks Ht Hok]; [done|].
  destruct t as [c|i j m].
  - rewrite render_cons in Hp. simpl in Hp.
    destruct (ascii_dec b c) as [->|]; [|done].
    destruct (IH toks Hok Hx Hp) as [toks2 ->]. by exists toks2.
  - rewrite render_cons in Hp. simpl render_token in Hp.
    destruct (placeholder_head i j) as [p Hph]. rewrite Hph in Hp.
    rewrite string_app_cons, string_prefix_cons in Hp.
    apply andb_true_iff in Hp as [Hp _]. apply bool_decide_eq_true in Hp. done.
Qed.

(** The scan of [str.replace] runs over a stretch [u] in which [old] neither
    occurs nor begins. *)
Lemma replace_go_past c u a m new s :
  has_char c (String a m) = false → last_is c u = true →
  contains u (String a m) = false →
  Py.replace_go (String a m) new 0 (u +:+ s) = u +:+ Py.replace_go (String a m) new 0 s.
Proof.
  intros Hm. induction u as [|b u IH]; [done|]. intros Hl Hc.
  cbn [contains] in Hc. apply orb_false_iff in Hc as [Hp Hc].
  rewrite !(string_app_cons b), replace_go_nomatch.
  - f_equal. destruct u as [|d u]; [done|]. by apply IH.
  - apply not_true_is_false. intros Hpre. rewrite <-string_app_cons in Hpre.
    apply string_prefix_app_cases in Hpre as [Hpre|(m2 & Heq & _)]; [congruence|].
    rewrite Heq, has_char_app, (last_is_has_char _ _ Hl) in Hm. done.
Qed.

(** One step of the protection: replacing a match by a placeholder in a
    masked text gives a masked text that stands for the same text. *)
Lemma replace_tokens m i j toks :
  apart_from_placeholders m → Forall token_ok toks →
  ∃ toks', Py.replace (render toks) m (TextProcessor.placeholder i j) = render toks'
           ∧ decode toks' = decode toks
           ∧ Forall token_ok toks'
           ∧ ∀ t, t ∈ toks' → t ∈ toks ∨ t = Ph i j m.
Proof.
  intros (Hne & Hus & Hw & Hd).
  destruct m as [|a m]; [done|]. rewrite replace_nonempty.
  remember (length toks) as n eqn:Hn. revert toks Hn.
  induction (lt_wf n) as [n _ IH]. intros toks -> Hok.
  destruct Hok as [|t toks Ht Hok].
  { exists []. split_and!; [done..|]. intros t Ht. by apply elem_of_nil in Ht. }
  destruct t as [c|i' j' m'].
  - destruct (String.prefix (String a m) (render (Chr c :: toks))) eqn:Hp.
    + destruct (prefix_render_chars (String a m) (Chr c :: toks)) as [toks2 Heq];
        [by constructor|done..|].
      rewrite Heq, render_chars, replace_go_match.
      destruct (IH (length toks2)) with (toks := toks2) as (toks' & Hr & Hdec & Hok' & Hin).
      * rewrite Heq, length_app, chars_length. simpl. lia.
      * done.
      * assert (Forall token_ok (Chr c :: toks)) as Hall by (by constructor).
        rewrite Heq in Hall. by apply Forall_app in Hall as [_ ?].
      * exists (Ph i j (String a m) :: toks'). split_and!.
        -- by rewrite render_cons, Hr.
        -- by rewrite decode_cons, decode_chars, Hdec.
        -- by constructor.
        -- intros t [->|Ht']%elem_of_cons; [by right|].
           destruct (Hin t Ht') as [?|?]; [left|by right].
           rewrite elem_of_app. by right.
    + rewrite render_cons in Hp |- *. simpl render_token in *. rewrite string_app_cons in Hp |- *.
      rewrite string_app_nil_l in Hp |- *. rewrite replace_go_nomatch by done.
      destruct (IH (length toks)) with (toks := toks) as (toks' & Hr & Hdec & Hok' & Hin);
        [simpl; lia|done..|].
      exists (Chr c :: toks'). split_and!.
      * by rewrite render_cons, Hr.
      * by rewrite !decode_cons, Hdec.
      * by constructor.
      * intros t [->|Ht']%elem_of_cons; [left; by left|].
        destruct (Hin t Ht') as [?|?]; [left; by right|by right].
  - rewrite render_cons. simpl render_token.
    rewrite (replace_go_past "_"); [|done|apply placeholder_last|by apply placeholder_free].
    destruct (IH (length toks)) with (toks := toks) as (toks' & Hr & Hdec & Hok' & Hin);
      [simpl; lia|done..|].
    exists (Ph i' j' m' :: toks'). split_and!.
    + by rewrite render_cons, Hr.
    + by rewrite !decode_cons, Hdec.
    + by constructor.
    + intros t [->|Ht']%elem_of_cons; [left; by left|].
      destruct (Hin t Ht') as [?|?]; [left; by right|by right].
Qed.

(** ** Where a placeholder can occur in a masked text *)

Lemma digit_not_underscore a : MiniRe.is_digit a = true → a ≠ "_"%char.
Proof. intros Ha ->. by vm_compute in Ha. Qed.

Lemma digits_no_underscore s :
  string_forallb MiniRe.is_digit s = true → has_char "_" s = false.
Proof.
  induction s as [|a s IH]; [done|]. simpl.
  intros [Ha Hs]%andb_true_iff. rewrite IH by done.
  apply digit_not_underscore, Ascii.eqb_neq in Ha. by rewrite Ha.
Qed.

Lemma pretty_N_go_nonempty x s : s ≠ "" → pretty_N_go x s ≠ "".
Proof.
  revert s. induction (N.lt_wf_0 x) as [x _ IH]. intros s Hs.
  destruct (decide (0 < x)%N) as [Hx|Hx].
  - rewrite pretty_N_go_step by done. apply IH; [by apply N.div_lt|done].
  - assert (x = 0%N) as -> by lia. by rewrite pretty_N_go_0.
Qed.

Lemma pretty_nat_nonempty (n : nat) : pretty n ≠ "".
Proof.
  unfold pretty, pretty_nat, pretty, pretty_N. case_decide; [done|].
  rewrite pretty_N_go_step by lia. by apply pretty_N_go_nonempty.
Qed.

(** A number is printed as a non-empty string of digits. *)
Lemma pretty_nat_free (n : nat) : has_char "_" (pretty n) = false.
Proof. apply digits_no_underscore, pretty_nat_digits. Qed.

Lemma prefix_separator d1 d2 x y :
  has_char "_" d1 = false → has_char "_" d2 = false →
  String.prefix (d1 +:+ String "_" x) (d2 +:+ String "_" y) = true →
  d1 = d2 ∧ String.prefix x y = true.
Proof.
  revert d2. induction d1 as [|a d1 IH]; intros d2 H1 H2 Hp.
  - destruct d2 as [|c d2].
    + rewrite !string_app_nil_l, string_prefix_cons in Hp.
      by apply andb_true_iff in Hp as [_ ?].
    + rewrite string_app_nil_l, string_app_cons, string_prefix_cons in Hp.
      apply andb_true_iff in Hp as [<-%bool_decide_eq_true _]. by simpl in H2.
  - simpl in H1. apply orb_false_iff in H1 as [Ha H1].
    destruct d2 as [|c d2].
    + rewrite string_app_nil_l, string_app_cons, string_prefix_cons in Hp.
      apply andb_true_iff in Hp as [->%bool_decide_eq_true _]. by simpl in Ha.
    + rewrite !string_app_cons, string_prefix_cons in Hp.
      apply andb_true_iff in Hp as [->%bool_decide_eq_true Hp].
      simpl in H2. apply orb_false_iff in H2 as [_ H2].
      by destruct (IH d2 H1 H2 Hp) as [-> ?].
Qed.

Lemma string_prefix_app_same h x y : String.prefix (h +:+ x) (h +:+ y) = String.prefix x y.
Proof.
  induction h as [|a h IH]; [done|].
  by rewrite !string_app_cons, string_prefix_cons, bool_decide_eq_true_2, IH.
Qed.

Lemma placeholder_app i j s :
  TextProcessor.placeholder i j +:+ s
  = String "_" (String "_" ("PROTECTED" +:+ String "_"
      (pretty i +:+ String "_" (pretty j +:+ String "_" (String "_" s))))).
Proof. unfold TextProcessor.placeholder. by rewrite !string_app_assoc. Qed.

Lemma placeholder_shape i j :
  TextProcessor.placeholder i j
  = String "_" (String "_" ("PROTECTED" +:+ String "_"
      (pretty i +:+ String "_" (pretty j +:+ String "_" (String "_" ""))))).
Proof. by rewrite <-placeholder_app, string_app_nil_r. Qed.

(** A placeholder that begins where another one begins is that one. *)
Lemma placeholder_prefix_inv i j i' j' s :
  String.prefix (TextProcessor.placeholder i j) (TextProcessor.placeholder i' j' +:+ s) = true →
  i = i' ∧ j = j'.
Proof.
  rewrite placeholder_shape, placeholder_app, !string_prefix_cons.
  rewrite !bool_decide_eq_true_2 by done. rewrite !andb_true_l.
  rewrite string_prefix_app_same, string_prefix_cons, bool_decide_eq_true_2 by done.
  rewrite andb_true_l. intros Hp.
  apply prefix_separator in Hp as [Hi Hp]; [|apply pretty_nat_free..].
  apply prefix_separator in Hp as [Hj _]; [|apply pretty_nat_free..].
  split; by apply (inj pretty).
Qed.

Lemma placeholder_inj i j i' j' :
  TextProcessor.placeholder i j = TextProcessor.placeholder i' j' → i = i' ∧ j = j'.
Proof.
  intros Heq. apply (placeholder_prefix_inv i j i' j' "").
  rewrite string_app_nil_r, Heq. apply string_prefix_refl.
Qed.

(** In a masked text an underscore is followed by an underscore. *)
Lemma render_underscore_pair x c y toks :
  Forall token_ok toks → has_char "_" x = false →
  String.prefix (x +:+ String "_" (String c y)) (render toks) = true → c = "_"%char.
Proof.
  intros Hok. revert x. induction Hok as [|t toks Ht Hok IH]; intros x Hx Hp.
  - by destruct x.
  - destruct t as [c0|i j m].
    + rewrite render_cons in Hp. simpl render_token in Hp.
      rewrite string_app_cons, string_app_nil_l in Hp. destruct x as [|b x].
      * rewrite string_app_nil_l, string_prefix_cons in Hp.
        apply andb_true_iff in Hp as [Hc%bool_decide_eq_true _]. simpl in Ht. congruence.
      * rewrite string_app_cons, string_prefix_cons in Hp.
        apply andb_true_iff in Hp as [_ Hp].
        simpl in Hx. apply orb_false_iff in Hx as [_ Hx]. by apply (IH x).
    + rewrite render_cons in Hp. simpl render_token in Hp.
      rewrite placeholder_app in Hp. destruct x as [|b x].
      * rewrite string_app_nil_l, !string_prefix_cons in Hp.
        apply andb_true_iff in Hp as [_ Hp].
        by apply andb_true_iff in Hp as [->%bool_decide_eq_true _].
      * rewrite string_app_cons, string_prefix_cons in Hp.
        apply andb_true_iff in Hp as [->%bool_decide_eq_true _]. by simpl in Hx.
Qed.

(** No placeholder begins at either underscore that ends a placeholder. *)
Lemma placeholder_not_at_tail2 i j toks :
  Forall token_ok toks →
  String.prefix (TextProcessor.placeholder i j) (String "_" (String "_" (render toks))) = false.
Proof.
  intros Hok. apply not_true_is_false. intros Hp.
  rewrite placeholder_shape, !string_prefix_cons in Hp.
  rewrite !bool_decide_eq_true_2, !andb_true_l in Hp by done.
  pose proof (pretty_nat_nonempty i) as Hne. pose proof (pretty_nat_digits i) as Hd.
  destruct (pretty i) as [|d x]; [done|].
  rewrite (string_app_cons d) in Hp.
  apply (render_underscore_pair "PROTECTED") in Hp; [|done..]. subst d.
  by vm_compute in Hd.
Qed.

Lemma placeholder_not_at_tail1 i j toks :
  Forall token_ok toks →
  String.prefix (TextProcessor.placeholder i j) (String "_" (render toks)) = false.
Proof.
  intros Hok. apply not_true_is_false. intros Hp.
  rewrite placeholder_shape, string_prefix_cons in Hp.
  rewrite bool_decide_eq_true_2, andb_true_l in Hp by done.
  by apply (render_underscore_pair "" "P") in Hp.
Qed.

Lemma replace_go_skip_free c p new x t :
  has_char c x = false →
  Py.replace_go (String c p) new 0 (x +:+ t) = x +:+ Py.replace_go (String c p) new 0 t.
Proof.
  induction x as [|a x IH]; [done|]. simpl has_char. intros [Hac Hx]%orb_false_iff.
  rewrite !(string_app_cons a), replace_go_nomatch; [by rewrite IH|].
  rewrite string_prefix_cons. apply Ascii.eqb_neq in Hac.
  rewrite bool_decide_eq_false_2; [done|congruence].
Qed.

(** The scan runs over a single [c] followed by a non-empty stretch without
    [c], when [old] begins with two [c]. *)
Lemma replace_go_lone c p new x t :
  x ≠ "" → has_char c x = false →
  Py.replace_go (String c (String c p)) new 0 (String c (x +:+ t))
  = String c (x +:+ Py.replace_go (String c (String c p)) new 0 t).
Proof.
  intros Hne Hx. rewrite replace_go_nomatch; [by rewrite replace_go_skip_free|].
  destruct x as [|d x]; [done|]. simpl in Hx. apply orb_false_iff in Hx as [Hd _].
  apply Ascii.eqb_neq in Hd.
  rewrite string_app_cons, !string_prefix_cons.
  rewrite (bool_decide_eq_false_2 (c = d)) by congruence. by rewrite andb_false_r.
Qed.

(** The scan for a placeholder runs over another placeholder. *)
Lemma replace_go_other_placeholder i j i' j' new toks :
  Forall token_ok toks → ¬ (i' = i ∧ j' = j) →
  Py.replace_go (TextProcessor.placeholder i j) new 0
    (TextProcessor.placeholder i' j' +:+ render toks)
  = TextProcessor.placeholder i' j' +:+
    Py.replace_go (TextProcessor.placeholder i j) new 0 (render toks).
Proof.
  intros Hok Hne.
  assert (String.prefix (TextProcessor.placeholder i j)
            (TextProcessor.placeholder i' j' +:+ render toks) = false) as H0.
  { apply not_true_is_false. intros [-> ->]%placeholder_prefix_inv. by destruct Hne. }
  pose proof (placeholder_not_at_tail2 i j toks Hok) as H2.
  pose proof (placeholder_not_at_tail1 i j toks Hok) as H1.
  rewrite placeholder_app in H0. rewrite (placeholder_app i' j' (render toks)).
  assert (∃ p, TextProcessor.placeholder i j = String "_" (String "_" p)) as [p Hp].
  { eexists. apply placeholder_shape. }
  rewrite Hp in *.
  rewrite replace_go_nomatch by done.
  rewrite replace_go_lone by done.
  rewrite replace_go_lone; [|apply pretty_nat_nonempty|apply pretty_nat_free].
  rewrite replace_go_lone; [|apply pretty_nat_nonempty|apply pretty_nat_free].
  rewrite replace_go_nomatch by done.
  rewrite replace_go_nomatch by done.
  by rewrite placeholder_app.
Qed.

(** X2: Restoring one placeholder leaves the text of every other placeholder as
    it is: no placeholder is a part of another one. *)
Lemma restore_leaves_other_placeholder i j i' j' m :
  ¬ (i' = i ∧ j' = j) →
  Py.replace (TextProcessor.placeholder i' j') (TextProcessor.placeholder i j) m
  = TextProcessor.placeholder i' j'.
Proof.
  intros Hne. rewrite replace_placeholder.
  pose proof (replace_go_other_placeholder i j i' j' m [] (Forall_nil_2 _) Hne) as H.
  change (render []) with "" in H.
  change (Py.replace_go (TextProcessor.placeholder i j) m 0 "") with "" in H.
  by rewrite !string_app_nil_r in H.
Qed.

(** ** Restoration of a masked text *)

Lemma expand_decode i j toks : decode (expand i j toks) = decode toks.
Proof.
  induction toks as [|[c|i' j' m] toks IH]; [done|..].
  - simpl expand. by rewrite !decode_cons, IH.
  - simpl expand. case_decide.
    + by rewrite decode_chars, decode_cons, IH.
    + by rewrite !decode_cons, IH.
Qed.

Lemma expand_ok i j toks : Forall token_ok toks → Forall token_ok (expand i j toks).
Proof.
  induction 1 as [|[c|i' j' m] toks Ht Hok IH]; [constructor|..]; simpl expand.
  - by constructor.
  - case_decide; [|by constructor].
    apply Forall_app. split; [by apply chars_ok|done].
Qed.

Lemma expand_elem i j toks i' j' m :
  Ph i' j' m ∈ expand i j toks → Ph i' j' m ∈ toks ∧ ¬ (i' = i ∧ j' = j).
Proof.
  induction toks as [|[c|i0 j0 m0] toks IH]; simpl expand.
  - by intros ?%elem_of_nil.
  - intros [?|Hin]%elem_of_cons; [done|].
    destruct (IH Hin) as [? ?]. split; [by right|done].
  - case_decide as Hd.
    + intros [Hin|Hin]%elem_of_app; [by apply chars_no_placeholder in Hin|].
      destruct (IH Hin) as [? ?]. split; [by right|done].
    + intros [Heq|Hin]%elem_of_cons.
      * injection Heq as -> -> ->. split; [by left|done].
      * destruct (IH Hin) as [? ?]. split; [by right|done].
Qed.

(** One step of the restoration: every occurrence of the placeholder is a
    token of the masked text, and is replaced by what it stands for. *)
Lemma restore_step i j m toks :
  Forall token_ok toks → (∀ m', Ph i j m' ∈ toks → m' = m) →
  Py.replace (render toks) (TextProcessor.placeholder i j) m = render (expand i j toks).
Proof.
  intros Hok. rewrite replace_placeholder.
  induction Hok as [|t toks Ht Hok IH]; intros Hm; [done|].
  assert (Py.replace_go (TextProcessor.placeholder i j) m 0 (render toks)
          = render (expand i j toks)) as IH'.
  { apply IH. intros m' Hin. apply Hm. by right. }
  destruct t as [c|i' j' m'].
  - simpl expand. rewrite !render_cons, <-IH'. simpl render_token.
    rewrite !string_app_cons, !string_app_nil_l.
    destruct (placeholder_head i j) as [p ->].
    apply replace_go_nomatch.
    rewrite string_prefix_cons. simpl in Ht.
    rewrite bool_decide_eq_false_2; [done|congruence].
  - simpl expand. destruct (decide (i' = i ∧ j' = j)) as [[-> ->]|Hne].
    + rewrite (Hm m') by (by left). rewrite render_cons, render_chars, <-IH'.
      simpl render_token.
      destruct (placeholder_head i j) as [p ->]. apply replace_go_match.
    + rewrite !render_cons, <-IH'. simpl render_token.
      by apply replace_go_other_placeholder.
Qed.

(** The restoration of a masked text whose placeholders are all recorded
    under distinct keys gives the text that the tokens stand for. *)
Lemma restore_tokens d toks :
  Forall token_ok toks → NoDup d.*1 →
  (∀ k v, (k, v) ∈ d → ∃ i j, k = TextProcessor.placeholder i j) →
  (∀ i j m, Ph i j m ∈ toks → (TextProcessor.placeholder i j, m) ∈ d) →
  TextProcessor.restore_expressions (render toks) d = decode toks.
Proof.
  revert toks. induction d as [|[k v] d IH]; intros toks Hok Hnd Hkeys Hrec.
  - unfold TextProcessor.restore_expressions. simpl. apply render_no_placeholder.
    intros i j m Hin. apply Hrec in Hin. by apply elem_of_nil in Hin.
  - destruct (Hkeys k v) as (i & j & ->); [by left|].
    rewrite fmap_cons in Hnd. apply NoDup_cons in Hnd as [Hfresh Hnd].
    unfold TextProcessor.restore_expressions. cbn [fold_left].
    rewrite (restore_step i j v toks); [|done|].
    + fold (TextProcessor.restore_expressions (render (expand i j toks)) d).
      rewrite IH; [apply expand_decode|by apply expand_ok|done|..].
      * intros k' v' Hin. apply (Hkeys k' v'). by right.
      * intros i' j' m Hin. apply expand_elem in Hin as [Hin Hne].
        apply Hrec in Hin. apply elem_of_cons in Hin as [Heq|Hin]; [|done].
        pose proof (f_equal fst Heq) as Hk. cbn [fst] in Hk.
        apply placeholder_inj in Hk. done.
    + intros m' Hin. apply Hrec in Hin.
      apply elem_of_cons in Hin as [Heq|Hin]; [congruence|].
      destruct Hfresh. apply list_elem_of_fmap.
      by exists (TextProcessor.placeholder i j, m').
Qed.

(** ** The protection loops on an underscore-free text *)

Lemma dict_set_fresh {V} k (v : V) d : k ∉ d.*1 → Py.dict_set k v d = d ++ [(k, v)].
Proof.
  induction d as [|[k' v'] d IH]; [done|]. rewrite fmap_cons. simpl.
  intros [Hne Hk]%not_elem_of_cons.
  destruct (String.eqb k' k) eqn:E; [apply String.eqb_eq in E; congruence|].
  by rewrite IH.
Qed.

Section Protected.
Context {RE : RegexLib}.
Import TextProcessor.

Lemma protected_initial text : has_char "_" text = false → protected text 0 0 (text, []).
Proof.
  intros Ht. exists (chars text). cbn [fst snd]. split_and!.
  - rewrite <-(app_nil_r (chars text)), render_chars. by rewrite string_app_nil_r.
  - rewrite <-(app_nil_r (chars text)), decode_chars. by rewrite string_app_nil_r.
  - by apply chars_ok.
  - intros i j m Hin. by apply chars_no_placeholder in Hin.
  - constructor.
  - by intros k v ?%elem_of_nil.
Qed.

Lemma protected_step text i j m acc :
  apart_from_placeholders m → protected text i j acc →
  protected text i (S j)
    (Py.replace acc.1 m (placeholder i j), Py.dict_set (placeholder i j) m acc.2).
Proof.
  intros Hm (toks & Hr & Hdec & Hok & Hrec & Hnd & Hold).
  assert (placeholder i j ∉ acc.2.*1) as Hfresh.
  { intros ([k v] & Hk & Hin)%list_elem_of_fmap. simpl in Hk.
    destruct (Hold _ _ Hin) as (i' & j' & Heq & Ho).
    rewrite Heq in Hk. apply placeholder_inj in Hk as [-> ->].
    unfold older in Ho. lia. }
  destruct (replace_tokens m i j toks Hm Hok) as (toks' & Hr' & Hdec' & Hok' & Hin').
  exists toks'. cbn [fst snd]. rewrite dict_set_fresh by done. split_and!.
  - by rewrite Hr.
  - congruence.
  - done.
  - intros i' j' m' Hin. rewrite elem_of_app. destruct (Hin' _ Hin) as [Ht|Ht].
    + left. by apply Hrec.
    + right. injection Ht as -> -> ->. by apply list_elem_of_singleton.
  - rewrite fmap_app. apply NoDup_app. split_and!; [done| |apply NoDup_singleton].
    intros k Hk ->%list_elem_of_singleton. done.
  - intros k v [Hin|Hin]%elem_of_app.
    + destruct (Hold k v Hin) as (i' & j' & -> & Ho). exists i', j'.
      split; [done|]. unfold older in *. lia.
    + apply list_elem_of_singleton in Hin. injection Hin as -> ->. exists i, j.
      split; [done|]. unfold older. lia.
Qed.

Lemma protected_matches text i j matches acc :
  Forall apart_from_placeholders matches → protected text i j acc →
  ∃ j', protected text i j' (protect_matches i j matches acc).
Proof.
  intros Hall. revert j acc. induction Hall as [|m ms Hm _ IH]; intros j acc Hacc.
  - by exists j.
  - simpl. apply IH. by apply protected_step.
Qed.

Lemma protected_next text i j acc : protected text i j acc → protected text (S i) 0 acc.
Proof.
  intros (toks & Hr & Hdec & Hok & Hrec & Hnd & Hold).
  exists toks. split_and!; [done..|].
  intros k v Hin. destruct (Hold k v Hin) as (i' & j' & -> & Ho). exists i', j'.
  split; [done|]. unfold older in *. lia.
Qed.

Lemma protected_patterns text i patterns acc :
  Forall (λ p, Forall apart_from_placeholders (findall p text)) patterns →
  protected text i 0 acc →
  ∃ i' j', protected text i' j' (protect_patterns i patterns text acc).
Proof.
  intros Hall. revert i acc. induction Hall as [|p ps Hp _ IH]; intros i acc Hacc.
  - by exists i, 0.
  - simpl. destruct (protected_matches text i 0 _ acc Hp Hacc) as [j' Hj'].
    apply (IH (S i)). by eapply protected_next.
Qed.

Lemma restore_protected text i j acc :
  protected text i j acc → restore_expressions acc.1 acc.2 = text.
Proof.
  intros (toks & Hr & Hdec & Hok & Hrec & Hnd & Hold).
  rewrite Hr, <-Hdec. apply restore_tokens; [done..| |done].
  intros k v Hin. destruct (Hold k v Hin) as (i' & j' & -> & _). by exists i', j'.
Qed.
End Protected.

(** ** The matcher against the declarative reading of a regex *)

Section MatcherSound.
Import MiniRe.

Lemma one_sound p s k x :
  one p s k = Some x → ∃ a s', s = String a s' ∧ p a = true ∧ k (Some a) s' = Some x.
Proof.
  destruct s as [|a s]; [done|]. simpl. destruct (p a) eqn:Hp; [|done].
  intros Hk. by exists a, s.
Qed.

(** A successful match consumed a string of the regex and handed the rest
    to its continuation. *)
Lemma rmatch_sound r prev s k x :
  rmatch r prev s k = Some x →
  ∃ m s' p', s = m +:+ s' ∧ matches r m ∧ k p' s' = Some x.
Proof.
  revert prev s k x.
  induction r as [|c| | | |cs| |r1 IH1 r2 IH2|r1 IH1 r2 IH2|r1 IH1|r1 IH1];
    intros prev s k x; cbn [rmatch].
  - intros Hk. exists "", s, prev. split_and!; [done|constructor|done].
  - intros (a & s' & -> & Hp & Hk)%one_sound.
    exists (String a ""), s', (Some a). split_and!; [done|by constructor|done].
  - intros (a & s' & -> & Hp & Hk)%one_sound.
    exists (String a ""), s', (Some a). split_and!; [done|by constructor|done].
  - intros (a & s' & -> & Hp & Hk)%one_sound.
    exists (String a ""), s', (Some a). split_and!; [done|by constructor|done].
  - intros (a & s' & -> & Hp & Hk)%one_sound.
    exists (String a ""), s', (Some a). split_and!; [done|by constructor|done].
  - intros (a & s' & -> & Hp & Hk)%one_sound.
    exists (String a ""), s', (Some a). split_and!; [done|by constructor|done].
  - destruct (xorb _ _); [|done]. intros Hk.
    exists "", s, prev. split_and!; [done|constructor|done].
  - intros (m1 & s1 & p1 & -> & Hm1 & H2)%IH1.
    apply IH2 in H2 as (m2 & s2 & p2 & -> & Hm2 & Hk).
    exists (m1 +:+ m2), s2, p2. split_and!; [by rewrite string_app_assoc|by constructor|done].
  - destruct (rmatch r1 prev s k) as [y|] eqn:E1.
    + intros [= ->]. apply IH1 in E1 as (m & s' & p' & -> & Hm & Hk).
      exists m, s', p'. split_and!; [done|by apply matches_alt_l|done].
    + intros (m & s' & p' & -> & Hm & Hk)%IH2.
      exists m, s', p'. split_and!; [done|by apply matches_alt_r|done].
  - destruct (rmatch r1 prev s k) as [y|] eqn:E1.
    + intros [= ->]. apply IH1 in E1 as (m & s' & p' & -> & Hm & Hk).
      exists m, s', p'. split_and!; [done|by apply matches_opt_some|done].
    + intros Hk. exists "", s, prev. split_and!; [done|constructor|done].
  - generalize (String.length s). intros n. revert prev s.
    induction n as [|n IHn]; intros prev s.
    + intros Hk. exists "", s, prev. split_and!; [done|constructor|done].
    + match goal with
      | |- match ?e with _ => _ end = _ → _ => destruct e as [y|] eqn:E1
      end.
      * intros [= ->]. apply IH1 in E1 as (m1 & s1 & p1 & -> & Hm1 & H2).
        destruct (_ <? _)%nat; [|done].
        apply IHn in H2 as (m2 & s2 & p2 & -> & Hm2 & Hk).
        exists (m1 +:+ m2), s2, p2.
        split_and!; [by rewrite string_app_assoc|by constructor|done].
      * intros Hk. exists "", s, prev. split_and!; [done|constructor|done].
Qed.

Lemma substring_app_length m s : String.substring 0 (String.length m) (m +:+ s) = m.
Proof.
  induction m as [|a m IH]; [by destruct s|].
  rewrite string_app_cons. simpl. by rewrite IH.
Qed.

Lemma match_here_sound r prev s m rest :
  match_here r prev s = Some (m, rest) → matches r m.
Proof.
  unfold match_here. destruct (rmatch r prev s _) as [x|] eqn:E; [|done].
  apply rmatch_sound in E as (m' & s' & _ & -> & Hm & [= <-]).
  intros [= <- _]. rewrite string_length_app.
  replace (String.length m' + String.length s' - String.length s') with (String.length m')
    by lia.
  by rewrite substring_app_length.
Qed.

(** Every string that [findall] returns is a match of the regex. *)
Lemma findall_go_matches fuel r prev s : Forall (matches r) (findall_go fuel r prev s).
Proof.
  revert prev s. induction fuel as [|fuel IH]; intros prev s; [constructor|].
  cbn [findall_go].
  assert (Forall (matches r)
            match s with
            | "" => []
            | String a s' => findall_go fuel r (Some a) s'
            end) as Hstep.
  { destruct s; [constructor|apply IH]. }
  destruct (match_here r prev s) as [[m rest]|] eqn:E; [|done].
  apply match_here_sound in E.
  destruct m as [|a m]; constructor; done || apply IH.
Qed.

Lemma matches_chars r m : matches r m → string_forallb (chars_of r) m = true.
Proof.
  assert (∀ p q s, string_forallb p s = true → string_forallb (λ a, p a || q a) s = true)
    as Hl.
  { intros p q s. induction s as [|a s IH]; [done|]. simpl.
    intros [-> ?]%andb_true_iff. by rewrite IH. }
  assert (∀ p q s, string_forallb q s = true → string_forallb (λ a, p a || q a) s = true)
    as Hr.
  { intros p q s. induction s as [|a s IH]; [done|]. simpl.
    intros [-> ?]%andb_true_iff. by rewrite IH, orb_true_r. }
  assert (∀ p s t, string_forallb p s = true → string_forallb p t = true →
                   string_forallb p (s +:+ t) = true) as Happ.
  { intros p s t. induction s as [|a s IH]; [done|]. rewrite string_app_cons. simpl.
    intros [-> ?]%andb_true_iff ?. by rewrite IH. }
  induction 1; cbn [chars_of]; try done; try (simpl; by rewrite ?andb_true_r).
  - apply Happ; [by apply Hl|by apply Hr].
  - by apply Hl.
  - by apply Hr.
  - by apply Happ.
Qed.
End MatcherSound.

(** ** The matches of the dice pattern *)

Section DiceMatches.
Import MiniRe.

Lemma string_forallb_app p s t :
  string_forallb p (s +:+ t) = string_forallb p s && string_forallb p t.
Proof.
  induction s as [|a s IH]; [done|].
  rewrite string_app_cons. simpl. by rewrite IH, andb_assoc.
Qed.

Lemma string_forallb_has_char p c s :
  string_forallb p s = true → p c = false → has_char c s = false.
Proof.
  intros Hs Hc. induction s as [|a s IH]; [done|]. simpl in *.
  apply andb_true_iff in Hs as [Ha Hs]. rewrite IH by done.
  destruct (Ascii.eqb_spec a c) as [->|]; [congruence|done].
Qed.

Lemma ci_d_not_digit a : ci_eqb "d" a = true → is_digit a = false.
Proof.
  destruct a as [[] [] [] [] [] [] [] []]; vm_compute; congruence.
Qed.

(** A match of the dice pattern begins with a digit, holds the letter d and
    consists of digits, the letter d, white space and signs. *)
Lemma dice_match_shape m :
  matches dice_regex m →
  ∃ c ds a rest, m = String c (ds +:+ String a rest)
                 ∧ is_digit c = true ∧ ci_eqb "d" a = true.
Proof.
  unfold dice_regex, Plus. intros H.
  inversion H as [| | | | | | |? ? m0 m1 H0 H1| | | | | |]; subst; clear H.
  inversion H0; subst; clear H0.
  inversion H1 as [| | | | | | |? ? m2 m3 H2 H3| | | | | |]; subst; clear H1.
  inversion H3; subst; clear H3.
  inversion H2 as [| | | | | | |? ? m4 m5 H4 H5| | | | | |]; subst; clear H2.
  inversion H4 as [| | | | | | |? ? m6 m7 H6 H7| | | | | |]; subst; clear H4.
  inversion H6; subst; clear H6.
  inversion H5 as [| | | | | | |? ? m8 m9 H8 H9| | | | | |]; subst; clear H5.
  inversion H8; subst; clear H8.
  eexists _, m7, _, (m9 +:+ ""). split_and!; [|done..].
  simpl. by rewrite !string_app_assoc.
Qed.

Lemma dice_match_apart m : matches dice_regex m → apart_from_placeholders m.
Proof.
  intros Hm. pose proof (matches_chars _ _ Hm) as Hchars.
  destruct (dice_match_shape m Hm) as (c & ds & a & rest & -> & Hc & Ha).
  split_and!.
  - done.
  - by apply (string_forallb_has_char _ _ _ Hchars).
  - apply not_true_is_false. intros Hin.
    apply (contains_forallb (λ x, negb (is_digit x))) in Hin; [|done].
    simpl in Hin. by rewrite Hc in Hin.
  - simpl. rewrite string_forallb_app. simpl.
    by rewrite (ci_d_not_digit a Ha), andb_false_r, andb_false_r.
Qed.

(** Every match of the dice pattern is apart from the placeholders. *)
Lemma dice_matches_apart text :
  Forall apart_from_placeholders (findall TextProcessor.DICE_PATTERN text).
Proof.
  eapply Forall_impl; [apply findall_go_matches|]. apply dice_match_apart.
Qed.
End DiceMatches.

(** ** Expression protection: restoration (C2) and identical matches (C8) *)

Section ProtectClaims.
Context {RE : RegexLib}.
Import TextProcessor.

(** When every match is the same string, all its occurrences are masked
    by one placeholder, the first one. *)
Lemma protect_identical_shares_placeholder text patterns m :
  apart_from_placeholders m →
  Forall (λ p, Forall (.= m) (findall p text)) patterns →
  masked_with text m (protect_expressions text patterns).
Proof.
  intros Hm Hall. apply protect_patterns_masked; [done..|]. by left.
Qed.

(** On an underscore-free text whose matches are all apart from the
    placeholders, restoration undoes protection. *)
Lemma restore_protect_apart text patterns :
  has_char "_" text = false →
  Forall (λ p, Forall apart_from_placeholders (findall p text)) patterns →
  restore_expressions (protect_expressions text patterns).1
    (protect_expressions text patterns).2 = text.
Proof.
  intros Htext Hall.
  destruct (protected_patterns text 0 patterns (text, []) Hall
              (protected_initial text Htext)) as (i & j & Hp).
  apply (restore_protected text i j _ Hp).
Qed.
End ProtectClaims.

(** X3: The call of [process_text]: with the dice pattern, every underscore-free
    text is restored. *)
Lemma restore_protect_dice text :
  has_char "_" text = false →
  TextProcessor.restore_expressions
    (TextProcessor.protect_expressions text [TextProcessor.DICE_PATTERN]).1
    (TextProcessor.protect_expressions text [TextProcessor.DICE_PATTERN]).2 = text.
Proof.
  intros Htext. apply restore_protect_apart; [done|].
  apply Forall_cons_2; [apply dice_matches_apart|apply Forall_nil_2].
Qed.

(** C2 (amended): restoring the protections produced by
    [protect_expressions] yields exactly the original text whenever no
    pattern matches anything in the text, and whenever the text has no
    underscore and every match of every pattern is apart from the
    placeholders (not empty, no underscore, no part of the word PROTECTED,
    not a plain number, as every match of the dice pattern is), whatever the
    number of patterns and of matches, repeated matches included. *)
Theorem restore_protect_exact {RE : RegexLib} (text : string) (patterns : list Pattern) :
  Forall (λ p, findall p text = []) patterns
  ∨ (has_char "_" text = false
     ∧ Forall (λ p, Forall apart_from_placeholders (findall p text)) patterns) →
  TextProcessor.restore_expressions
    (TextProcessor.protect_expressions text patterns).1
    (TextProcessor.protect_expressions text patterns).2 = text.
Proof.
  intros [Hnone|[Htext Hall]].
  - unfold TextProcessor.protect_expressions.
    by rewrite protect_patterns_no_match.
  - by apply restore_protect_apart.
Qed.

Lemma restore_protect_exact_witness :
  (has_char "_" "Deal 1d4 now, 1d4+2 later and 2d6 or 2d6 after" = false
   ∧ Forall (λ p, Forall apart_from_placeholders
                    (findall p "Deal 1d4 now, 1d4+2 later and 2d6 or 2d6 after"))
       [MiniRe.dice_regex; MiniRe.dice_regex])
  ∧ TextProcessor.restore_expressions
      (TextProcessor.protect_expressions "Deal 1d4 now, 1d4+2 later and 2d6 or 2d6 after"
         [MiniRe.dice_regex; MiniRe.dice_regex]).1
      (TextProcessor.protect_expressions "Deal 1d4 now, 1d4+2 later and 2d6 or 2d6 after"
         [MiniRe.dice_regex; MiniRe.dice_regex]).2
    = "Deal 1d4 now, 1d4+2 later and 2d6 or 2d6 after".
Proof.
  assert (Forall (λ p, Forall apart_from_placeholders
                         (findall p "Deal 1d4 now, 1d4+2 later and 2d6 or 2d6 after"))
            [MiniRe.dice_regex; MiniRe.dice_regex]) as Hall.
  { assert (findall MiniRe.dice_regex "Deal 1d4 now, 1d4+2 later and 2d6 or 2d6 after"
            = ["1d4"; "1d4+2"; "2d6"; "2d6"]) as E by (by vm_compute).
    assert (Forall apart_from_placeholders ["1d4"; "1d4+2"; "2d6"; "2d6"]) as Hm.
    { repeat apply Forall_cons_2; [..|apply Forall_nil_2];
        unfold apart_from_placeholders; by split_and!. }
    apply Forall_cons_2; [by rewrite E|]. apply Forall_cons_2; [by rewrite E|].
    apply Forall_nil_2. }
  split; [split; [reflexivity|exact Hall]|].
  apply (restore_protect_exact (RE := MiniRe.engine)).
  right. split; [reflexivity|exact Hall].
Defined.

(** C2, as stated, fails: a text that already holds the literal text of a
    placeholder is not restored; the dice expression takes its place. *)
Lemma restore_protect_counterexample :
  TextProcessor.restore_expressions
    (TextProcessor.protect_expressions "__PROTECTED_0_0__ 2d6" [MiniRe.dice_regex]).1
    (TextProcessor.protect_expressions "__PROTECTED_0_0__ 2d6" [MiniRe.dice_regex]).2
  = "2d6 2d6"
  ∧ TextProcessor.restore_expressions
      (TextProcessor.protect_expressions "__PROTECTED_0_0__ 2d6" [MiniRe.dice_regex]).1
      (TextProcessor.protect_expressions "__PROTECTED_0_0__ 2d6" [MiniRe.dice_regex]).2
    ≠ "__PROTECTED_0_0__ 2d6".
Proof. split; [by vm_compute|]. vm_compute. discriminate. Qed.

(** C8 (code at the failing input): with two occurrences of the identical
    match 2d6, both occurrences are masked by the first placeholder; the
    second placeholder is recorded in the protections but appears nowhere
    in the masked text.  With 1d4 and 1d4+2 the second expression is only
    partly masked. *)
Theorem protect_identical_matches_share_first_placeholder :
  TextProcessor.protect_expressions "2d6 and 2d6" [MiniRe.dice_regex]
  = ("__PROTECTED_0_0__ and __PROTECTED_0_0__",
     [("__PROTECTED_0_0__", "2d6"); ("__PROTECTED_0_1__", "2d6")])
  ∧ contains (TextProcessor.protect_expressions "2d6 and 2d6" [MiniRe.dice_regex]).1
      "__PROTECTED_0_1__" = false
  ∧ TextProcessor.protect_expressions "1d4 and 1d4+2" [MiniRe.dice_regex]
    = ("__PROTECTED_0_0__ and __PROTECTED_0_0__+2",
       [("__PROTECTED_0_0__", "1d4"); ("__PROTECTED_0_1__", "1d4+2")]).
Proof. by vm_compute. Qed.

(** ** The stable descending sort *)

Section SortDesc.
Context {A : Type} (lt : A → A → bool).

Lemma insert_desc_perm x l : Py.insert_desc lt x l ≡ₚ x :: l.
Proof.
  induction l as [|y l IH]; simpl; [done|].
  destruct (lt x y); [|done]. rewrite IH. apply Permutation_swap.
Qed.

Lemma sort_desc_perm l : Py.sort_desc lt l ≡ₚ l.
Proof.
  induction l as [|x l IH]; simpl; [done|].
  by rewrite insert_desc_perm, IH.
Qed.

Lemma sort_desc_length l : length (Py.sort_desc lt l) = length l.
Proof. by rewrite sort_desc_perm. Qed.

Hypothesis lt_asym : ∀ a b, lt a b = true → lt b a = false.
Hypothesis before_trans : ∀ a b c, before lt a b → before lt b c → before lt a c.

Lemma insert_desc_sorted x l :
  StronglySorted (before lt) l → StronglySorted (before lt) (Py.insert_desc lt x l).
Proof.
  induction 1 as [|y l Hl IH Hy]; simpl; [by repeat constructor|].
  destruct (lt x y) eqn:Hxy.
  - constructor; [done|].
    rewrite Forall_forall in Hy |- *. intros z Hz.
    rewrite insert_desc_perm in Hz.
    apply elem_of_cons in Hz as [->|Hz]; [by apply lt_asym|].
    by apply Hy.
  - constructor; [by constructor|].
    constructor; [done|].
    eapply Forall_impl; [exact Hy|]. intros z Hz. by eapply before_trans.
Qed.

Lemma sort_desc_sorted l : StronglySorted (before lt) (Py.sort_desc lt l).
Proof.
  induction l as [|x l IH]; simpl; [constructor|]. by apply insert_desc_sorted.
Qed.

(** The first [n] elements of the sorted list dominate the others. *)
Lemma sort_desc_take_drop n l x y :
  x ∈ take n (Py.sort_desc lt l) → y ∈ drop n (Py.sort_desc lt l) → before lt x y.
Proof.
  intros Hx Hy. eapply (StronglySorted_app_1_elem_of (before lt)); [|done..].
  rewrite take_drop. apply sort_desc_sorted.
Qed.
End SortDesc.

Lemma StronglySorted_weaken {A} (R S : relation A) (l : list A) :
  (∀ a b, R a b → S a b) → StronglySorted R l → StronglySorted S l.
Proof.
  intros HRS. induction 1 as [|x l Hl IH Hx]; constructor; [done|].
  eapply Forall_impl; [exact Hx|]. intros y. apply HRS.
Qed.

Lemma Qlt_bool_asym a b : Qlt_bool a b = true → Qlt_bool b a = false.
Proof.
  unfold Qlt_bool. intros Hab%negb_true_iff. apply negb_false_iff, Qle_bool_iff.
  apply Qnot_lt_le. intros Hlt. apply Qlt_le_weak, Qle_bool_iff in Hlt. congruence.
Qed.

Lemma Qlt_bool_false a b : Qlt_bool a b = false ↔ (b <= a)%Q.
Proof. unfold Qlt_bool. by rewrite negb_false_iff, Qle_bool_iff. Qed.

Lemma Qlt_bool_before_trans a b c :
  Qlt_bool a b = false → Qlt_bool b c = false → Qlt_bool a c = false.
Proof. rewrite !Qlt_bool_false. intros ??. by eapply Qle_trans. Qed.

(** The sort is stable. *)
Section SortStable.
Context {A : Type} (lt : A → A → bool) (P : A → bool).
Hypothesis P_apart : ∀ x y, P x = true → lt x y = true → P y = false.

Lemma insert_desc_filter x l :
  filter (λ a, P a = true) (Py.insert_desc lt x l) = filter (λ a, P a = true) (x :: l).
Proof.
  induction l as [|y l IH]; [done|]. simpl Py.insert_desc.
  destruct (lt x y) eqn:Hxy; [|done].
  rewrite filter_cons, IH, !filter_cons.
  destruct (decide (P x = true)) as [Hx|Hx], (decide (P y = true)) as [Hy|Hy]; try done.
  rewrite (P_apart x y Hx Hxy) in Hy. done.
Qed.

(** The sort is stable: the elements that share a key keep their order. *)
Lemma sort_desc_filter l :
  filter (λ a, P a = true) (Py.sort_desc lt l) = filter (λ a, P a = true) l.
Proof.
  induction l as [|x l IH]; [done|]. simpl Py.sort_desc.
  by rewrite insert_desc_filter, !filter_cons, IH.
Qed.
End SortStable.

Lemma filter_take_prefix {A} (P : A → Prop) `{∀ x, Decision (P x)} (n : nat) (l : list A) :
  filter P (take n l) `prefix_of` filter P l.
Proof.
  rewrite <-(take_drop n l) at 2. rewrite filter_app. by apply prefix_app_r.
Qed.

(** ** Eviction of learned rules (C4) *)

Lemma rules_at_fmap (f : list Rule → list Rule) (d : gmap string (list Rule)) stage :
  f [] = [] → rules_at (f <$> d) stage = f (rules_at d stage).
Proof. intros Hf. unfold rules_at. rewrite lookup_fmap. by destruct (d !! stage). Qed.

Lemma rules_at_insert (d : gmap string (list Rule)) stage l :
  rules_at (<[stage := l]> d) stage = l.
Proof. unfold rules_at. by rewrite lookup_insert_eq. Qed.

Lemma rules_at_insert_ne (d : gmap string (list Rule)) stage stage' l :
  stage ≠ stage' → rules_at (<[stage := l]> d) stage' = rules_at d stage'.
Proof. intros Hne. unfold rules_at. by rewrite lookup_insert_ne. Qed.

Section Eviction.
Context {FL : FloatLib}.

Lemma cleanup_stage_within max_rules rules :
  length rules ≤ max_rules → Learner.cleanup_stage max_rules rules = rules.
Proof.
  intros Hle. unfold Learner.cleanup_stage.
  destruct (Nat.ltb_spec max_rules (length rules)); [lia|done].
Qed.

Lemma cleanup_stage_nil max_rules : Learner.cleanup_stage max_rules [] = [].
Proof. apply cleanup_stage_within. simpl. lia. Qed.

Lemma rules_at_cleanup st stage :
  rules_at (DynamicRulesManager.learned_rules (Learner._cleanup_learned_rules st)) stage
  = Learner.cleanup_stage (max_learned_rules (DynamicRulesManager.learning_config st))
      (rules_at (DynamicRulesManager.learned_rules st) stage).
Proof. simpl. apply rules_at_fmap, cleanup_stage_nil. Qed.

Lemma cleanup_stage_length max_rules rules :
  length (Learner.cleanup_stage max_rules rules) = length rules `min` max_rules.
Proof.
  unfold Learner.cleanup_stage.
  destruct (Nat.ltb_spec max_rules (length rules)); [|lia].
  rewrite length_take, sort_desc_length. lia.
Qed.

(** The code sorts by the score of the specification. *)
Lemma rule_score_claimed rule : Learner.rule_score rule = claimed_score rule.
Proof. reflexivity. Qed.

Lemma cleanup_stage_keeps_best max_rules rules :
  ∃ evicted,
    rules ≡ₚ Learner.cleanup_stage max_rules rules ++ evicted
    ∧ ∀ k e, k ∈ Learner.cleanup_stage max_rules rules → e ∈ evicted →
             (claimed_score e <= claimed_score k)%Q.
Proof.
  unfold Learner.cleanup_stage.
  destruct (Nat.ltb_spec max_rules (length rules)) as [Hlt|Hle].
  - set (lt := λ a b, Qlt_bool (Learner.rule_score a) (Learner.rule_score b)).
    exists (drop max_rules (Py.sort_desc lt rules)). split.
    + by rewrite take_drop, sort_desc_perm.
    + intros k e Hk He. rewrite <-!rule_score_claimed. apply Qlt_bool_false.
      apply (sort_desc_take_drop lt) with (n := max_rules) (l := rules); [..|done|done].
      * intros a b. apply Qlt_bool_asym.
      * intros a b c. apply Qlt_bool_before_trans.
  - exists []. split; [by rewrite app_nil_r|]. intros k e _ He. by apply elem_of_nil in He.
Qed.

(** The rules kept in an over-full stage come by descending score. *)
Lemma cleanup_stage_sorted max_rules rules :
  max_rules < length rules →
  StronglySorted (λ a b, (claimed_score b <= claimed_score a)%Q)
    (Learner.cleanup_stage max_rules rules).
Proof.
  intros Hlt. unfold Learner.cleanup_stage.
  destruct (Nat.ltb_spec max_rules (length rules)) as [_|Hle]; [|lia].
  set (sorted := Py.sort_desc _ rules).
  apply (StronglySorted_app_1_l _ _ (drop max_rules sorted)). rewrite take_drop.
  eapply StronglySorted_weaken; [|apply sort_desc_sorted].
  - intros a b Hab. rewrite <-!rule_score_claimed. by apply Qlt_bool_false.
  - intros a b. apply Qlt_bool_asym.
  - intros a b c. apply Qlt_bool_before_trans.
Qed.

(** Among rules of equal score the earlier ones of the stage are kept, in
    their order. *)
Lemma cleanup_stage_stable max_rules rules c :
  filter (λ r, Qeq_bool (claimed_score r) c = true) (Learner.cleanup_stage max_rules rules)
  `prefix_of` filter (λ r, Qeq_bool (claimed_score r) c = true) rules.
Proof.
  unfold Learner.cleanup_stage.
  destruct (Nat.ltb_spec max_rules (length rules)) as [_|Hle]; [|done].
  etrans; [apply filter_take_prefix|].
  rewrite (sort_desc_filter _ (λ r, Qeq_bool (claimed_score r) c)); [done|].
  intros x y Hx Hxy. apply not_true_is_false. intros Hy.
  apply Qeq_bool_iff in Hx, Hy. unfold Qlt_bool in Hxy.
  apply negb_true_iff in Hxy. apply not_true_iff_false in Hxy. apply Hxy.
  apply Qle_bool_iff. rewrite !rule_score_claimed, Hx, Hy. apply Qle_refl.
Qed.
End Eviction.

(** C4: persistence of the learned rules starts with the eviction; after
    it no stage holds more learned rules than the configured maximum, a
    stage within the maximum is left as it is, and an over-full stage keeps
    exactly [max_learned_rules] rules, by descending score, none of which
    scores below an evicted one, for the score confidence * (1 +
    usage_count) * success_rate as the floats compute it; among rules of
    equal score the earlier ones of the stage are kept. *)
Theorem eviction_keeps_highest_scores {FL : FloatLib} (st : DynamicRulesManager.t)
    (stage : string) :
  let max_rules := max_learned_rules (DynamicRulesManager.learning_config st) in
  let rules := rules_at (DynamicRulesManager.learned_rules st) stage in
  let saved := Learner.save_learned_rules st in
  let kept := rules_at (DynamicRulesManager.learned_rules saved.1) stage in
  saved.1 = Learner._cleanup_learned_rules st
  ∧ saved.2.1 = DynamicRulesManager.learned_rules saved.1
  ∧ length kept ≤ max_rules
  ∧ length kept = length rules `min` max_rules
  ∧ (length rules ≤ max_rules → kept = rules)
  ∧ (max_rules < length rules →
     StronglySorted (λ a b, (claimed_score b <= claimed_score a)%Q) kept)
  ∧ (∀ c, filter (λ r, Qeq_bool (claimed_score r) c = true) kept
          `prefix_of` filter (λ r, Qeq_bool (claimed_score r) c = true) rules)
  ∧ ∃ evicted,
      rules ≡ₚ kept ++ evicted
      ∧ ∀ k e, k ∈ kept → e ∈ evicted → (claimed_score e <= claimed_score k)%Q.
Proof.
  intros max_rules rules saved kept.
  assert (kept = Learner.cleanup_stage max_rules rules) as Hkept
    by apply rules_at_cleanup.
  split; [done|]. split; [done|]. rewrite Hkept.
  split; [rewrite cleanup_stage_length; lia|].
  split; [apply cleanup_stage_length|].
  split; [apply cleanup_stage_within|].
  split; [apply cleanup_stage_sorted|].
  split; [apply cleanup_stage_stable|].
  apply cleanup_stage_keeps_best.
Qed.

(** Three rules in a stage capped at two: the rule with the lowest score
    goes, the others come out by descending score. *)
Lemma eviction_example :
  name <$> rules_at
             (DynamicRulesManager.learned_rules
                (Learner.save_learned_rules Examples.crowded_manager).1)
             "post_translation"
  = ["high"; "mid"].
Proof. by vm_compute. Qed.

(** ** Failure of the translation service (C1) *)

Section ProcessText.
Context {RE : RegexLib} {SV : Services} {E : Type} {ENG : IRuleEngine E}.
Import DeepLTranslator.

(** Whatever exception the [except] clause catches, the original text is
    returned and nothing is stored in the cache. *)
Lemma process_text_caught (tr : t E) text context e :
  (process_text tr text context).2 = Some e →
  (process_text tr text context).1.1 = text
  ∧ TranslationCache._cache (cache (process_text tr text context).1.2)
    = TranslationCache._cache (cache tr).
Proof.
  unfold process_text.
  destruct (negb (Py.truthy text) || negb (Py.truthy (Py.strip text))); [done|].
  destruct (TranslationCache.get _ _) as [cached cache1] eqn:Hget.
  assert (TranslationCache._cache cache1 = TranslationCache._cache (cache tr)) as Hcache.
  { unfold TranslationCache.get in Hget.
    destruct (TranslationCache._cache (cache tr) !! _); by simplify_eq. }
  destruct (match cached with Some c => _ | None => _ end); [done|].
  destruct (TextProcessor.protect_expressions _ _) as [protected protections].
  destruct (apply_rules _ protected _) as [[preprocessed|e0] engine1]; [|done].
  cbn [mbind outcome_bind].
  destruct (match glossary_manager _ with Some g => _ | None => _ end)
    as [preprocessed'|e']; [|done].
  destruct (translate_text _ _ _) as [translated|]; [|done].
  destruct (apply_rules _ translated _) as [[translated'|e1] engine2]; [|done].
  by destruct (apply_rules engine2 _ _) as [[final|e2] engine3].
Qed.

(** X10: When the service fails on every request, the answer is the original
    text or the entry of the cache for it. *)
Lemma process_text_service_down (tr : t E) text context :
  (∀ s src tgt, translate_text s src tgt = None) →
  (process_text tr text context).1.1 = text
  ∨ ∃ key, TranslationCache._cache (cache tr) !! key
           = Some (process_text tr text context).1.1.
Proof.
  intros Hdown. unfold process_text.
  destruct (negb (Py.truthy text) || negb (Py.truthy (Py.strip text))); [by left|].
  destruct (TranslationCache.get _ _) as [cached cache1] eqn:Hget.
  destruct cached as [c|].
  - unfold TranslationCache.get in Hget.
    destruct (TranslationCache._cache (cache tr) !! _) eqn:Hc; simplify_eq.
    destruct (Py.truthy c); [right; eauto|].
    destruct (TextProcessor.protect_expressions _ _) as [protected protections].
    destruct (apply_rules _ protected _) as [[preprocessed|e0] engine1]; [|by left].
    cbn [mbind outcome_bind].
    destruct (match glossary_manager _ with Some g => _ | None => _ end); [|by left].
    rewrite Hdown. by left.
  - destruct (TextProcessor.protect_expressions _ _) as [protected protections].
    destruct (apply_rules _ protected _) as [[preprocessed|e0] engine1]; [|by left].
    cbn [mbind outcome_bind].
    destruct (match glossary_manager _ with Some g => _ | None => _ end); [|by left].
    rewrite Hdown. by left.
Qed.
End ProcessText.

(** C1: for every input text and every state of the rule set, the glossary
    and the cache, if the call of the machine-translation service raises
    inside [process_text], then [process_text] returns the original input
    string unchanged (and stores nothing in the cache). *)
Theorem process_text_translation_failure {RE : RegexLib} {SV : Services} {E : Type}
    {ENG : IRuleEngine E} (tr : DeepLTranslator.t E) (text : string)
    (context : option (gmap string string)) :
  (DeepLTranslator.process_text tr text context).2 = Some TranslationError →
  (DeepLTranslator.process_text tr text context).1.1 = text
  ∧ TranslationCache._cache
      (DeepLTranslator.cache (DeepLTranslator.process_text tr text context).1.2)
    = TranslationCache._cache (DeepLTranslator.cache tr).
Proof. apply process_text_caught. Qed.

Lemma process_text_translation_failure_witness :
  (DeepLTranslator.process_text (SV := Examples.services_down) Examples.translator
     " Bolt  Loaded, 2d6 damage" None).2 = Some TranslationError
  ∧ (DeepLTranslator.process_text (SV := Examples.services_down) Examples.translator
       " Bolt  Loaded, 2d6 damage" None).1.1 = " Bolt  Loaded, 2d6 damage".
Proof.
  assert ((DeepLTranslator.process_text (SV := Examples.services_down) Examples.translator
             " Bolt  Loaded, 2d6 damage" None).2 = Some TranslationError) as Hfail
    by (by vm_compute).
  split; [exact Hfail|].
  exact (proj1 (process_text_translation_failure (SV := Examples.services_down)
                  Examples.translator " Bolt  Loaded, 2d6 damage" None Hfail)).
Defined.

(** With a service that echoes its input, the pre-stage rule and the
    post-stage rule are chained, and a second call is served from the
    cache. *)
Lemma rule_chaining_example :
  (DeepLTranslator.process_text (SV := Examples.services_echo)
     Examples.chained_translator "Bolt Loaded" None).1.1 = "Carreau chargé"
  ∧ TranslationCache.hits
      (DeepLTranslator.cache
         (DeepLTranslator.process_text (SV := Examples.services_echo)
            (DeepLTranslator.process_text (SV := Examples.services_echo)
               Examples.chained_translator "Bolt Loaded" None).1.2
            "Bolt Loaded" None).1.2) = 1.
Proof. by vm_compute. Qed.

(** ** The glossary (C7) *)

(** X23: [get_glossary] lists the terms of the glossary by descending
    length, the length of a term being its number of characters. *)
Lemma get_glossary_sorted (_glossary : list (string * string)) :
  GlossaryManager.get_glossary _glossary ≡ₚ _glossary
  ∧ StronglySorted (λ a b, Py.len b.1 ≤ Py.len a.1)
      (GlossaryManager.get_glossary _glossary).
Proof.
  split; [apply sort_desc_perm|].
  eapply StronglySorted_weaken; [|apply sort_desc_sorted].
  - intros a b Hab. unfold before in Hab. by apply Nat.ltb_ge in Hab.
  - intros a b Hab. apply Nat.ltb_ge. apply Nat.ltb_lt in Hab. lia.
  - unfold before. intros a b c ?%Nat.ltb_ge ?%Nat.ltb_ge. apply Nat.ltb_ge. lia.
Qed.

(** A term with accented letters counts by its characters. *)
Lemma get_glossary_example :
  let ee := Py.of_bytes [195; 169; 195; 169] in
  Py.len ee = 2
  ∧ (GlossaryManager.get_glossary [("abc", "1"); (ee, "2"); ("abcd", "3")]).*1
    = ["abcd"; "abc"; ee].
Proof. by vm_compute. Qed.

(** On an object that exposes [get_glossary], the longer term is
    substituted first, whatever the order of insertion. *)
Lemma apply_glossary_longest_first :
  DeepLTranslator._apply_glossary
    (GlossaryManager.WithGetGlossary Examples.armor_glossary) "Heavy Armor wearers"
  = Ok "Armure lourde wearers"
  ∧ DeepLTranslator._apply_glossary
      (GlossaryManager.WithGetGlossary (reverse Examples.armor_glossary))
      "Heavy Armor wearers"
    = Ok "Armure lourde wearers".
Proof. by vm_compute. Qed.

(** C7 (code at the failing input): an instance of the class
    [GlossaryManager] of glossary_manager.py has no [get_glossary], so
    [_apply_glossary] returns its text unchanged; the pipeline of
    translate_mod.py leaves Heavy Armor wearers as it is (here with a
    translation service that echoes its input and no rules). *)
Theorem glossary_of_repository_class_not_applied :
  (∀ (RE : RegexLib) text,
     DeepLTranslator._apply_glossary GlossaryManager.PlainInstance text = Ok text)
  ∧ DeepLTranslator._apply_glossary GlossaryManager.PlainInstance "Heavy Armor wearers"
    = Ok "Heavy Armor wearers"
  ∧ (DeepLTranslator.process_text (SV := Examples.services_echo)
       Examples.translator_with_glossary "Heavy Armor wearers" None).1.1
    = "Heavy Armor wearers".
Proof. split; [done|]. split; [done|]. by vm_compute. Qed.

(** ** No-op observations (C5) *)

Section Observations.
Context {DIFF : DiffLib} {RT : Runtime} {FL : FloatLib}.
Import DynamicRulesManager Learner.

Lemma first_word_difference_same l : first_word_difference l l = None.
Proof. induction l as [|w l IH]; [done|]. simpl. by rewrite String.eqb_refl. Qed.

(** A first observation with the default configuration is accepted and
    recorded as a pending candidate, whatever its texts are. *)
Lemma first_observation_accepted source original improved :
  ∃ c, learn_from_llm_improvement Examples.fresh_manager source original improved float_0_8
       = Ok (true, set_learning_candidates [c] Examples.fresh_manager)
       ∧ source_text c = source ∧ original_translation c = original
       ∧ improved_translation c = improved ∧ frequency c = 1%Z.
Proof.
  unfold learn_from_llm_improvement. cbn [Examples.fresh_manager learning_config
    learning_candidates enabled default_learning_config negb bump_duplicate].
  destruct (_detect_improvement_pattern original improved) as [detected suggested].
  exists (mkCandidate source original improved "llm" float_0_8 1 detected suggested).
  split; [|done].
  cbn. unfold _evaluate_learning_candidates. cbn.
  destruct detected as [p|]; [|done]. cbn.
  destruct (Py.truthy p); cbn; done.
Qed.
End Observations.

(** C5 (code at the failing input): with learning enabled, an observation
    whose refined translation equals the baseline, and one whose refined
    translation is empty, are both accepted: [learn_from_llm_improvement]
    returns [True] and a new learning candidate is pending. *)
Theorem noop_observation_accepted {DIFF : DiffLib} {RT : Runtime} {FL : FloatLib} :
  (∃ c, Learner.learn_from_llm_improvement Examples.fresh_manager
          "Hello" "Bonjour" "Bonjour" float_0_8
        = Ok (true, DynamicRulesManager.set_learning_candidates [c] Examples.fresh_manager)
        ∧ original_translation c = "Bonjour" ∧ improved_translation c = "Bonjour")
  ∧ (∃ c, Learner.learn_from_llm_improvement Examples.fresh_manager
            "Hello" "Bonjour" "" float_0_8
          = Ok (true, DynamicRulesManager.set_learning_candidates [c] Examples.fresh_manager)
          ∧ original_translation c = "Bonjour" ∧ improved_translation c = "").
Proof.
  split.
  - destruct (first_observation_accepted "Hello" "Bonjour" "Bonjour")
      as (c & Hc & _ & ? & ? & _). by exists c.
  - destruct (first_observation_accepted "Hello" "Bonjour" "")
      as (c & Hc & _ & ? & ? & _). by exists c.
Qed.

(** ** The review gate (C9) *)

Section ReviewProofs.
Context {FL : FloatLib} {DT : DateTimeLib} {RT : Runtime}.
Import DynamicRulesManager Review ReviewSpec.

Lemma update_first_none rule rules :
  update_first rule rules = None → Forall (λ r, name r ≠ name rule) rules.
Proof.
  induction rules as [|r rules IH]; simpl; [by constructor|].
  destruct (String.eqb_spec (name r) (name rule)); [done|].
  destruct (update_first rule rules); [done|]. intros _. constructor; auto.
Qed.

Lemma update_first_some rule rules rules' :
  update_first rule rules = Some rules' → updated_in_place rule rules rules'.
Proof.
  revert rules'. induction rules as [|r rules IH]; intros rules'; simpl; [done|].
  destruct (String.eqb_spec (name r) (name rule)) as [Heq|Hne].
  - intros [= <-]. exists [], r, (overwrite_reviewed rule r), rules.
    by repeat split.
  - destruct (update_first rule rules) as [updated|]; [|done].
    intros [= <-]. destruct (IH _ eq_refl) as (l1 & old & new & l2 & -> & -> & Hl1 & ?).
    exists (r :: l1), old, new, l2. split; [done|]. split; [done|].
    split; [by constructor|done].
Qed.

Lemma only_stage_changed_insert st stage l :
  only_stage_changed stage st (set_learned_rules (<[stage := l]> (learned_rules st)) st).
Proof. repeat split. intros s Hs. by apply rules_at_insert_ne. Qed.

(** One iteration of the loop on a well-formed entry has the effect that
    the specification gives to the entry, and counts it. *)
Lemma import_entry_effect st a r e v :
  reads_as e v →
  ∃ st', import_entry (st, a, r) e
         = Continue (st', if is_approved v then S a else a,
                          if is_rejected v then S r else r)
         ∧ entry_effect v st st'.
Proof.
  intros (d & -> & Hv). unfold import_entry, entry_effect.
  destruct v as [rule|rule_name stage|].
  - destruct Hv as [-> ->].
    eexists. split; [reflexivity|]. split; [apply only_stage_changed_insert|].
    cbn [learned_rules set_learned_rules]. rewrite rules_at_insert.
    destruct (update_first _ _) as [updated|] eqn:Hupd.
    + left. by apply update_first_some.
    + right. split; [by apply update_first_none|done].
  - destruct Hv as (-> & -> & ->).
    eexists. split; [reflexivity|]. split; [apply only_stage_changed_insert|].
    cbn [learned_rules set_learned_rules]. rewrite rules_at_insert.
    split; [done|]. apply Forall_forall. by intros x [? _]%list_elem_of_filter.
  - destruct Hv as [Htrue Hfalse]. exists st. split; [|done].
    destruct (Py.dict_get "approved" d) as [[|[|]| | | | |]|]; done.
Qed.

(** An entry that raises ends the loop. *)
Lemma import_entry_raises acc e : raises e → import_entry acc e = Abort.
Proof.
  destruct acc as [[st a] r]. unfold raises, import_entry.
  destruct e as [| | | | | |d]; try done.
  intros [[-> Hfrom]|[-> Hkeys]].
  - destruct Hfrom as [[k ->]| ->]; done.
  - destruct Hkeys as [->|[Hstage|(Hname & x & -> & Hx)]]; [done| |].
    + rewrite Hstage. by destruct (Py.dict_get "name" d) as [[]|].
    + destruct Hname as [n ->]. by destruct x, n.
Qed.

Lemma import_loop_processed good parsed rest st a r :
  Forall2 reads_as good parsed →
  ∃ st', processed parsed st st'
         ∧ import_loop (good ++ rest) (st, a, r)
           = import_loop rest
               (st', a + length (filter (λ v, is_approved v = true) parsed),
                     r + length (filter (λ v, is_rejected v = true) parsed)).
Proof.
  intros Hgood. revert st a r.
  induction Hgood as [|e v good parsed Hev _ IH]; intros st a r.
  - exists st. simpl. rewrite !Nat.add_0_r. split; [constructor|done].
  - destruct (import_entry_effect st a r e v Hev) as (st1 & Hstep & Heff).
    cbn [app import_loop]. rewrite Hstep.
    destruct (IH st1 (if is_approved v then S a else a)
                (if is_rejected v then S r else r)) as (st' & Hproc & ->).
    exists st'. split; [by econstructor|].
    rewrite !filter_cons. do 2 f_equal; [f_equal|].
    + destruct (is_approved v); [rewrite decide_True by done|rewrite decide_False by done];
        simpl; lia.
    + destruct (is_rejected v); [rewrite decide_True by done|rewrite decide_False by done];
        simpl; lia.
Qed.
End ReviewProofs.

(** C9 (amended): [import_reviewed_rules] processes the entries of the
    review file in order, as far as they are well formed.  An approved
    entry updates the first learned rule of the same name in its stage on
    exactly the fields pattern, replacement, description and confidence, or
    appends the rule when the stage has no rule of that name; a rejected
    entry removes every rule of that name from its stage; a pending entry
    changes nothing.  When every entry is well formed, the returned value
    is the number of approved entries, and persistence (with its eviction)
    runs exactly when an entry was approved or rejected.  An entry that
    raises ends the import: the entries before it stay applied, 0 is
    returned and nothing is persisted. *)
Theorem import_reviewed_rules_spec {FL : FloatLib} {DT : DateTimeLib} {RT : Runtime}
    (st : DynamicRulesManager.t) (data : list (string * json))
    (good rest : list json) (parsed : list ReviewSpec.verdict) :
  let n_approved := length (filter (λ v, ReviewSpec.is_approved v = true) parsed) in
  let n_rejected := length (filter (λ v, ReviewSpec.is_rejected v = true) parsed) in
  Py.dict_get "rules_for_review" data = Some (JArray (good ++ rest)) →
  Forall2 ReviewSpec.reads_as good parsed →
  match rest with
  | [] => True
  | bad :: _ => ReviewSpec.raises bad
  end →
  ∃ st',
    ReviewSpec.processed parsed st st'
    ∧ Review.import_reviewed_rules st (Some (JObject data))
      = Some (match rest with
              | [] =>
                  (n_approved,
                   if bool_decide (0 < n_approved ∨ 0 < n_rejected)
                   then (Learner.save_learned_rules st').1 else st')
              | _ :: _ => (0, st')
              end).
Proof.
  intros n_approved n_rejected Hdata Hgood Hrest.
  destruct (import_loop_processed good parsed rest st 0 0 Hgood) as (st' & Hproc & Hloop).
  exists st'. split; [done|].
  unfold Review.import_reviewed_rules. rewrite Hdata, Hloop. simpl.
  fold n_approved n_rejected.
  destruct rest as [|bad rest'].
  - cbn [Review.import_loop].
    destruct (Nat.ltb_spec 0 n_approved), (Nat.ltb_spec 0 n_rejected);
      simpl; case_bool_decide; try done; lia.
  - cbn [Review.import_loop]. by rewrite (import_entry_raises _ _ Hrest).
Qed.

Lemma import_reviewed_rules_spec_witness :
  let parsed :=
    [ ReviewSpec.Approved
        (mkRule "first" "x" "better" "" "post_translation" float_0_9 0 1
           (Some "2025-01-01T12:00:00") None);
      ReviewSpec.Rejected "second" "post_translation" ] in
  (Py.dict_get "rules_for_review" [("rules_for_review", JArray Examples.review_entries)]
   = Some (JArray (Examples.review_entries ++ []))
   ∧ Forall2 (ReviewSpec.reads_as (DT := Examples.iso_seconds) (RT := Examples.runtime))
       Examples.review_entries parsed)
  ∧ ∃ st',
      ReviewSpec.processed parsed Examples.reviewed_manager st'
      ∧ Review.import_reviewed_rules (DT := Examples.iso_seconds) (RT := Examples.runtime)
          Examples.reviewed_manager (Some Examples.review_file)
        = Some (1, (Learner.save_learned_rules st').1).
Proof.
  intros parsed.
  assert (Py.dict_get "rules_for_review"
            [("rules_for_review", JArray Examples.review_entries)]
          = Some (JArray (Examples.review_entries ++ []))) as Hdata by reflexivity.
  assert (Forall2 (ReviewSpec.reads_as (DT := Examples.iso_seconds) (RT := Examples.runtime))
            Examples.review_entries parsed) as Hgood.
  { apply Forall2_cons_2; [|apply Forall2_cons_2; [|apply Forall2_nil_2]].
    - eexists. split; [reflexivity|]. split; by vm_compute.
    - eexists. split; [reflexivity|]. split_and!; by vm_compute. }
  split; [by split|].
  exact (import_reviewed_rules_spec (FL := Binary64.float_lib)
           (DT := Examples.iso_seconds) (RT := Examples.runtime)
           Examples.reviewed_manager _ Examples.review_entries [] parsed Hdata Hgood I).
Defined.

(** C9, as stated, fails: the second entry of the review file is approved
    but has no pattern, [Rule.from_dict] raises [KeyError] on it, and the
    [except] clause of [import_reviewed_rules] returns 0.  The first entry,
    approved, has been applied by then (the replacement of the rule first
    is the one of the review), so the returned value is not the number of
    approved entries applied; and nothing is persisted: the stage, capped
    at one rule, still holds its two rules. *)
Lemma import_counterexample :
  match Review.import_reviewed_rules (DT := Examples.iso_seconds) (RT := Examples.runtime)
          Examples.reviewed_manager_capped (Some Examples.review_file_without_pattern) with
  | Some (returned, st') =>
      returned = 0
      ∧ (λ r, (name r, replacement r))
          <$> rules_at (DynamicRulesManager.learned_rules st') "post_translation"
        = [("first", "better"); ("second", "y")]
      ∧ max_learned_rules (DynamicRulesManager.learning_config st') = 1
  | None => False
  end.
Proof. by vm_compute. Qed.

(** X22: importing a review file that was just exported, with every
    entry still pending, approves nothing and leaves the rule set, the
    candidates and the configuration as they are. *)
Lemma import_of_export {FL : FloatLib} {DT : DateTimeLib} {RT : Runtime} st :
  Review.import_reviewed_rules st (Some (Review.export_rules_for_review st)) = Some (0, st).
Proof.
  unfold Review.import_reviewed_rules, Review.export_rules_for_review.
  cbn [Py.dict_get String.eqb Ascii.eqb Bool.eqb andb].
  set (entries := _ ≫= _).
  assert (Forall (λ e, ∀ acc, Review.import_entry acc e = Review.Continue acc) entries)
    as Hpending.
  { apply Forall_forall. intros e He. subst entries.
    apply list_elem_of_bind in He as ([s rules] & He & _).
    apply list_elem_of_fmap in He as (rule & -> & _). by intros [[st0 a] r]. }
  assert (∀ acc, Review.import_loop entries acc = Some (Some acc, acc.1.1)) as ->; [|done].
  induction Hpending as [|e entries He _ IH]; intros acc; [done|].
  cbn [Review.import_loop]. by rewrite He.
Qed.

(** The review of two rules: the approved one is updated in place and keeps
    its usage count, the rejected one is removed, and one approval is
    returned. *)
Lemma review_example :
  match Review.import_reviewed_rules (DT := Examples.iso_seconds) (RT := Examples.runtime)
          Examples.reviewed_manager (Some Examples.review_file) with
  | Some (returned, st') =>
      returned = 1
      ∧ rules_at (DynamicRulesManager.learned_rules st') "post_translation"
        = [mkRule "first" "x" "better" "" "post_translation" float_0_9 4 1 None None]
  | None => False
  end.
Proof. by vm_compute. Qed.

(** ** Rule objects and their slots *)

Section Slots.
Import DynamicRulesManager.

Lemma rules_at_alter (g : list Rule → list Rule) (d : gmap string (list Rule)) s s' :
  g [] = [] →
  rules_at (alter g s d) s' = if decide (s = s') then g (rules_at d s) else rules_at d s'.
Proof.
  intros Hg. unfold rules_at. case_decide as Hs.
  - subst. rewrite lookup_alter_eq. by destruct (d !! s').
  - by rewrite lookup_alter_ne.
Qed.

Lemma mod_rules_alter (h : gmap string (list Rule) → gmap string (list Rule))
    (d : gmap string (gmap string (list Rule))) m m' :
  h ∅ = ∅ →
  default ∅ (alter h m d !! m') = if decide (m = m') then h (default ∅ (d !! m)) else default ∅ (d !! m').
Proof.
  intros Hh. case_decide as Hm.
  - subst. rewrite lookup_alter_eq. by destruct (d !! m').
  - by rewrite lookup_alter_ne.
Qed.

(** The rules of a partition after a mutation of one object. *)
Lemma partition_rules_update st stage sl f p s :
  partition_rules (update_rule stage sl f st) p s
  = if decide (sl.1 = p ∧ stage = s) then alter f sl.2 (partition_rules st p s)
    else partition_rules st p s.
Proof.
  destruct sl as [q i]. unfold update_rule. cbn [fst snd].
  destruct q as [| |m], p as [| |m']; cbn [partition_rules base_rules learned_rules
    mod_specific_rules set_base_rules set_learned_rules set_mod_specific_rules];
    try (rewrite decide_False by (intros [? _]; done); done).
  - rewrite rules_at_alter by done.
    destruct (decide (stage = s)) as [->|Hs];
      [by rewrite decide_True by (by split)|by rewrite decide_False by (intros [_ ?]; done)].
  - rewrite rules_at_alter by done.
    destruct (decide (stage = s)) as [->|Hs];
      [by rewrite decide_True by (by split)|by rewrite decide_False by (intros [_ ?]; done)].
  - rewrite mod_rules_alter by apply alter_empty.
    destruct (decide (m = m')) as [->|Hm].
    + rewrite rules_at_alter by done.
      destruct (decide (stage = s)) as [->|Hs];
      [by rewrite decide_True by (by split)|by rewrite decide_False by (intros [_ ?]; done)].
    + rewrite decide_False by (intros [[=] _]; done). done.
Qed.

Lemma deref_update_same st stage sl f :
  deref (update_rule stage sl f st) stage sl = f <$> deref st stage sl.
Proof.
  unfold deref. rewrite partition_rules_update, decide_True by done.
  apply list_lookup_alter_eq.
Qed.

Lemma deref_update_other st stage sl f s sl' :
  s ≠ stage ∨ sl' ≠ sl →
  deref (update_rule stage sl f st) s sl' = deref st s sl'.
Proof.
  intros Hne. unfold deref. rewrite partition_rules_update.
  case_decide as Hd; [|done]. destruct Hd as [Hp ->].
  apply list_lookup_alter_ne. intros Hi. destruct Hne as [?|Hne]; [done|].
  apply Hne. destruct sl, sl'; simpl in *; congruence.
Qed.

Lemma frame_alter f i (l : list Rule) :
  (∀ r, frame (f r) = frame r) → frame <$> alter f i l = frame <$> l.
Proof.
  intros Hf. revert i. induction l as [|r l IH]; intros [|i]; simpl; [done..| |].
  - by rewrite Hf.
  - f_equal. apply IH.
Qed.

Lemma frame_update st stage sl f p s :
  (∀ r, frame (f r) = frame r) →
  frame <$> partition_rules (update_rule stage sl f st) p s
  = frame <$> partition_rules st p s.
Proof.
  intros Hf. rewrite partition_rules_update. case_decide; [|done].
  by apply frame_alter.
Qed.

Lemma update_rule_rest st stage sl f :
  learning_candidates (update_rule stage sl f st) = learning_candidates st
  ∧ learning_config (update_rule stage sl f st) = learning_config st.
Proof. unfold update_rule. by destruct sl as [[| |m] i]. Qed.

Lemma deref_tagged st stage p i r :
  (tagged p (partition_rules st p stage)) !! i = Some ((p, i), r) ↔
  deref st stage (p, i) = Some r.
Proof.
  unfold tagged, deref. rewrite list_lookup_imap. cbn [fst snd].
  destruct (partition_rules st p stage !! i); simpl; naive_solver.
Qed.

Lemma elem_of_tagged p l sl r :
  (sl, r) ∈ tagged p l → sl.1 = p ∧ l !! sl.2 = Some r.
Proof.
  unfold tagged. intros (i & x & [= -> ->] & Hx)%elem_of_lookup_imap. done.
Qed.

Lemma NoDup_tagged p l : NoDup (tagged p l).*1.
Proof.
  apply NoDup_alt. intros i j sl Hi Hj.
  rewrite list_lookup_fmap in Hi, Hj. unfold tagged in Hi, Hj.
  rewrite list_lookup_imap in Hi, Hj.
  destruct (l !! i), (l !! j); simplify_eq/=. done.
Qed.
End Slots.

(** ** The loop of [apply_rules] (C6, C10) *)

Section ApplyProofs.
Context {RE : RegexLib} {FL : FloatLib}.
Import DynamicRulesManager.

Lemma frame_bump_usage r : frame (bump_usage r) = frame r.
Proof. reflexivity. Qed.

Lemma frame_penalize r : frame (penalize r) = frame r.
Proof. reflexivity. Qed.

Lemma frame_apply_effect e r : frame (apply_effect e r) = frame r.
Proof. by destruct e. Qed.

Lemma update_rule_id stage sl st : update_rule stage sl (λ r, r) st = st.
Proof.
  destruct st, sl as [[| |m] i];
    unfold update_rule, set_base_rules, set_learned_rules, set_mod_specific_rules;
    simpl; f_equal.
  - apply alter_id. intros l _. by apply list_alter_id.
  - apply alter_id. intros l _. by apply list_alter_id.
  - apply alter_id. intros d _. apply alter_id. intros l _. by apply list_alter_id.
Qed.

(** One iteration of the loop, in terms of the effect of the rule. *)
Lemma apply_loop_cons stage sl rule rules text st :
  apply_loop stage ((sl, rule) :: rules) text st
  = match (rule_effect rule text).2 with
    | Ok t =>
        apply_loop stage rules t
          (update_rule stage sl (apply_effect (rule_effect rule text).1) st)
    | Raise e => (Raise e, st)
    end.
Proof.
  cbn [apply_loop]. unfold rule_effect.
  destruct (re_sub (pattern rule) (replacement rule) text) as [new|e].
  - cbn [fst snd]. destruct (String.eqb text new); [|done].
    cbn [apply_effect]. by rewrite update_rule_id.
  - by destruct e.
Qed.

Lemma effects_cons sl rule rules o :
  effects ((sl, rule) :: rules) o
  = let x := match o with
             | Ok t => rule_effect rule t
             | Raise e => (NotReached, Raise e)
             end in
    (x.1 :: (effects rules x.2).1, (effects rules x.2).2).
Proof.
  cbn [effects]. destruct (match o with Ok t => _ | Raise e => _ end) as [e o1].
  cbn [fst snd]. by destruct (effects rules o1).
Qed.

(** After an exception no rule is reached. *)
Lemma effects_raise rules x :
  effects rules (Raise x) = (replicate (length rules) NotReached, Raise x).
Proof.
  induction rules as [|[sl rule] rules IH]; [done|].
  rewrite effects_cons. cbn zeta. cbn [fst snd]. by rewrite IH.
Qed.

(** The effect of a rule tells whether the application goes on. *)
Lemma rule_effect_cases rule text :
  (∃ t, (rule_effect rule text).2 = Ok t
        ∧ (rule_effect rule text).1 ≠ Aborted ∧ (rule_effect rule text).1 ≠ NotReached)
  ∨ (∃ x, rule_effect rule text = (Aborted, Raise x)).
Proof.
  unfold rule_effect.
  destruct (re_sub (pattern rule) (replacement rule) text) as [new|e].
  - left. exists new. by destruct (String.eqb text new).
  - destruct e; first [left; by eexists|right; by eexists].
Qed.


(** The loop keeps the partitions in shape. *)
Lemma apply_loop_frame stage rules text st p s :
  frame <$> partition_rules (apply_loop stage rules text st).2 p s
  = frame <$> partition_rules st p s.
Proof.
  revert text st. induction rules as [|[sl rule] rules IH]; intros text st; [done|].
  rewrite apply_loop_cons. destruct (rule_effect rule text).2 as [t|x]; [|done].
  rewrite IH. apply frame_update, frame_apply_effect.
Qed.

Lemma apply_loop_rest stage rules text st :
  learning_candidates (apply_loop stage rules text st).2 = learning_candidates st
  ∧ learning_config (apply_loop stage rules text st).2 = learning_config st.
Proof.
  revert text st. induction rules as [|[sl rule] rules IH]; intros text st; [done|].
  rewrite apply_loop_cons. destruct (rule_effect rule text).2 as [t|x]; [|done].
  destruct (IH t (update_rule stage sl (apply_effect (rule_effect rule text).1) st))
    as [-> ->].
  apply update_rule_rest.
Qed.

(** Objects outside the list are not touched. *)
Lemma apply_loop_untouched stage rules text st s sl :
  s ≠ stage ∨ sl ∉ rules.*1 →
  deref (apply_loop stage rules text st).2 s sl = deref st s sl.
Proof.
  revert text st. induction rules as [|[sl0 rule] rules IH]; intros text st Hout; [done|].
  rewrite apply_loop_cons. destruct (rule_effect rule text).2 as [t|x]; [|done].
  rewrite IH.
  - apply deref_update_other. destruct Hout as [?|Hout]; [by left|right].
    intros ->. apply Hout. rewrite fmap_cons. apply elem_of_cons. by left.
  - destruct Hout as [?|Hout]; [by left|right].
    intros Hin. apply Hout. rewrite fmap_cons. apply elem_of_cons. by right.
Qed.

(** Each object of the list ends with the effect of its rule, and with no
    other change. *)
Lemma apply_loop_deref stage rules text st k sl r e :
  NoDup rules.*1 →
  rules !! k = Some (sl, r) → deref st stage sl = Some r →
  (effects rules (Ok text)).1 !! k = Some e →
  deref (apply_loop stage rules text st).2 stage sl = Some (apply_effect e r).
Proof.
  revert text st k.
  induction rules as [|[sl0 rule] rules IH]; intros text st k Hnd Hk Hsl He; [done|].
  rewrite fmap_cons in Hnd. apply NoDup_cons in Hnd as [Hsl0 Hnd].
  rewrite apply_loop_cons. rewrite effects_cons in He. cbn zeta in He. cbn [fst snd] in He.
  destruct (rule_effect_cases rule text) as [(t & Ht & _)|[x Hx]].
  - rewrite Ht in He |- *. destruct k as [|k]; simplify_eq/=.
    + rewrite apply_loop_untouched by (by right).
      by rewrite deref_update_same, Hsl.
    + eapply IH; [done..| |done].
      rewrite deref_update_other; [done|]. right. intros ->.
      apply Hsl0. apply list_elem_of_fmap. exists (sl0, r). split; [done|].
      by eapply list_elem_of_lookup_2.
  - rewrite Hx in He |- *. cbn [fst snd] in He |- *. rewrite effects_raise in He.
    destruct k as [|k]; simplify_eq/=; [done|].
    apply lookup_replicate in He as [-> _]. done.
Qed.

Lemma elem_of_tagged_fst p l sl : sl ∈ (tagged p l).*1 → sl.1 = p.
Proof.
  intros ([sl' r] & -> & Hin)%list_elem_of_fmap.
  by apply elem_of_tagged in Hin as [? _].
Qed.

Lemma NoDup_tagged_app p l (rules : list (slot * Rule)) :
  NoDup rules.*1 → (∀ sl, sl ∈ rules.*1 → sl.1 ≠ p) →
  NoDup (rules ++ tagged p l).*1.
Proof.
  intros Hnd Hp. rewrite fmap_app. apply NoDup_app. split; [done|].
  split; [|apply NoDup_tagged].
  intros sl Hsl Hin. apply elem_of_tagged_fst in Hin. by apply (Hp sl).
Qed.

(** The effective list names each object once, and names it with its
    current value. *)
Lemma applicable_NoDup st stage mod_name :
  NoDup (get_applicable_rules st stage mod_name).*1.
Proof.
  unfold get_applicable_rules. rewrite sort_desc_perm.
  assert (NoDup (tagged Base (partition_rules st Base stage)
                 ++ tagged Learned (partition_rules st Learned stage)).*1) as Hbl.
  { apply NoDup_tagged_app; [apply NoDup_tagged|].
    intros sl Hsl%elem_of_tagged_fst. by rewrite Hsl. }
  destruct mod_name as [m|]; [|done].
  destruct (_ && _); [|done].
  apply NoDup_tagged_app; [done|].
  intros sl Hsl. rewrite fmap_app in Hsl.
  apply elem_of_app in Hsl as [Hsl%elem_of_tagged_fst|Hsl%elem_of_tagged_fst];
    by rewrite Hsl.
Qed.

Lemma applicable_deref st stage mod_name sl r :
  (sl, r) ∈ get_applicable_rules st stage mod_name → deref st stage sl = Some r.
Proof.
  unfold get_applicable_rules. rewrite sort_desc_perm.
  assert (∀ p, (sl, r) ∈ tagged p (partition_rules st p stage) →
               deref st stage sl = Some r) as Htag.
  { intros p [<- Hr]%elem_of_tagged. done. }
  destruct mod_name as [m|]; [destruct (_ && _)|];
    rewrite ?elem_of_app; intuition eauto.
Qed.




End ApplyProofs.




(** The three rules of the example on the text Bolt Loaded: the two rules
    that change the text are counted once, the rule whose pattern does not
    compile is penalised. *)
Lemma apply_rules_example :
  let out := DynamicRulesManager.apply_rules Examples.manager "Bolt Loaded"
               "pre_translation" None in
  out.1 = Ok "Carreau chargé"
  ∧ (λ r, (name r, usage_count r, success_rate r))
      <$> DynamicRulesManager.partition_rules out.2 Base "pre_translation"
    = [("loaded", 1%Z, 1%Q); ("bolt", 1%Z, 1%Q)]
  ∧ (λ r, (name r, usage_count r, success_rate r))
      <$> DynamicRulesManager.partition_rules out.2 Learned "pre_translation"
    = [("broken", 0%Z, float_0_9)].
Proof. by vm_compute. Qed.

(** C10: applying rules never adds, removes or reorders the rules of a
    partition and never assigns to name, pattern, replacement, description,
    stage, confidence, creation date or owner of a rule; the candidates and
    the configuration stay as they are, also when the application is left
    with an exception.  A rule outside the effective list (or any rule when
    the text is empty) is left untouched; a rule of the effective list has
    its usage count incremented exactly when its substitution changed the
    text it was applied to, and its success rate multiplied by 0.9 exactly
    when its substitution raised [re.error]; a rule whose substitution
    raised another exception, and the rules after it, which are not
    reached, are left as they are. *)
Theorem apply_rules_frame {RE : RegexLib} {FL : FloatLib} (st : DynamicRulesManager.t)
    (text stage : string) (mod_name : option string) :
  let rules := DynamicRulesManager.get_applicable_rules st stage mod_name in
  let st' := (DynamicRulesManager.apply_rules st text stage mod_name).2 in
  (∀ p s, frame <$> DynamicRulesManager.partition_rules st' p s
          = frame <$> DynamicRulesManager.partition_rules st p s)
  ∧ DynamicRulesManager.learning_candidates st' = DynamicRulesManager.learning_candidates st
  ∧ DynamicRulesManager.learning_config st' = DynamicRulesManager.learning_config st
  ∧ (∀ s sl, s ≠ stage ∨ sl ∉ rules.*1 ∨ Py.truthy text = false →
             DynamicRulesManager.deref st' s sl = DynamicRulesManager.deref st s sl)
  ∧ (Py.truthy text = true →
     ∀ k sl r e, rules !! k = Some (sl, r) → (effects rules (Ok text)).1 !! k = Some e →
       ∃ r', DynamicRulesManager.deref st' stage sl = Some r'
             ∧ frame r' = frame r
             ∧ usage_count r' = (if e is Changed then usage_count r + 1 else usage_count r)%Z
             ∧ success_rate r'
               = (if e is Failed then fmul (success_rate r) float_0_9 else success_rate r)).
Proof.
  intros rules st'. subst st'. unfold DynamicRulesManager.apply_rules.
  destruct (Py.truthy text) eqn:Htext; cbn [snd].
  - split; [intros p s; apply apply_loop_frame|].
    split; [apply apply_loop_rest|]. split; [apply apply_loop_rest|].
    split.
    + intros s sl [?|[?|?]]; [| |done]; apply apply_loop_untouched; auto.
    + intros _ k sl r e Hk He. exists (apply_effect e r).
      split; [|by destruct e].
      eapply apply_loop_deref; [apply applicable_NoDup|done| |done].
      eapply applicable_deref. by eapply list_elem_of_lookup_2.
  - by repeat split.
Qed.

(** ** Promotion of learning candidates (C3) *)

Section Promotion.
Context {RT : Runtime} {FL : FloatLib}.
Import DynamicRulesManager Learner.










End Promotion.



(** With the default configuration, three candidates observed once with
    confidence 0.9 for one pattern give exactly one new rule, in the
    post_translation stage, with the weighted average 0.9 as confidence, and
    are consumed; two such candidates give no rule and stay pending. *)
Lemma three_candidates_one_rule_two_none :
  match Learner._evaluate_learning_candidates (RT := Examples.runtime)
          PromotionExamples.three with
  | Ok st' =>
      (λ r, (stage r, pattern r, replacement r, confidence r))
        <$> rules_at (DynamicRulesManager.learned_rules st') "post_translation"
      = [("post_translation", "\bgreve\b", "frappe", float_0_9)]
      ∧ DynamicRulesManager.learning_candidates st' = []
  | Raise _ => False
  end
  ∧ Learner._evaluate_learning_candidates (RT := Examples.runtime) PromotionExamples.two
    = Ok PromotionExamples.two.
Proof. by vm_compute. Qed.

(** The average is the one that the floats give: a candidate observed once
    with confidence 0.6 and one observed twice with confidence 0.9 have the
    exact average 0.8, but the floats give 0.7999999999999999, below the
    threshold 0.8, and no rule is created. *)
Lemma promotion_rounding_example :
  claimed_average (FL := Binary64.float_lib) (DynamicRulesManager.learning_candidates
                                                PromotionExamples.rounded)
  = 7205759403792793 # 9007199254740992
  ∧ Qle_bool float_0_8
      (claimed_average (FL := Binary64.float_lib)
         (DynamicRulesManager.learning_candidates PromotionExamples.rounded)) = false
  ∧ Learner._evaluate_learning_candidates (RT := Examples.runtime) PromotionExamples.rounded
    = Ok PromotionExamples.rounded.
Proof. by vm_compute. Qed.

(** The same through the learner, with three observations of the same
    correction in different texts: no rule after the second observation,
    one rule after the third, and no candidate left. *)
Lemma three_observations_one_rule :
  let learn st source :=
    match st with
    | Ok (_, st) =>
        Learner.learn_from_llm_improvement (DIFF := Examples.whole_text_diff)
          (RT := Examples.runtime) st source
          ("une grande greve " +:+ source) ("une grande frappe " +:+ source) float_0_9
    | Raise e => Raise e
    end in
  let summary st :=
    match st with
    | Ok (accepted, st) =>
        Some (accepted,
              pattern <$> rules_at (DynamicRulesManager.learned_rules st) "post_translation",
              length (DynamicRulesManager.learning_candidates st))
    | Raise _ => None
    end in
  summary (learn (learn (Ok (true, Examples.fresh_manager)) "a") "b")
  = Some (true, [], 2)
  ∧ summary (learn (learn (learn (Ok (true, Examples.fresh_manager)) "a") "b") "c")
    = Some (true, ["\bgreve\b"], 0).
Proof. by vm_compute. Qed.

(** When the stage is full, the rule of a qualifying group is created and
    evicted at once by the persistence that follows its creation: the
    candidates are consumed and the stage holds the rules it held. *)
Lemma promotion_into_full_stage :
  match Learner._evaluate_learning_candidates (RT := Examples.runtime)
          PromotionExamples.three_full_stage with
  | Ok st' =>
      name <$> rules_at (DynamicRulesManager.learned_rules st') "post_translation"
      = ["high"; "used"]
      ∧ DynamicRulesManager.learning_candidates st' = []
  | Raise _ => False
  end.
Proof. by vm_compute. Qed.


(** * Further properties of the code *)

(** ** Placeholders and the dice pattern *)

Lemma restore_leaves_other_placeholder_witness :
  ¬ (0 = 0 ∧ 10 = 1)
  ∧ Py.replace (TextProcessor.placeholder 0 10) (TextProcessor.placeholder 0 1) "2d6"
    = TextProcessor.placeholder 0 10.
Proof.
  assert (¬ (0 = 0 ∧ 10 = 1)) as Hne by (intros [_ ?]; discriminate).
  split; [exact Hne|]. exact (restore_leaves_other_placeholder 0 1 0 10 "2d6" Hne).
Defined.

Lemma restore_protect_dice_witness :
  has_char "_" "Deal 1d4 + 2 now, then 2D6" = false
  ∧ TextProcessor.restore_expressions
      (TextProcessor.protect_expressions "Deal 1d4 + 2 now, then 2D6"
         [TextProcessor.DICE_PATTERN]).1
      (TextProcessor.protect_expressions "Deal 1d4 + 2 now, then 2D6"
         [TextProcessor.DICE_PATTERN]).2
    = "Deal 1d4 + 2 now, then 2D6".
Proof.
  split; [reflexivity|]. apply (restore_protect_dice "Deal 1d4 + 2 now, then 2D6").
  reflexivity.
Defined.

(** ** The protections recorded by [protect_expressions] *)

Section Protections.
Context {RE : RegexLib}.
Import TextProcessor.

Lemma recorded_before_later i j i2 j2 d :
  i < i2 ∨ (i = i2 ∧ j ≤ j2) → recorded_before i j d → recorded_before i2 j2 d.
Proof.
  intros Hle [Hnd Hkeys]. split; [done|]. intros k Hin.
  destruct (Hkeys k Hin) as (i' & j' & -> & Ho). exists i', j'.
  split; [done|]. unfold older in *. lia.
Qed.

Lemma recorded_before_set i j m d :
  recorded_before i j d →
  Py.dict_set (placeholder i j) m d = d ++ [(placeholder i j, m)]
  ∧ recorded_before i (S j) (d ++ [(placeholder i j, m)]).
Proof.
  intros [Hnd Hkeys].
  assert (placeholder i j ∉ d.*1) as Hfresh.
  { intros Hin. destruct (Hkeys _ Hin) as (i' & j' & [-> ->]%placeholder_inj & Ho).
    unfold older in Ho. lia. }
  split; [by apply dict_set_fresh|]. split.
  - rewrite fmap_app. apply NoDup_app. split_and!; [done| |apply NoDup_singleton].
    intros k Hk ->%list_elem_of_singleton. done.
  - intros k. rewrite fmap_app. intros [Hin|Hin]%elem_of_app.
    + destruct (Hkeys k Hin) as (i' & j' & -> & Ho). exists i', j'.
      split; [done|]. unfold older in *. lia.
    + apply list_elem_of_singleton in Hin as ->. exists i, j.
      split; [done|]. unfold older. lia.
Qed.

Lemma protect_matches_entries i j matches acc :
  recorded_before i j acc.2 →
  (protect_matches i j matches acc).2
  = acc.2 ++ imap (λ n m, (placeholder i (j + n), m)) matches
  ∧ recorded_before i (j + length matches) (protect_matches i j matches acc).2.
Proof.
  revert j acc. induction matches as [|m ms IH]; intros j acc Hacc.
  - simpl. rewrite app_nil_r, Nat.add_0_r. done.
  - cbn [protect_matches].
    destruct (recorded_before_set i j m acc.2 Hacc) as [Hset Hnext].
    destruct (IH (S j) (Py.replace acc.1 m (placeholder i j),
                        Py.dict_set (placeholder i j) m acc.2)) as [Heq Hrec].
    { cbn [snd]. by rewrite Hset. }
    split.
    + rewrite Heq. cbn [snd]. rewrite Hset, <-app_assoc. f_equal.
      cbn [imap app]. rewrite Nat.add_0_r. f_equal.
      apply imap_ext. intros n x _. simpl. f_equal. f_equal. lia.
    + cbn [length]. by replace (j + S (length ms)) with (S j + length ms) by lia.
Qed.

Lemma protect_patterns_entries i patterns text acc :
  recorded_before i 0 acc.2 →
  (protect_patterns i patterns text acc).2
  = acc.2 ++ mjoin (imap (λ n p, imap (λ j m, (placeholder (i + n) j, m)) (findall p text))
                      patterns)
  ∧ NoDup (protect_patterns i patterns text acc).2.*1.
Proof.
  revert i acc. induction patterns as [|p ps IH]; intros i acc Hacc.
  - simpl. rewrite app_nil_r. split; [done|]. apply Hacc.
  - cbn [protect_patterns].
    destruct (protect_matches_entries i 0 (findall p text) acc Hacc) as [Heq Hrec].
    destruct (IH (S i) (protect_matches i 0 (findall p text) acc)) as [Heq' Hnd].
    { eapply recorded_before_later; [|exact Hrec]. lia. }
    split; [|done].
    rewrite Heq', Heq, <-app_assoc. f_equal.
    cbn [imap mjoin list_join]. rewrite Nat.add_0_r. f_equal. f_equal.
    apply imap_ext. intros n x _. simpl. apply imap_ext. intros j m _. simpl.
    f_equal. f_equal. lia.
Qed.

Lemma entries_values (g : nat → string) (l : list string) :
  (imap (λ j m, (g j, m)) l).*2 = l.
Proof.
  revert g. induction l as [|m l IH]; intros g; [done|].
  cbn [imap fmap list_fmap]. f_equal. apply (IH (g ∘ S)).
Qed.

Lemma joined_entries_values (h : nat → nat → string) (text : string) (ps : list Pattern) :
  (mjoin (imap (λ i p, imap (λ j m, (h i j, m)) (findall p text)) ps)).*2
  = mjoin ((λ p, findall p text) <$> ps).
Proof.
  revert h. induction ps as [|p ps IH]; intros h; [done|].
  cbn [imap mjoin list_join fmap list_fmap]. rewrite fmap_app. f_equal.
  - apply (entries_values (h 0)).
  - apply (IH (h ∘ S)).
Qed.

(** X1: Every match of every pattern gets an entry of its own in the
    protections, in the order of the patterns and of their matches, under the
    placeholder of its pattern index and match index: no entry overwrites
    another, also when a string is matched twice. *)
Theorem protections_one_entry_per_match (text : string) (patterns : list Pattern) :
  (protect_expressions text patterns).2
  = mjoin (imap (λ i p, imap (λ j m, (placeholder i j, m)) (findall p text)) patterns)
  ∧ (protect_expressions text patterns).2.*2 = mjoin ((λ p, findall p text) <$> patterns)
  ∧ NoDup (protect_expressions text patterns).2.*1.
Proof.
  unfold protect_expressions.
  destruct (protect_patterns_entries 0 patterns text (text, [])) as [Heq Hnd].
  { split; [constructor|]. intros k Hin. by apply elem_of_nil in Hin. }
  split; [exact Heq|]. split; [|exact Hnd].
  rewrite Heq. apply (joined_entries_values placeholder).
Qed.
End Protections.

(** ** The order of the applicable rules *)

Lemma filter_fmap_bool {A B} (f : A → B) (P : B → bool) (l : list A) :
  filter (λ b, P b = true) (f <$> l) = f <$> filter (λ a, P (f a) = true) l.
Proof.
  induction l as [|a l IH]; [done|].
  rewrite fmap_cons, !filter_cons, IH. by destruct (decide (P (f a) = true)).
Qed.

Lemma imap_values {A B} (f : nat → B) (l : list A) : (imap (λ i r, (f i, r)) l).*2 = l.
Proof.
  revert f. induction l as [|r l IH]; intros f; [done|].
  cbn [imap fmap list_fmap]. f_equal. apply (IH (f ∘ S)).
Qed.

(** X16: [get_applicable_rules] returns the rules of the base, learned and
    (for a known mod) mod-specific partitions of the stage, each once, by
    descending confidence; rules of equal confidence keep the order base,
    learned, mod-specific, and within a partition the order of the partition. *)
Theorem applicable_rules_sorted (st : DynamicRulesManager.t) (stage : string)
    (mod_name : option string) :
  let merged :=
    DynamicRulesManager.partition_rules st Base stage
    ++ DynamicRulesManager.partition_rules st Learned stage
    ++ match mod_name with
       | Some m =>
           if Py.truthy m
              && bool_decide (is_Some (DynamicRulesManager.mod_specific_rules st !! m))
           then DynamicRulesManager.partition_rules st (ModSpecific m) stage
           else []
       | None => []
       end in
  let rules := (DynamicRulesManager.get_applicable_rules st stage mod_name).*2 in
  rules ≡ₚ merged
  ∧ StronglySorted (λ a b, (confidence b <= confidence a)%Q) rules
  ∧ ∀ c, filter (λ r, Qeq_bool (confidence r) c = true) rules
         = filter (λ r, Qeq_bool (confidence r) c = true) merged.
Proof.
  intros merged rules.
  assert (∀ p l, (DynamicRulesManager.tagged p l).*2 = l) as Htag.
  { intros p l. apply (imap_values (λ i, (p, i))). }
  set (tagged_merged :=
    DynamicRulesManager.tagged Base (DynamicRulesManager.partition_rules st Base stage)
    ++ DynamicRulesManager.tagged Learned
         (DynamicRulesManager.partition_rules st Learned stage)
    ++ match mod_name with
       | Some m =>
           if Py.truthy m
              && bool_decide (is_Some (DynamicRulesManager.mod_specific_rules st !! m))
           then DynamicRulesManager.tagged (ModSpecific m)
                  (DynamicRulesManager.partition_rules st (ModSpecific m) stage)
           else []
       | None => []
       end).
  assert (DynamicRulesManager.get_applicable_rules st stage mod_name
          = Py.sort_desc (λ a b, Qlt_bool (confidence a.2) (confidence b.2)) tagged_merged)
    as Hrules.
  { unfold DynamicRulesManager.get_applicable_rules, tagged_merged.
    destruct mod_name as [m|]; [|by rewrite app_nil_r].
    destruct (Py.truthy m && _); [by rewrite app_assoc|by rewrite app_nil_r]. }
  assert (tagged_merged.*2 = merged) as Hmerged.
  { unfold tagged_merged, merged. rewrite !fmap_app, !Htag. do 2 f_equal.
    destruct mod_name as [m|]; [|done]. destruct (Py.truthy m && _); [apply Htag|done]. }
  subst rules. rewrite Hrules. split; [|split].
  - by rewrite sort_desc_perm, Hmerged.
  - eapply (StronglySorted_fmap snd); [|apply sort_desc_sorted].
    + intros a b Hab. by apply Qlt_bool_false.
    + intros a b. apply Qlt_bool_asym.
    + intros a b c. apply Qlt_bool_before_trans.
  - intros c. rewrite <-Hmerged.
    rewrite !(filter_fmap_bool snd (λ r, Qeq_bool (confidence r) c)). f_equal.
    apply (sort_desc_filter _ (λ a, Qeq_bool (confidence a.2) c)).
    intros x y Hx Hxy. apply not_true_is_false. intros Hy.
    apply Qeq_bool_iff in Hx, Hy. unfold Qlt_bool in Hxy.
    apply negb_true_iff in Hxy. apply not_true_iff_false in Hxy. apply Hxy.
    apply Qle_bool_iff. rewrite Hx, Hy. apply Qle_refl.
Qed.

(** ** Eviction, once more *)

(** X17: The eviction touches the learned rules only, and a second eviction
    changes nothing: saving twice in a row gives the state of the first
    save. *)
Theorem cleanup_idempotent {FL : FloatLib} (st : DynamicRulesManager.t) :
  let st' := Learner._cleanup_learned_rules st in
  Learner._cleanup_learned_rules st' = st'
  ∧ (Learner.save_learned_rules (Learner.save_learned_rules st).1).1
    = (Learner.save_learned_rules st).1
  ∧ DynamicRulesManager.base_rules st' = DynamicRulesManager.base_rules st
  ∧ DynamicRulesManager.mod_specific_rules st' = DynamicRulesManager.mod_specific_rules st
  ∧ DynamicRulesManager.learning_candidates st'
    = DynamicRulesManager.learning_candidates st
  ∧ DynamicRulesManager.learning_config st' = DynamicRulesManager.learning_config st.
Proof.
  intros st'.
  assert (Learner._cleanup_learned_rules st' = st') as Hidem.
  { subst st'. unfold Learner._cleanup_learned_rules, DynamicRulesManager.set_learned_rules.
    cbn. f_equal. rewrite <-map_fmap_compose. apply map_fmap_ext.
    intros stage rules _. cbn. apply cleanup_stage_within.
    rewrite cleanup_stage_length. lia. }
  split; [exact Hidem|]. split; [exact Hidem|]. done.
Qed.

(** ** The plain rule engine *)

Section PlainEngine.
Context {RE : RegexLib}.

Lemma plain_loop_app (rules1 rules2 : list (string * string)) (text : string) :
  RuleEngine.apply_loop (rules1 ++ rules2) text
  = t ← RuleEngine.apply_loop rules1 text; RuleEngine.apply_loop rules2 t.
Proof.
  revert text. induction rules1 as [|[p r] rules1 IH]; intros text; [done|].
  cbn [app RuleEngine.apply_loop].
  destruct (re_sub p r text) as [new|x]; [apply IH|].
  destruct x; first [apply IH|done].
Qed.

(** X7: A rule of [RuleEngine] whose substitution raises [re.error] (on the
    text that the rules before it produce) is skipped: the result is the
    one of the engine without that rule. *)
Theorem plain_engine_skips_failing_rule (e : RuleEngine.t) (text stage : string)
    (rules1 rules2 : list (string * string)) (p r : string) :
  RuleEngine._rules e !! stage = Some (rules1 ++ (p, r) :: rules2) →
  match RuleEngine.apply_rules (RuleEngine.mk (<[stage := rules1]> (RuleEngine._rules e)))
          text stage with
  | Ok text1 => re_sub p r text1 = Raise ReError
  | Raise _ => True
  end →
  RuleEngine.apply_rules e text stage
  = RuleEngine.apply_rules
      (RuleEngine.mk (<[stage := rules1 ++ rules2]> (RuleEngine._rules e))) text stage.
Proof.
  unfold RuleEngine.apply_rules. cbn [RuleEngine._rules].
  intros ->. rewrite !lookup_insert_eq.
  destruct (Py.truthy text); [|done].
  intros Herr. rewrite !plain_loop_app.
  destruct (RuleEngine.apply_loop rules1 text) as [text1|x]; [|done].
  cbn [mbind outcome_bind RuleEngine.apply_loop]. by rewrite Herr.
Qed.

(** X8: A rule added at run time is applied after the rules that its stage
    already holds, also when the stage is new: it is applied to their
    result, skipped when its substitution raises [re.error], and another
    exception of it leaves the function; the other stages are not
    affected. *)
Theorem added_rule_applies_last (e : RuleEngine.t) (stage p r text stage' : string) :
  RuleEngine.apply_rules (RuleEngine.add_rule e stage p r) text stage'
  = if decide (stage' = stage)
    then if Py.truthy text
         then
           before ← RuleEngine.apply_rules e text stage;
           match re_sub p r before with
           | Ok new => Ok new
           | Raise ReError => Ok before
           | Raise x => Raise x
           end
         else Ok text
    else RuleEngine.apply_rules e text stage'.
Proof.
  unfold RuleEngine.apply_rules, RuleEngine.add_rule. cbn [RuleEngine._rules].
  case_decide as Hs.
  - subst. rewrite lookup_insert_eq.
    destruct (Py.truthy text) eqn:Ht; [|done].
    rewrite plain_loop_app.
    assert (RuleEngine.apply_loop (default [] (RuleEngine._rules e !! stage)) text
            = match RuleEngine._rules e !! stage with
              | Some rules => RuleEngine.apply_loop rules text
              | None => Ok text
              end) as -> by (by destruct (RuleEngine._rules e !! stage)).
    destruct (match RuleEngine._rules e !! stage with Some _ => _ | None => _ end)
      as [before|x]; [|done].
    cbn [mbind outcome_bind RuleEngine.apply_loop].
    destruct (re_sub p r before) as [new|x]; [done|]. by destruct x.
  - by rewrite lookup_insert_ne.
Qed.
End PlainEngine.

Lemma plain_engine_skips_failing_rule_witness :
  (RuleEngine._rules
     (RuleEngine.add_rule (RuleEngine.add_rule Examples.chained_engine
                             "pre_translation" "(" "x") "pre_translation" "X" "Y")
     !! "pre_translation"
   = Some ([("Bolt Loaded", "X")] ++ ("(", "x") :: [("X", "Y")])
   ∧ re_sub "(" "x" "X" = Raise ReError)
  ∧ RuleEngine.apply_rules
      (RuleEngine.add_rule (RuleEngine.add_rule Examples.chained_engine
                              "pre_translation" "(" "x") "pre_translation" "X" "Y")
      "Bolt Loaded" "pre_translation" = Ok "Y".
Proof.
  assert (RuleEngine._rules
            (RuleEngine.add_rule (RuleEngine.add_rule Examples.chained_engine
                                    "pre_translation" "(" "x") "pre_translation" "X" "Y")
            !! "pre_translation"
          = Some ([("Bolt Loaded", "X")] ++ ("(", "x") :: [("X", "Y")])) as Hrules
    by (by vm_compute).
  split; [split; [exact Hrules|by vm_compute]|].
  rewrite (plain_engine_skips_failing_rule _ "Bolt Loaded" "pre_translation"
             [("Bolt Loaded", "X")] [("X", "Y")] "(" "x" Hrules); by vm_compute.
Defined.

(** ** The cache of [process_text] *)

Section CachedCalls.
Context {RE : RegexLib} {E : Type} {ENG : IRuleEngine E}.
Import DeepLTranslator.

Lemma truthy_ne s : Py.truthy s = true ↔ s ≠ "".
Proof.
  unfold Py.truthy. rewrite negb_true_iff.
  destruct (String.eqb_spec s ""); split; congruence.
Qed.

(** A text whose cache entry is not empty is answered from the cache,
    whatever the services are. *)
Lemma process_text_hit {SV : Services} (tr : t E) text context v :
  negb (Py.truthy text) || negb (Py.truthy (Py.strip text)) = false →
  TranslationCache._cache (cache tr)
    !! (TextProcessor.normalize_whitespace (TextProcessor.clean_encoding text)
        +:+ "_" +:+ Py.str_of_bool (use_llm_optimization (config tr))) = Some v →
  Py.truthy v = true →
  process_text tr text context
  = (v, set_cache (TranslationCache.mk (TranslationCache._cache (cache tr))
                     (S (TranslationCache.hits (cache tr)))
                     (TranslationCache.misses (cache tr))) tr, None).
Proof.
  intros Hblank Hlook Hv. unfold process_text. rewrite Hblank.
  unfold TranslationCache.get. rewrite Hlook, Hv. done.
Qed.

(** What a call that raised nothing leaves behind: the configuration and the
    glossary as they were, and for a text that is not blank a cache entry
    with the returned string. *)
Lemma process_text_leaves_entry {SV : Services} (tr : t E) text context :
  (process_text tr text context).2 = None →
  config (process_text tr text context).1.2 = config tr
  ∧ (negb (Py.truthy text) || negb (Py.truthy (Py.strip text)) = false →
     TranslationCache._cache (cache (process_text tr text context).1.2)
       !! (TextProcessor.normalize_whitespace (TextProcessor.clean_encoding text)
           +:+ "_" +:+ Py.str_of_bool (use_llm_optimization (config tr)))
     = Some (process_text tr text context).1.1).
Proof.
  unfold process_text.
  destruct (negb (Py.truthy text) || negb (Py.truthy (Py.strip text))) eqn:Hblank; [done|].
  unfold TranslationCache.get.
  destruct (TranslationCache._cache (cache tr) !! _) as [c|] eqn:Hc.
  - destruct (Py.truthy c) eqn:Htc; [by intros _|].
    destruct (TextProcessor.protect_expressions _ _) as [protected protections].
    destruct (apply_rules _ protected _) as [[preprocessed|e0] engine1]; [|done].
    cbn [mbind outcome_bind].
    destruct (match glossary_manager _ with Some g => _ | None => _ end); [|done].
    destruct (translate_text _ _ _) as [translated|]; [|done].
    destruct (apply_rules _ translated _) as [[translated'|e1] engine2]; [|done].
    destruct (apply_rules engine2 _ _) as [[final|e2] engine3]; [|done].
    intros _. split; [done|]. intros _. cbn. apply lookup_insert_eq.
  - destruct (TextProcessor.protect_expressions _ _) as [protected protections].
    destruct (apply_rules _ protected _) as [[preprocessed|e0] engine1]; [|done].
    cbn [mbind outcome_bind].
    destruct (match glossary_manager _ with Some g => _ | None => _ end); [|done].
    destruct (translate_text _ _ _) as [translated|]; [|done].
    destruct (apply_rules _ translated _) as [[translated'|e1] engine2]; [|done].
    destruct (apply_rules engine2 _ _) as [[final|e2] engine3]; [|done].
    intros _. split; [done|]. intros _. cbn. apply lookup_insert_eq.
Qed.

(** X9: After a call that raised nothing and returned a non-empty string, the
    same text is answered with the same string from the cache: neither the
    translation service nor the LLM nor a rule is used again, whatever the
    context. *)
Theorem process_text_repeats_from_cache {SV SV' : Services} (tr : t E) (text : string)
    (context context' : option (gmap string string)) :
  (process_text (SV := SV) tr text context).2 = None →
  (process_text (SV := SV) tr text context).1.1 ≠ "" →
  let first := process_text (SV := SV) tr text context in
  let second := process_text (SV := SV') first.1.2 text context' in
  second.1.1 = first.1.1
  ∧ second.2 = None
  ∧ rule_engine second.1.2 = rule_engine first.1.2
  ∧ TranslationCache._cache (cache second.1.2) = TranslationCache._cache (cache first.1.2).
Proof.
  intros Hnone Hres first second.
  destruct (process_text_leaves_entry tr text context Hnone) as [Hcfg Hentry].
  destruct (negb (Py.truthy text) || negb (Py.truthy (Py.strip text))) eqn:Hblank.
  - subst second first. unfold process_text. rewrite !Hblank. cbn.
    by rewrite ?Hblank.
  - subst second. fold first in Hcfg, Hentry, Hres.
    rewrite (process_text_hit (SV := SV') first.1.2 text context' first.1.1).
    + done.
    + done.
    + rewrite Hcfg. by apply Hentry.
    + by apply truthy_ne.
Qed.
End CachedCalls.

Lemma process_text_repeats_from_cache_witness :
  (DeepLTranslator.process_text (SV := Examples.services_echo) Examples.chained_translator
     "Bolt Loaded" None).2 = None
  ∧ (DeepLTranslator.process_text (SV := Examples.services_echo) Examples.chained_translator
       "Bolt Loaded" None).1.1 ≠ ""
  ∧ (DeepLTranslator.process_text (SV := Examples.services_down)
       (DeepLTranslator.process_text (SV := Examples.services_echo)
          Examples.chained_translator "Bolt Loaded" None).1.2
       "Bolt Loaded" None).1.1
    = (DeepLTranslator.process_text (SV := Examples.services_echo)
         Examples.chained_translator "Bolt Loaded" None).1.1.
Proof.
  assert ((DeepLTranslator.process_text (SV := Examples.services_echo)
             Examples.chained_translator "Bolt Loaded" None).2 = None) as Hnone
    by (by vm_compute).
  assert ((DeepLTranslator.process_text (SV := Examples.services_echo)
             Examples.chained_translator "Bolt Loaded" None).1.1 ≠ "") as Hres
    by (by vm_compute).
  split; [exact Hnone|]. split; [exact Hres|].
  exact (proj1 (process_text_repeats_from_cache (SV := Examples.services_echo)
                  (SV' := Examples.services_down) Examples.chained_translator
                  "Bolt Loaded" None None Hnone Hres)).
Defined.

Lemma process_text_service_down_witness :
  (∀ s src tgt, translate_text (Services := Examples.services_down) s src tgt = None)
  ∧ ((DeepLTranslator.process_text (SV := Examples.services_down) Examples.translator
        "Bolt Loaded" None).1.1 = "Bolt Loaded"
     ∨ ∃ key, TranslationCache._cache (DeepLTranslator.cache Examples.translator) !! key
              = Some (DeepLTranslator.process_text (SV := Examples.services_down)
                        Examples.translator "Bolt Loaded" None).1.1).
Proof.
  assert (∀ s src tgt,
            translate_text (Services := Examples.services_down) s src tgt = None) as Hdown
    by done.
  split; [exact Hdown|].
  exact (process_text_service_down (SV := Examples.services_down) Examples.translator
           "Bolt Loaded" None Hdown).
Defined.

(** ** Mod-specific rules and the pipeline *)

Section ModRules.
Context {RE : RegexLib} {FL : FloatLib}.
Import DynamicRulesManager.

Lemma update_rule_mods mods stage sl f st :
  sl.1 = Base ∨ sl.1 = Learned →
  update_rule stage sl f (set_mod_specific_rules mods st)
  = set_mod_specific_rules mods (update_rule stage sl f st).
Proof. unfold update_rule. destruct sl as [[| |m] i]; by intros [?|?]. Qed.

Lemma apply_loop_mods mods stage rules text st :
  Forall (λ x : slot * Rule, x.1.1 = Base ∨ x.1.1 = Learned) rules →
  apply_loop stage rules text (set_mod_specific_rules mods st)
  = ((apply_loop stage rules text st).1,
     set_mod_specific_rules mods (apply_loop stage rules text st).2).
Proof.
  intros Hall. revert text st.
  induction Hall as [|[sl rule] rules Hsl _ IH]; intros text st; [done|].
  cbn [apply_loop]. cbn [fst] in Hsl.
  destruct (re_sub (pattern rule) (replacement rule) text) as [new|x].
  - destruct (String.eqb text new); [apply IH|].
    rewrite update_rule_mods by done. apply IH.
  - destruct x; first [rewrite update_rule_mods by done; apply IH|done].
Qed.

Lemma applicable_without_mod st stage :
  Forall (λ x : slot * Rule, x.1.1 = Base ∨ x.1.1 = Learned)
    (get_applicable_rules st stage None).
Proof.
  unfold get_applicable_rules. rewrite sort_desc_perm. apply Forall_app. split.
  - apply Forall_forall. intros [sl r] [Hsl _]%elem_of_tagged. by left.
  - apply Forall_forall. intros [sl r] [Hsl _]%elem_of_tagged. by right.
Qed.

(** The rule engine of the pipeline is called without a mod name: the
    mod-specific rules are neither applied nor touched. *)
Lemma apply_rules_without_mod mods st text stage :
  apply_rules (set_mod_specific_rules mods st) text stage None
  = ((apply_rules st text stage None).1,
     set_mod_specific_rules mods (apply_rules st text stage None).2).
Proof.
  unfold apply_rules. destruct (Py.truthy text); [|done].
  change (get_applicable_rules (set_mod_specific_rules mods st) stage None)
    with (get_applicable_rules st stage None).
  apply apply_loop_mods, applicable_without_mod.
Qed.
End ModRules.

Section PipelineMods.
Context {RE : RegexLib} {SV : Services} {FL : FloatLib}.
Import DeepLTranslator.

(** X11: [process_text] over a [DynamicRulesManager] gives the same string and
    the same outcome whatever mod-specific rules are loaded: the translation
    pipeline never applies a mod-specific rule. *)
Theorem process_text_ignores_mod_rules (tr : t DynamicRulesManager.t)
    (mods : gmap string (gmap string (list Rule))) (text : string)
    (context : option (gmap string string)) :
  let with_mods :=
    process_text
      (set_rule_engine (DynamicRulesManager.set_mod_specific_rules mods (rule_engine tr)) tr)
      text context in
  let without := process_text tr text context in
  with_mods.1.1 = without.1.1
  ∧ with_mods.2 = without.2
  ∧ cache with_mods.1.2 = cache without.1.2
  ∧ rule_engine with_mods.1.2
    = DynamicRulesManager.set_mod_specific_rules mods (rule_engine without.1.2).
Proof.
  intros with_mods without. subst with_mods without.
  destruct tr as [cfg st gm c]. unfold process_text, set_rule_engine, set_cache.
  cbn [config rule_engine glossary_manager cache].
  destruct (negb (Py.truthy text) || negb (Py.truthy (Py.strip text))); [done|].
  destruct (TranslationCache.get c _) as [cached cache1].
  destruct (match cached with Some c0 => _ | None => _ end); [done|].
  destruct (TextProcessor.protect_expressions _ _) as [protected protections].
  cbn [apply_rules DynamicRulesManager_engine].
  rewrite apply_rules_without_mod.
  destruct (DynamicRulesManager.apply_rules st protected "pre_translation" None)
    as [[preprocessed|e0] engine1]; cbn [fst snd mbind outcome_bind]; [|done].
  destruct (match gm with Some g => _ | None => _ end) as [glossed|e]; [|done].
  destruct (translate_text _ _ _) as [translated|]; [|done].
  rewrite apply_rules_without_mod.
  destruct (DynamicRulesManager.apply_rules engine1 translated "post_translation" None)
    as [[translated'|e1] engine2]; cbn [fst snd]; [|done].
  rewrite apply_rules_without_mod.
  by destruct (DynamicRulesManager.apply_rules engine2 _ "final_cleanup" None)
    as [[final|e2] engine3].
Qed.
End PipelineMods.

(** ** The learner *)

Section LearnerProofs.
Context {RE : RegexLib} {DIFF : DiffLib} {RT : Runtime} {FL : FloatLib}.
Import DynamicRulesManager Learner.

Lemma bump_duplicate_split source original conf l1 c l2 :
  Forall (λ x, source_text x ≠ source ∨ original_translation x ≠ original) l1 →
  source_text c = source → original_translation c = original →
  bump_duplicate source original conf (l1 ++ c :: l2)
  = Some (l1 ++ mkCandidate (source_text c) (original_translation c)
                  (improved_translation c) (improvement_source c)
                  (if Qlt_bool (cand_confidence c) conf then conf else cand_confidence c)
                  (frequency c + 1) (detected_pattern c) (suggested_replacement c) :: l2).
Proof.
  intros Hl1 Hs Ho. induction Hl1 as [|x l1 Hx _ IH].
  - cbn [app bump_duplicate]. rewrite Hs, Ho, !String.eqb_refl. done.
  - cbn [app bump_duplicate]. rewrite IH.
    destruct (String.eqb_spec (source_text x) source) as [Hxs|Hxs];
      destruct (String.eqb_spec (original_translation x) original) as [Hxo|Hxo];
      try done.
    by destruct Hx.
Qed.

(** X18: An observation for a source text and baseline that are already pending
    is counted on the first such candidate: its frequency goes up by one and
    its confidence to the greater of the two; the refined text of the new
    observation is dropped, no candidate is added and no evaluation is run,
    so no rule is created. *)
Theorem repeated_observation_is_counted (st : t) (source original improved : string)
    (conf : Q) (l1 : list LearningCandidate) (c : LearningCandidate)
    (l2 : list LearningCandidate) :
  enabled (learning_config st) = true →
  learning_candidates st = l1 ++ c :: l2 →
  Forall (λ x, source_text x ≠ source ∨ original_translation x ≠ original) l1 →
  source_text c = source → original_translation c = original →
  learn_from_llm_improvement st source original improved conf
  = Ok (true,
        set_learning_candidates
          (l1 ++ mkCandidate (source_text c) (original_translation c)
                   (improved_translation c) (improvement_source c)
                   (if Qlt_bool (cand_confidence c) conf then conf else cand_confidence c)
                   (frequency c + 1) (detected_pattern c) (suggested_replacement c) :: l2)
          st).
Proof.
  intros Hen Hcs Hl1 Hs Ho. unfold learn_from_llm_improvement.
  rewrite Hen, Hcs. cbn [negb]. by rewrite (bump_duplicate_split _ _ _ _ _ _ Hl1 Hs Ho).
Qed.
End LearnerProofs.

Lemma repeated_observation_is_counted_witness :
  (enabled (DynamicRulesManager.learning_config PromotionExamples.two) = true
   ∧ DynamicRulesManager.learning_candidates PromotionExamples.two
     = [PromotionExamples.candidate "a" (Some "frappe")]
       ++ PromotionExamples.candidate "b" (Some "frappe") :: [])
  ∧ Learner.learn_from_llm_improvement (DIFF := Examples.whole_text_diff)
      (RT := Examples.runtime) PromotionExamples.two "b" "une grande greve"
      "une autre phrase" (95 # 100)
    = Ok (true,
          DynamicRulesManager.set_learning_candidates
            [PromotionExamples.candidate "a" (Some "frappe");
             mkCandidate "b" "une grande greve" "une grande frappe" "llm" (95 # 100) 2
               (Some "\bgreve\b") (Some "frappe")]
            PromotionExamples.two).
Proof.
  split; [by split|].
  apply (repeated_observation_is_counted (DIFF := Examples.whole_text_diff)
           (RT := Examples.runtime) PromotionExamples.two "b" "une grande greve"
           "une autre phrase" (95 # 100)
           [PromotionExamples.candidate "a" (Some "frappe")]
           (PromotionExamples.candidate "b" (Some "frappe")) []);
    [done|done|apply Forall_cons_2; [by left|apply Forall_nil_2]|done|done].
Defined.

(** ** Patterns and suggestions of the candidates *)

Lemma characters_cons c s :
  Py.characters (String c s)
  = if Py.starts_with_continuation s
    then match Py.characters s with
         | ch :: l => String c ch :: l
         | [] => [String c ""]
         end
    else String c "" :: Py.characters s.
Proof. reflexivity. Qed.

(** The shape of the list of characters of a text. *)
Lemma characters_shape s :
  match Py.characters s with
  | [] => s = ""
  | ch :: l =>
      is_character ch
      ∧ Py.starts_with_continuation ch = Py.starts_with_continuation s
      ∧ Forall proper_character l
  end.
Proof.
  induction s as [|c s IH]; [done|]. rewrite characters_cons.
  destruct (Py.starts_with_continuation s) eqn:Hs.
  - destruct (Py.characters s) as [|ch l].
    + by rewrite IH in Hs.
    + destruct IH as (Hch & Hstart & Hl). split_and!; [|done|done].
      destruct ch as [|c0 t0]; [done|]. simpl in *. by rewrite Hstart, Hch.
  - split_and!; [done..|].
    destruct (Py.characters s) as [|ch l]; [constructor|].
    destruct IH as (Hch & Hstart & Hl). by constructor.
Qed.

Lemma well_formed_characters s : well_formed (Py.characters s).
Proof.
  pose proof (characters_shape s) as H.
  destruct (Py.characters s) as [|ch l]; [done|]. by destruct H as (? & _ & ?).
Qed.

Lemma is_character_nonempty ch : is_character ch → ch ≠ "".
Proof. by destruct ch. Qed.

Lemma well_formed_nonempty l : well_formed l → Forall (λ ch, ch ≠ "") l.
Proof.
  destruct l as [|ch l]; [constructor|]. intros [Hch Hl]. constructor.
  - by apply is_character_nonempty.
  - eapply Forall_impl; [exact Hl|]. intros x [Hx _]. by apply is_character_nonempty.
Qed.

Lemma append_nonempty_r s t : t ≠ "" → s +:+ t ≠ "".
Proof. destruct s; [done|]. by rewrite string_app_cons. Qed.

Lemma words_go_nonempty cur l :
  (∀ c, cur = Some c → c ≠ "") → Forall (λ ch, ch ≠ "") l →
  Forall (λ w, w ≠ "") (Py.words_go cur l).
Proof.
  intros Hcur Hl. revert cur Hcur.
  induction Hl as [|ch l Hch _ IH]; intros cur Hcur; simpl.
  - destruct cur as [c|]; simpl; [|constructor]. constructor; [|constructor]. by apply Hcur.
  - destruct (Py.isspace ch).
    + apply Forall_app. split; [|by apply IH].
      destruct cur as [c|]; simpl; [|constructor]. constructor; [|constructor]. by apply Hcur.
    + apply IH. intros c [= <-]. by apply append_nonempty_r.
Qed.

(** [split()] yields no empty word. *)
Lemma split_nonempty s : Forall (λ w, w ≠ "") (Py.split s).
Proof.
  apply words_go_nonempty; [done|]. apply well_formed_nonempty, well_formed_characters.
Qed.

Lemma re_escape_nonempty s : s ≠ "" → re_escape s ≠ "".
Proof. destruct s as [|c s]; [done|]. simpl. by destruct (re_special c). Qed.

Section Pairing.
Context {RE : RegexLib} {DIFF : DiffLib} {RT : Runtime} {FL : FloatLib}.
Import DynamicRulesManager Learner.

Lemma first_word_difference_paired ows iws p r :
  Forall (λ w, w ≠ "") iws →
  first_word_difference ows iws = Some (p, r) → p ≠ "" ∧ r ≠ "".
Proof.
  intros Hiws. revert ows. induction Hiws as [|iw iws Hiw _ IH]; intros [|ow ows]; try done.
  simpl. destruct (String.eqb ow iw); [apply IH|]. by intros [= <- <-].
Qed.

Lemma first_replace_segment_paired original improved ops p r :
  first_replace_segment original improved ops = Some (p, r) → p ≠ "" ∧ r ≠ "".
Proof.
  induction ops as [|o ops IH]; [done|]. simpl.
  destruct (bool_decide _ && _ && _ && Py.truthy _ && Py.truthy _) eqn:Hc; [|done].
  apply andb_true_iff in Hc as [Hc Hi]. apply andb_true_iff in Hc as [_ Ho].
  intros [= <- <-]. split.
  - by apply re_escape_nonempty, truthy_ne.
  - by apply truthy_ne.
Qed.

(** A detected pattern always comes with a suggested replacement, and
    neither is empty. *)
Lemma detect_improvement_pattern_paired original improved :
  match _detect_improvement_pattern original improved with
  | (Some p, Some r) => p ≠ "" ∧ r ≠ ""
  | (None, None) => True
  | _ => False
  end.
Proof.
  unfold _detect_improvement_pattern.
  destruct (if (_ =? _)%nat then _ else None) as [[p r]|] eqn:Ht1.
  - destruct (length (Py.split original) =? length (Py.split improved))%nat; [|done].
    eapply first_word_difference_paired; [|done]. apply split_nonempty.
  - destruct (first_replace_segment _ _ _) as [[p r]|] eqn:Ht2; [|done].
    by eapply first_replace_segment_paired.
Qed.

Lemma Forall_of_sublist {A} (P : A → Prop) (l k : list A) :
  Forall P k → sublist l k → Forall P l.
Proof.
  intros Hk Hsub. revert Hk. induction Hsub as [|x l k _ IH|x l k _ IH]; [done|..].
  - intros [Hx Hk]%Forall_cons. constructor; [done|by apply IH].
  - intros [_ Hk]%Forall_cons. by apply IH.
Qed.

Lemma remove_first_sublist c l : sublist (remove_first c l) l.
Proof.
  induction l as [|x l IH]; [done|]. simpl.
  destruct (candidate_eqb x c); [by apply sublist_cons|by apply sublist_skip].
Qed.

Lemma fold_remove_first_sublist cs l :
  sublist (fold_left (λ l c, remove_first c l) cs l) l.
Proof.
  revert l. induction cs as [|c cs IH]; intros l; [done|]. simpl.
  etrans; [apply IH|apply remove_first_sublist].
Qed.

Lemma candidate_eqb_pattern x c :
  candidate_eqb x c = true → detected_pattern x = detected_pattern c.
Proof.
  unfold candidate_eqb. rewrite !andb_true_iff.
  intros [[_ Hp] _]. by apply bool_decide_eq_true in Hp.
Qed.

Lemma remove_first_patternless c l :
  patternless c = false →
  filter (λ x, patternless x = true) (remove_first c l)
  = filter (λ x, patternless x = true) l.
Proof.
  intros Hc. induction l as [|x l IH]; [done|]. simpl.
  destruct (candidate_eqb x c) eqn:Heq.
  - rewrite filter_cons_False; [done|].
    unfold patternless in *. rewrite (candidate_eqb_pattern _ _ Heq). congruence.
  - by rewrite !filter_cons, IH.
Qed.

Lemma fold_remove_first_patternless cs l :
  Forall (λ c, patternless c = false) cs →
  filter (λ x, patternless x = true) (fold_left (λ l c, remove_first c l) cs l)
  = filter (λ x, patternless x = true) l.
Proof.
  intros Hcs. revert l. induction Hcs as [|c cs Hc _ IH]; intros l; [done|]. simpl.
  by rewrite IH, remove_first_patternless.
Qed.

Lemma group_add_members p c groups :
  Forall (λ g, Forall (λ x, patternless x = false) g.2) groups →
  patternless c = false →
  Forall (λ g, Forall (λ x, patternless x = false) g.2) (group_add p c groups).
Proof.
  intros Hg Hc. induction Hg as [|[p' cs] groups Hcs Hgroups IH]; simpl.
  - by repeat constructor.
  - destruct (String.eqb p' p).
    + constructor; [|done]. cbn [snd] in *. apply Forall_app.
      split; [done|]. by constructor.
    + by constructor.
Qed.

(** The groups hold candidates with a pattern only. *)
Lemma pattern_groups_members cs :
  Forall (λ g, Forall (λ x, patternless x = false) g.2) (pattern_groups cs).
Proof.
  unfold pattern_groups.
  assert (∀ groups,
            Forall (λ g, Forall (λ x : LearningCandidate, patternless x = false) g.2) groups →
            Forall (λ g, Forall (λ x, patternless x = false) g.2)
              (fold_left
                 (λ groups c,
                    match detected_pattern c with
                    | Some p => if Py.truthy p then group_add p c groups else groups
                    | None => groups
                    end) cs groups)) as Hgen.
  { induction cs as [|c cs IH]; intros groups Hg; [done|]. simpl. apply IH.
    destruct (detected_pattern c) as [p|] eqn:Hp; [|done].
    destruct (Py.truthy p) eqn:Ht; [|done].
    apply group_add_members; [done|]. unfold patternless. by rewrite Hp, Ht. }
  apply Hgen. constructor.
Qed.

Lemma create_learned_rule_candidates st p r cs st' :
  _create_learned_rule st p r cs = Ok st' →
  learning_candidates st'
  = fold_left (λ l c, remove_first c l) cs (learning_candidates st)
  ∧ base_rules st' = base_rules st
  ∧ mod_specific_rules st' = mod_specific_rules st
  ∧ learning_config st' = learning_config st.
Proof.
  unfold _create_learned_rule. destruct (avg_confidence cs) as [avg|]; [|done].
  cbn. by intros [= <-].
Qed.

Lemma evaluate_groups_consumes groups st st' :
  Forall (λ g, Forall (λ x, patternless x = false) g.2) groups →
  evaluate_groups groups st = Ok st' →
  sublist (learning_candidates st') (learning_candidates st)
  ∧ filter (λ x, patternless x = true) (learning_candidates st')
    = filter (λ x, patternless x = true) (learning_candidates st)
  ∧ base_rules st' = base_rules st
  ∧ mod_specific_rules st' = mod_specific_rules st
  ∧ learning_config st' = learning_config st.
Proof.
  intros Hg. revert st. induction Hg as [|[p cs] groups Hcs _ IH]; intros st.
  { by intros [= <-]. }
  cbn [evaluate_groups]. destruct (avg_confidence cs) as [avg|] eqn:Havg; [|done].
  cbn. 
  destruct ((min_frequency_for_pattern (learning_config st) <=? total_frequency cs)%Z
            && Qle_bool (confidence_threshold (learning_config st)) avg); [|apply IH].
  destruct (Py.most_common1 (suggestions cs)) as [repl|]; [|apply IH].
  destruct (_create_learned_rule st p repl cs) as [st1|] eqn:Hcreate; [|done].
  cbn. intros Hev.
  destruct (create_learned_rule_candidates _ _ _ _ _ Hcreate) as (Hc1 & Hb1 & Hm1 & Hcfg1).
  destruct (IH st1 Hev) as (Hsub & Hfil & Hb & Hm & Hcfg).
  split_and!; try congruence.
  - etrans; [exact Hsub|]. rewrite Hc1. apply fold_remove_first_sublist.
  - rewrite Hfil, Hc1. by apply fold_remove_first_patternless.
Qed.

Lemma evaluate_groups_raises groups st e :
  evaluate_groups groups st = Raise e → e = ZeroDivisionError.
Proof.
  revert st. induction groups as [|[p g] groups IH]; intros st; [done|].
  cbn [evaluate_groups]. unfold avg_confidence at 1.
  destruct (total_frequency g =? 0)%Z eqn:Hz; [by intros [= <-]|]. cbn.
  destruct (_ && _); [|apply IH].
  destruct (Py.most_common1 _); [|apply IH].
  unfold _create_learned_rule, avg_confidence. rewrite Hz. cbn. apply IH.
Qed.

Lemma evaluation_sublist st st' :
  _evaluate_learning_candidates st = Ok st' →
  sublist (learning_candidates st') (learning_candidates st).
Proof.
  unfold _evaluate_learning_candidates.
  destruct (learning_candidates st) as [|c cs] eqn:Hcs; [intros [= <-]; by rewrite Hcs|].
  rewrite <-Hcs. intros Hev.
  by destruct (evaluate_groups_consumes _ _ _ (pattern_groups_members _) Hev) as [? _].
Qed.

(** X20: Evaluation only consumes candidates: those left are pending candidates
    in their order, unchanged; every candidate without a detected pattern
    stays pending; base rules, mod-specific rules and the configuration are
    as before. *)
Theorem evaluation_only_consumes (st : t) :
  match _evaluate_learning_candidates st with
  | Ok st' =>
      sublist (learning_candidates st') (learning_candidates st)
      ∧ filter (λ x, patternless x = true) (learning_candidates st')
        = filter (λ x, patternless x = true) (learning_candidates st)
      ∧ base_rules st' = base_rules st
      ∧ mod_specific_rules st' = mod_specific_rules st
      ∧ learning_config st' = learning_config st
  | Raise e => e = ZeroDivisionError
  end.
Proof.
  unfold _evaluate_learning_candidates.
  destruct (learning_candidates st) as [|c cs] eqn:Hcs; [by rewrite Hcs|].
  rewrite <-Hcs.
  destruct (evaluate_groups _ st) as [st'|e] eqn:Hev.
  - eapply evaluate_groups_consumes; [|done]. apply pattern_groups_members.
  - by eapply evaluate_groups_raises.
Qed.

(** X19: The learner keeps the pending candidates paired: if every candidate
    carries a pattern exactly when it carries a suggestion, this is so
    after an observation, accepted or not. *)
Theorem learner_keeps_candidates_paired (st : t) (source original improved : string)
    (conf : Q) :
  Forall paired (learning_candidates st) →
  match learn_from_llm_improvement st source original improved conf with
  | Ok (_, st') => Forall paired (learning_candidates st')
  | Raise _ => True
  end.
Proof.
  intros Hst. unfold learn_from_llm_improvement.
  destruct (enabled (learning_config st)); [|done]. cbn [negb].
  destruct (bump_duplicate _ _ _ _) as [l|] eqn:Hdup.
  - cbn. revert l Hdup. induction Hst as [|c cs Hc Hcs IH]; intros l; [done|].
    simpl. destruct (_ && _).
    + intros [= <-]. by constructor.
    + destruct (bump_duplicate _ _ _ cs) as [l'|]; [|done].
      intros [= <-]. constructor; [done|]. by apply IH.
  - pose proof (detect_improvement_pattern_paired original improved) as Hpair.
    destruct (_detect_improvement_pattern original improved) as [detected suggested].
    assert (Forall paired
              (learning_candidates st
               ++ [mkCandidate source original improved "llm" conf 1 detected suggested]))
      as Hall.
    { apply Forall_app. split; [done|]. constructor; [|constructor].
      unfold paired. cbn. by destruct detected, suggested. }
    destruct (Qle_bool _ conf && _); [|done].
    destruct (_evaluate_learning_candidates _) as [st2|] eqn:Hev; [|done].
    cbn. apply evaluation_sublist in Hev. by eapply Forall_of_sublist.
Qed.
End Pairing.

Lemma learner_keeps_candidates_paired_witness :
  Forall paired (DynamicRulesManager.learning_candidates PromotionExamples.two)
  ∧ match Learner.learn_from_llm_improvement (DIFF := Examples.whole_text_diff)
            (RT := Examples.runtime) PromotionExamples.two "c"
            "une grande greve ici" "une grande frappe ici" float_0_9 with
    | Ok (_, st') => Forall paired (DynamicRulesManager.learning_candidates st')
    | Raise _ => True
    end.
Proof.
  assert (Forall paired (DynamicRulesManager.learning_candidates PromotionExamples.two))
    as Hpaired by (by repeat constructor).
  split; [exact Hpaired|].
  exact (learner_keeps_candidates_paired
           (DIFF := Examples.whole_text_diff) (RT := Examples.runtime)
           (FL := Binary64.float_lib) PromotionExamples.two "c"
           "une grande greve ici" "une grande frappe ici" float_0_9 Hpaired).
Defined.

(** ** The XML file handler *)

Section FileHandler.
Context {RE : RegexLib} {E : Type} {ENG : IRuleEngine E}.
Import XMLFileHandler.

(** Without a context, [process_text] does not depend on the LLM service. *)
Lemma process_text_without_context {SV : Services}
    (f : string → string → string → option string) (tr : DeepLTranslator.t E) text :
  DeepLTranslator.process_text
    (SV := {| translate_text := translate_text; openrouter_completion := f |}) tr text None
  = DeepLTranslator.process_text (SV := SV) tr text None.
Proof. reflexivity. Qed.

Lemma translate_contents_shape {SV : Services} processor count elems :
  let r := translate_contents processor count elems in
  r.1.2 = count + length (filter (λ e, translatable e = true) elems)
  ∧ length r.1.1 = length elems
  ∧ ∀ i e, elems !! i = Some e → translatable e = false → r.1.1 !! i = Some e.
Proof.
  revert processor count. induction elems as [|e elems IH]; intros processor count.
  { cbn. split; [lia|]. split; [done|]. by intros i e. }
  cbn [translate_contents]. rewrite filter_cons.
  destruct e as [text|].
  - cbn [translatable]. destruct (Py.truthy text && Py.truthy (Py.strip text)) eqn:Ht.
    + destruct (DeepLTranslator.process_text processor text None)
        as [[translated processor1] err].
      specialize (IH processor1 (S count)).
      destruct (translate_contents processor1 (S count) elems) as [[rest n] processor2].
      cbn in IH |- *. destruct IH as (Hn & Hlen & Hkeep).
      rewrite decide_True by done. cbn. split; [lia|]. split; [by rewrite Hlen|].
      intros [|i] e He Hne; cbn in *; [|by apply Hkeep].
      injection He as <-. cbn in Hne. congruence.
    + specialize (IH processor count).
      destruct (translate_contents processor count elems) as [[rest n] processor2].
      cbn in IH |- *. destruct IH as (Hn & Hlen & Hkeep).
      rewrite decide_False by done. split; [lia|]. split; [by rewrite Hlen|].
      intros [|i] e He Hne; cbn in *; [done|by apply Hkeep].
  - specialize (IH processor count).
    destruct (translate_contents processor count elems) as [[rest n] processor2].
    cbn in IH |- *. destruct IH as (Hn & Hlen & Hkeep).
    rewrite decide_False by done. split; [lia|]. split; [by rewrite Hlen|].
    intros [|i] e He Hne; cbn in *; [done|by apply Hkeep].
Qed.

(** X12: [process_file] reports as translated every content element whose text
    is not blank, whether its translation succeeded or not; it fails, and
    writes nothing, exactly when there is no such element (or the file cannot
    be written); the elements without a text to translate are written back
    as they were, and no element is added or lost. *)
Theorem process_file_counts {SV : Services} (file_path : string) (root : document)
    (processor : DeepLTranslator.t E) :
  let n := length (filter (λ e, translatable e = true) (contents root)) in
  let r := process_file file_path (inl root) None processor in
  success r.1.1 = negb (n =? 0)%nat
  ∧ translated_elements r.1.1 = (if (n =? 0)%nat then None else Some n)
  ∧ match r.1.2 with
    | Some written =>
        n ≠ 0
        ∧ root_tag written = root_tag root
        ∧ length (contents written) = length (contents root)
        ∧ ∀ i e, contents root !! i = Some e → translatable e = false →
                 contents written !! i = Some e
    | None => n = 0
    end.
Proof.
  intros n r. subst r. unfold process_file.
  assert (contents (set_locale root) = contents root
          ∧ root_tag (set_locale root) = root_tag root) as [Hc Ht].
  { unfold set_locale. by destruct (_ && _). }
  rewrite Hc.
  pose proof (translate_contents_shape processor 0 (contents root)) as Hshape.
  destruct (translate_contents processor 0 (contents root)) as [[elems count] processor'].
  cbn in Hshape. destruct Hshape as (Hn & Hlen & Hkeep). fold n in Hn. subst count.
  destruct (Nat.eqb_spec n 0) as [Hz|Hz]; cbn; [done|].
  split; [done|]. split; [done|]. done.
Qed.
End FileHandler.

Section FileHandlerServices.
Context {RE : RegexLib} {E : Type} {ENG : IRuleEngine E}.
Import XMLFileHandler.

Lemma translate_contents_without_llm {SV : Services}
    (f : string → string → string → option string) processor count elems :
  translate_contents
    (SV := {| translate_text := translate_text; openrouter_completion := f |})
    processor count elems
  = translate_contents (SV := SV) processor count elems.
Proof.
  revert processor count. induction elems as [|e elems IH]; intros processor count; [done|].
  cbn [translate_contents]. destruct e as [text|]; [|by rewrite IH].
  destruct (Py.truthy text && Py.truthy (Py.strip text)); [|by rewrite IH].
  rewrite process_text_without_context.
  destruct (DeepLTranslator.process_text processor text None) as [[translated p1] err].
  by rewrite IH.
Qed.

(** X13: The file handler passes no context to [process_text]: the texts of a
    file are never sent to the LLM, also when LLM optimisation is switched
    on; the result does not depend on the LLM service. *)
Theorem process_file_never_asks_llm {SV : Services}
    (f : string → string → string → option string) (file_path : string)
    (parsed : document + string) (write_error : option string)
    (processor : DeepLTranslator.t E) :
  process_file (SV := {| translate_text := translate_text; openrouter_completion := f |})
    file_path parsed write_error processor
  = process_file (SV := SV) file_path parsed write_error processor.
Proof.
  unfold process_file. destruct parsed as [root|e]; [|done].
  by rewrite translate_contents_without_llm.
Qed.

(** With the translation service down and an empty cache, [process_text]
    answers with its input and the cache stays empty. *)
Lemma process_text_down_empty {SV : Services} (tr : DeepLTranslator.t E) text context :
  (∀ s src tgt, translate_text s src tgt = None) →
  TranslationCache._cache (DeepLTranslator.cache tr) = ∅ →
  (DeepLTranslator.process_text tr text context).1.1 = text
  ∧ TranslationCache._cache
      (DeepLTranslator.cache (DeepLTranslator.process_text tr text context).1.2) = ∅.
Proof.
  intros Hdown Hempty. unfold DeepLTranslator.process_text.
  destruct (negb (Py.truthy text) || negb (Py.truthy (Py.strip text))); [done|].
  unfold TranslationCache.get. rewrite Hempty, lookup_empty.
  destruct (TextProcessor.protect_expressions _ _) as [protected protections].
  destruct (apply_rules _ protected _) as [[preprocessed|e0] engine1]; [|done].
  cbn [mbind outcome_bind].
  destruct (match DeepLTranslator.glossary_manager _ with Some g => _ | None => _ end);
    [|done].
  by rewrite Hdown.
Qed.

Lemma translate_contents_down {SV : Services} processor count elems :
  (∀ s src tgt, translate_text s src tgt = None) →
  TranslationCache._cache (DeepLTranslator.cache processor) = ∅ →
  (translate_contents processor count elems).1.1 = elems.
Proof.
  intros Hdown. revert processor count.
  induction elems as [|e elems IH]; intros processor count Hempty; [done|].
  cbn [translate_contents]. destruct e as [text|].
  - destruct (Py.truthy text && Py.truthy (Py.strip text)).
    + destruct (process_text_down_empty processor text None Hdown Hempty) as [Htext Hc].
      destruct (DeepLTranslator.process_text processor text None)
        as [[translated processor1] err]. cbn in Htext, Hc. subst translated.
      specialize (IH processor1 (S count) Hc).
      destruct (translate_contents processor1 (S count) elems) as [[rest n] p2].
      cbn in IH |- *. by rewrite IH.
    + specialize (IH processor count Hempty).
      destruct (translate_contents processor count elems) as [[rest n] p2].
      cbn in IH |- *. by rewrite IH.
  - specialize (IH processor count Hempty).
    destruct (translate_contents processor count elems) as [[rest n] p2].
    cbn in IH |- *. by rewrite IH.
Qed.

(** X14: When the translation service fails on every request (and nothing is
    cached), a file with a text to translate is still reported as
    translated, with the count of its texts, and is written back with every
    text as it was. *)
Theorem process_file_reports_success_when_service_down {SV : Services}
    (file_path : string) (root : document) (processor : DeepLTranslator.t E) :
  (∀ s src tgt, translate_text s src tgt = None) →
  TranslationCache._cache (DeepLTranslator.cache processor) = ∅ →
  Exists (λ e, translatable e = true) (contents root) →
  let r := process_file file_path (inl root) None processor in
  success r.1.1 = true
  ∧ translated_elements r.1.1
    = Some (length (filter (λ e, translatable e = true) (contents root)))
  ∧ ∃ written, r.1.2 = Some written ∧ contents written = contents root.
Proof.
  intros Hdown Hempty Hsome r.
  assert (length (filter (λ e, translatable e = true) (contents root)) ≠ 0) as Hn.
  { apply Exists_exists in Hsome as (e & Hin & He).
    assert (e ∈ filter (λ e, translatable e = true) (contents root)) as Hf
      by (by apply list_elem_of_filter).
    destruct (filter _ (contents root)); [by apply elem_of_nil in Hf|simpl; lia]. }
  subst r. unfold process_file.
  assert (contents (set_locale root) = contents root) as Hc.
  { unfold set_locale. by destruct (_ && _). }
  rewrite Hc.
  pose proof (translate_contents_down processor 0 (contents root) Hdown Hempty) as Hsame.
  pose proof (translate_contents_shape processor 0 (contents root)) as Hcount.
  destruct (translate_contents processor 0 (contents root)) as [[elems count] processor'].
  cbn in Hsame, Hcount. destruct Hcount as (Hcount & _). subst elems count.
  destruct (Nat.eqb_spec (length (filter (λ e, translatable e = true) (contents root))) 0)
    as [Hz|Hz]; [done|].
  cbn. split; [done|]. split; [done|]. by eexists.
Qed.
End FileHandlerServices.

Lemma process_file_reports_success_when_service_down_witness :
  ((∀ s src tgt, translate_text (Services := Examples.services_down) s src tgt = None)
   ∧ TranslationCache._cache (DeepLTranslator.cache Examples.translator) = ∅
   ∧ Exists (λ e, translatable e = true) [Some "Bolt Loaded"; None; Some " "])
  ∧ success
      (XMLFileHandler.process_file (SV := Examples.services_down) "English.xml"
         (inl (XMLFileHandler.mkDocument "contentList" None
                 [Some "Bolt Loaded"; None; Some " "]))
         None Examples.translator).1.1 = true.
Proof.
  assert (∀ s src tgt,
            translate_text (Services := Examples.services_down) s src tgt = None) as Hdown
    by done.
  assert (TranslationCache._cache (DeepLTranslator.cache Examples.translator) = ∅)
    as Hempty by done.
  assert (Exists (λ e, translatable e = true) [Some "Bolt Loaded"; None; Some " "])
    as Hsome by (by apply Exists_cons_hd).
  split; [done|].
  exact (proj1 (process_file_reports_success_when_service_down
                  (SV := Examples.services_down) "English.xml"
                  (XMLFileHandler.mkDocument "contentList" None
                     [Some "Bolt Loaded"; None; Some " "])
                  Examples.translator Hdown Hempty Hsome)).
Defined.

(** An element that holds a no-break space alone has no text to
    translate: of the two elements, one is counted. *)
Lemma process_file_blank_element_example :
  let nbsp := Py.of_bytes [194; 160] in
  translatable (Some nbsp) = false
  ∧ translated_elements
      (XMLFileHandler.process_file (SV := Examples.services_echo) "English.xml"
         (inl (XMLFileHandler.mkDocument "contentList" None [Some "Bolt Loaded"; Some nbsp]))
         None Examples.translator).1.1 = Some 1
  ∧ success
      (XMLFileHandler.process_file (SV := Examples.services_echo) "English.xml"
         (inl (XMLFileHandler.mkDocument "contentList" None [Some nbsp]))
         None Examples.translator).1.1 = false.
Proof. by vm_compute. Qed.

(** ** Encoding fixes *)

(** X4: A text that holds none of the mis-decoded sequences of [ENCODING_FIXES]
    is returned as it is; the letter â by itself, as in dégâts, is not
    touched. *)
Theorem clean_encoding_leaves_clean_text (text : string) :
  Forall (λ fix_, contains text fix_.1 = false) TextProcessor.ENCODING_FIXES →
  TextProcessor.clean_encoding text = text.
Proof.
  intros Hall. unfold TextProcessor.clean_encoding.
  destruct (Py.truthy text); [|done].
  assert (Forall (λ fix_ : string * string, fix_.1 ≠ "") TextProcessor.ENCODING_FIXES)
    as Hne by (by repeat constructor).
  revert Hall Hne. generalize TextProcessor.ENCODING_FIXES. intros fixes.
  induction fixes as [|[bad good] fixes IH]; [done|].
  intros [Hbad Hall]%Forall_cons [Hne Hnes]%Forall_cons. cbn [fold_left fst] in *.
  destruct bad as [|a bad]; [done|].
  rewrite replace_nonempty, replace_go_not_contained by done. by apply IH.
Qed.

Lemma clean_encoding_leaves_clean_text_witness :
  Forall (λ fix_, contains "Dégâts de feu: 2d6" fix_.1 = false) TextProcessor.ENCODING_FIXES
  ∧ TextProcessor.clean_encoding "Dégâts de feu: 2d6" = "Dégâts de feu: 2d6".
Proof.
  assert (Forall (λ fix_, contains "Dégâts de feu: 2d6" fix_.1 = false)
            TextProcessor.ENCODING_FIXES) as Hall by (by repeat constructor).
  split; [exact Hall|]. exact (clean_encoding_leaves_clean_text _ Hall).
Defined.

(** ** The translation cache *)

(** X6: Lookups change the statistics only: after any sequence of lookups the
    entries are as before and hits and misses together have grown by the
    number of lookups; an entry that was stored is found, under its key
    only, until it is overwritten or the cache is cleared, and clearing
    resets the statistics. *)
Theorem cache_lookups_and_stores (c : TranslationCache.t) (keys : list string)
    (key value : string) :
  let looked := fold_left (λ c k, (TranslationCache.get c k).2) keys c in
  TranslationCache._cache looked = TranslationCache._cache c
  ∧ TranslationCache.hits looked + TranslationCache.misses looked
    = TranslationCache.hits c + TranslationCache.misses c + length keys
  ∧ (TranslationCache.get (TranslationCache.set looked key value) key).1 = Some value
  ∧ (∀ other, other ≠ key →
       (TranslationCache.get (TranslationCache.set looked key value) other).1
       = (TranslationCache.get c other).1)
  ∧ (TranslationCache.get (TranslationCache.clear (TranslationCache.set looked key value))
       key).1 = None.
Proof.
  intros looked.
  assert (TranslationCache._cache looked = TranslationCache._cache c
          ∧ TranslationCache.hits looked + TranslationCache.misses looked
            = TranslationCache.hits c + TranslationCache.misses c + length keys)
    as [Hsame Hcount].
  { subst looked. revert c. induction keys as [|k keys IH]; intros c.
    { split; [done|]. simpl. lia. }
    cbn [fold_left length]. destruct (IH (TranslationCache.get c k).2) as [-> ->].
    unfold TranslationCache.get.
    destruct (TranslationCache._cache c !! k); cbn; (split; [done|lia]). }
  split; [done|]. split; [done|].
  unfold TranslationCache.get, TranslationCache.set, TranslationCache.clear. cbn.
  rewrite lookup_insert_eq. split; [done|]. split; [|done].
  intros other Hne. rewrite lookup_insert_ne, Hsame by done.
  by destruct (TranslationCache._cache c !! other).
Qed.

(** ** The update of info.json *)

Lemma dict_get_set_eq {V} k (v : V) d : Py.dict_get k (Py.dict_set k v d) = Some v.
Proof.
  induction d as [|[k' v'] d IH]; simpl; [by rewrite String.eqb_refl|].
  destruct (String.eqb k' k) eqn:E; simpl; [by rewrite String.eqb_refl|]. by rewrite E.
Qed.

Lemma dict_get_set_ne {V} k k' (v : V) d :
  k' ≠ k → Py.dict_get k' (Py.dict_set k v d) = Py.dict_get k' d.
Proof.
  intros Hne.
  assert (String.eqb k k' = false) as Hkk by (apply String.eqb_neq; congruence).
  induction d as [|[k0 v0] d IH]; simpl; [by rewrite Hkk|].
  destruct (String.eqb k0 k) eqn:E; simpl; [|by rewrite IH].
  apply String.eqb_eq in E as ->. by rewrite Hkk.
Qed.

(** An assignment to a key keeps the order of the keys: a present key keeps
    its place and a new key goes to the end. *)
Lemma dict_set_keys {V} k (v : V) d :
  (Py.dict_set k v d).*1 = if bool_decide (k ∈ d.*1) then d.*1 else d.*1 ++ [k].
Proof.
  induction d as [|[k' v'] d IH]; [done|]. simpl.
  destruct (String.eqb_spec k' k) as [->|Hne].
  - rewrite bool_decide_eq_true_2; [done|by left].
  - rewrite fmap_cons, IH. simpl. case_bool_decide as Hin.
    + rewrite bool_decide_eq_true_2; [done|by right].
    + rewrite bool_decide_eq_false_2; [done|].
      intros [?|?]%elem_of_cons; [congruence|done].
Qed.

(** [s.replace(c, "")] leaves no [c]. *)
Lemma replace_char_removed c s : has_char c (Py.replace s (String c "") "") = false.
Proof.
  rewrite replace_nonempty. induction s as [|a s IH]; [done|].
  destruct (Ascii.eqb_spec a c) as [->|Hne].
  - change (String c s) with (String c "" +:+ s). by rewrite replace_go_match.
  - rewrite replace_go_nomatch.
    + simpl. rewrite IH. by apply Ascii.eqb_neq in Hne as ->.
    + rewrite string_prefix_cons, bool_decide_eq_false_2; [done|congruence].
Qed.

(** X15: The metadata written to info.json: Name and Folder are the same string,
    the name of the mod without its spaces followed by the suffix, so free
    of spaces when the suffix is; Author is the translator; every other key
    of the file keeps its value, and every key its place. *)
Theorem update_info_json_fields (data : list (string * json)) (author suffix : string)
    (original_metadata : ModMetadata) (uuid1 uuid2 : string) :
  ∃ written new_name,
    BG3ModTranslator._update_info_json (Some data) author suffix original_metadata
      uuid1 uuid2 = Some written
    ∧ Py.dict_get "Name" written = Some (JString new_name)
    ∧ Py.dict_get "Folder" written = Some (JString new_name)
    ∧ has_char " " new_name = has_char " " suffix
    ∧ Py.dict_get "Author" written = Some (JString author)
    ∧ Py.dict_get "UUID" written = Some (JString uuid1)
    ∧ Py.dict_get "Group" written = Some (JString uuid2)
    ∧ (∀ k, k ∉ ["Name"; "Folder"; "Author"; "Description"; "UUID"; "Group"] →
            Py.dict_get k written = Py.dict_get k data)
    ∧ data.*1 `prefix_of` written.*1.
Proof.
  eexists _, (Py.replace (md_name original_metadata) " " "" +:+ suffix).
  split; [reflexivity|].
  split; [by rewrite !dict_get_set_ne, dict_get_set_eq by done|].
  split; [by rewrite !dict_get_set_ne, dict_get_set_eq by done|].
  split; [by rewrite has_char_app, replace_char_removed|].
  split; [by rewrite !dict_get_set_ne, dict_get_set_eq by done|].
  split; [by rewrite !dict_get_set_ne, dict_get_set_eq by done|].
  split; [by rewrite dict_get_set_eq|].
  split.
  - intros k Hk. rewrite !not_elem_of_cons in Hk. destruct Hk as (?&?&?&?&?&?&_).
    by rewrite !dict_get_set_ne by done.
  - assert (∀ k (v : json) d, d.*1 `prefix_of` (Py.dict_set k v d).*1) as Hstep.
    { intros k v d. rewrite dict_set_keys. case_bool_decide; [done|].
      by apply prefix_app_r. }
    repeat (etrans; [|apply Hstep]). done.
Qed.

(** ** Rules written to and read from dictionaries *)

Section RuleDict.
Context {DT : DateTimeLib} {RT : Runtime}.

(** X21: A rule read back from its dictionary has every field of the rule that
    was written, the creation date apart, which is the date read from the
    text, or the present date when there is none or the text is no date; a
    rule whose date reads back as itself is restored as a whole. *)
Theorem rule_dict_round_trip (r : Rule) :
  ∃ r', from_dict (to_dict r) = FromDict r'
        ∧ frame r' = (name r, pattern r, replacement r, description r, stage r,
                      confidence r, created_at r', mod_specific r)
        ∧ usage_count r' = usage_count r
        ∧ success_rate r' = success_rate r
        ∧ is_Some (created_at r')
        ∧ (∀ s, created_at r = Some s → s ≠ "" → fromisoformat s = Some s → r' = r).
Proof.
  destruct r as [n p repl d st c u sr ca ms].
  unfold from_dict, to_dict, read_created_at. cbn.
  assert (∀ s, Py.truthy s = true → s ≠ "") as Htruthy by (intros s; apply truthy_ne).
  destruct ca as [s|]; cbn;
    [destruct (Py.truthy s) eqn:Hs; [destruct (fromisoformat s) as [s'|] eqn:Hiso|]|];
    destruct ms; cbn; eexists; (split; [reflexivity|]); cbn;
    repeat split; eauto;
    intros s1 Heq Hne Hs1; apply truthy_ne in Hne; congruence.
Qed.
End RuleDict.

(** ** White space *)

Lemma join_characters s : Py.join (Py.characters s) = s.
Proof.
  induction s as [|c s IH]; [done|]. rewrite characters_cons.
  pose proof (characters_shape s) as Hshape.
  destruct (Py.starts_with_continuation s) eqn:Hs.
  - destruct (Py.characters s) as [|ch l]; [by rewrite Hshape|].
    by rewrite <- IH.
  - by rewrite <- IH at 2.
Qed.

Lemma characters_app_continuation c t rest :
  all_continuation t = true → Py.starts_with_continuation rest = false →
  Py.characters (String c (t +:+ rest)) = String c t :: Py.characters rest.
Proof.
  revert c. induction t as [|c' t IH]; intros c Ht Hrest.
  - rewrite string_app_nil_l, characters_cons. by rewrite Hrest.
  - simpl in Ht. apply andb_true_iff in Ht as [Hc' Ht].
    rewrite string_app_cons, characters_cons. cbn [Py.starts_with_continuation].
    rewrite Hc'. by rewrite (IH c' Ht Hrest).
Qed.

Lemma characters_join_proper l :
  Forall proper_character l →
  Py.starts_with_continuation (Py.join l) = false ∧ Py.characters (Py.join l) = l.
Proof.
  induction 1 as [|ch l [Hch Hlead] _ [IH1 IH2]]; [done|].
  destruct ch as [|c t]; [done|]. cbn [Py.join foldr]. rewrite string_app_cons.
  split; [done|]. fold (Py.join l).
  by rewrite characters_app_continuation, IH2.
Qed.

(** A well-formed list of characters is the list of characters of the text
    that it spells. *)
Lemma characters_join l : well_formed l → Py.characters (Py.join l) = l.
Proof.
  destruct l as [|ch l]; [done|]. intros [Hch Hl].
  destruct (characters_join_proper l Hl) as [H1 H2].
  destruct ch as [|c t]; [done|]. cbn [Py.join foldr]. rewrite string_app_cons.
  fold (Py.join l). by rewrite characters_app_continuation, H2.
Qed.

Lemma proper_well_formed l : Forall proper_character l → well_formed l.
Proof. destruct 1 as [|ch l [Hch _] Hl]; [done|]. by split. Qed.

Lemma proper_lstrip l : Forall proper_character l → Forall proper_character (Py.lstrip_chars l).
Proof.
  induction 1 as [|ch l Hch Hl IH]; [constructor|]. simpl.
  destruct (Py.isspace ch); [done|]. by constructor.
Qed.

Lemma proper_rstrip l : Forall proper_character l → Forall proper_character (Py.rstrip_chars l).
Proof.
  induction 1 as [|ch l Hch Hl IH]; [constructor|]. cbn [Py.rstrip_chars].
  destruct (forallb _ _); [constructor|]. by constructor.
Qed.

Lemma proper_collapse in_run l :
  Forall proper_character l →
  Forall proper_character (TextProcessor.collapse_spaces in_run l).
Proof.
  intros Hl. revert in_run. induction Hl as [|ch l Hch Hl IH]; intros in_run; [constructor|].
  simpl. destruct (Py.isspace ch); [|by constructor].
  destruct in_run; [done|]. by constructor.
Qed.

Lemma well_formed_lstrip l : well_formed l → well_formed (Py.lstrip_chars l).
Proof.
  destruct l as [|ch l]; [done|]. intros [Hch Hl]. simpl.
  destruct (Py.isspace ch); [|done]. by apply proper_well_formed, proper_lstrip.
Qed.

Lemma well_formed_rstrip l : well_formed l → well_formed (Py.rstrip_chars l).
Proof.
  destruct l as [|ch l]; [done|]. intros [Hch Hl]. cbn [Py.rstrip_chars].
  destruct (forallb _ _); [done|]. split; [done|]. by apply proper_rstrip.
Qed.

Lemma well_formed_collapse l :
  well_formed l → well_formed (TextProcessor.collapse_spaces false l).
Proof.
  destruct l as [|ch l]; [done|]. intros [Hch Hl]. simpl.
  destruct (Py.isspace ch); (split; [done|by apply proper_collapse]).
Qed.

(** Stripping, on lists of characters. *)
Lemma rstrip_all_space l :
  forallb Py.isspace (Py.rstrip_chars l) = true → forallb Py.isspace l = true.
Proof.
  induction l as [|ch l IH]; [done|]. cbn [Py.rstrip_chars].
  destruct (forallb Py.isspace (ch :: l)) eqn:Hc; [done|].
  simpl. intros [Hch Hl]%andb_true_iff. simpl in Hc. by rewrite Hch, (IH Hl) in Hc.
Qed.

Lemma rstrip_idempotent l : Py.rstrip_chars (Py.rstrip_chars l) = Py.rstrip_chars l.
Proof.
  induction l as [|ch l IH]; [done|]. cbn [Py.rstrip_chars].
  destruct (forallb Py.isspace (ch :: l)) eqn:Hc; [done|].
  cbn [Py.rstrip_chars]. rewrite IH.
  destruct (forallb Py.isspace (ch :: Py.rstrip_chars l)) eqn:Hr; [|done].
  simpl in Hr, Hc. apply andb_true_iff in Hr as [Hch Hl].
  by rewrite Hch, (rstrip_all_space _ Hl) in Hc.
Qed.

Lemma lstrip_head l :
  Py.lstrip_chars l = [] ∨ ∃ ch l', Py.lstrip_chars l = ch :: l' ∧ Py.isspace ch = false.
Proof.
  induction l as [|ch l IH]; [by left|]. simpl.
  destruct (Py.isspace ch) eqn:Hch; [done|]. right. by exists ch, l.
Qed.

Lemma lstrip_stripped l :
  Py.lstrip_chars (Py.rstrip_chars (Py.lstrip_chars l)) = Py.rstrip_chars (Py.lstrip_chars l).
Proof.
  destruct (lstrip_head l) as [->|(ch & l' & -> & Hch)]; [done|].
  cbn [Py.rstrip_chars forallb]. rewrite Hch. simpl. by rewrite Hch.
Qed.

Lemma words_go_all_space l : forallb Py.isspace l = true → Py.words_go None l = [].
Proof.
  induction l as [|ch l IH]; [done|]. simpl.
  intros [-> ?]%andb_true_iff. by apply IH.
Qed.

Lemma words_go_lstrip l : Py.words_go None (Py.lstrip_chars l) = Py.words_go None l.
Proof.
  induction l as [|ch l IH]; [done|]. simpl.
  destruct (Py.isspace ch) eqn:Hch; [done|]. simpl. by rewrite Hch.
Qed.

Lemma words_go_rstrip cur l : Py.words_go cur (Py.rstrip_chars l) = Py.words_go cur l.
Proof.
  revert cur. induction l as [|ch l IH]; intros cur; [done|].
  cbn [Py.rstrip_chars forallb]. destruct (Py.isspace ch) eqn:Hch; simpl.
  - destruct (forallb Py.isspace l) eqn:Hl; simpl; rewrite Hch.
    + by rewrite words_go_all_space, app_nil_r.
    + by rewrite IH.
  - rewrite Hch. apply IH.
Qed.

Lemma words_go_collapse cur in_run l :
  (in_run = true → cur = None) →
  Py.words_go cur (TextProcessor.collapse_spaces in_run l) = Py.words_go cur l.
Proof.
  revert cur in_run. induction l as [|ch l IH]; intros cur in_run Hrun; [done|].
  simpl. destruct (Py.isspace ch) eqn:Hch.
  - destruct in_run.
    + rewrite (Hrun eq_refl). simpl. by apply IH.
    + cbn [Py.words_go]. change (Py.isspace " ") with true. cbn iota.
      f_equal. by apply IH.
  - simpl. rewrite Hch. by apply IH.
Qed.

Lemma single_spaced_collapse in_run l :
  single_spaced in_run (TextProcessor.collapse_spaces in_run l) = true.
Proof.
  revert in_run. induction l as [|ch l IH]; intros in_run; [done|]. simpl.
  destruct (Py.isspace ch) eqn:Hch.
  - destruct in_run; [apply IH|]. cbn [single_spaced].
    change (Py.isspace " ") with true. cbn iota. simpl. apply IH.
  - simpl. rewrite Hch. apply IH.
Qed.

Lemma collapse_single_spaced p l :
  single_spaced p l = true → TextProcessor.collapse_spaces p l = l.
Proof.
  revert p. induction l as [|ch l IH]; intros p; [done|]. simpl.
  destruct (Py.isspace ch).
  - intros [[Hp Hch]%andb_true_iff Hl]%andb_true_iff.
    apply negb_true_iff in Hp as ->. apply String.eqb_eq in Hch as ->. by rewrite IH.
  - intros Hl. by rewrite IH.
Qed.

Lemma single_spaced_weaken p l : single_spaced true l = true → single_spaced p l = true.
Proof. destruct l as [|ch l]; [done|]. simpl. by destruct (Py.isspace ch), p. Qed.

Lemma single_spaced_lstrip p l :
  single_spaced p l = true → single_spaced true (Py.lstrip_chars l) = true.
Proof.
  revert p. induction l as [|ch l IH]; intros p; [done|]. simpl.
  destruct (Py.isspace ch) eqn:Hch.
  - intros [_ Hl]%andb_true_iff. by apply (IH true).
  - simpl. by rewrite Hch.
Qed.

Lemma single_spaced_rstrip p l :
  single_spaced p l = true → single_spaced p (Py.rstrip_chars l) = true.
Proof.
  revert p. induction l as [|ch l IH]; intros p; [done|].
  cbn [Py.rstrip_chars forallb]. simpl. destruct (Py.isspace ch) eqn:Hch; simpl.
  - destruct (forallb Py.isspace l); [done|]. simpl. rewrite Hch.
    intros [H1 Hl]%andb_true_iff. rewrite H1. by apply IH.
  - rewrite Hch. apply IH.
Qed.

(** X5: [normalize_whitespace] keeps the words of the text (its maximal
    runs of characters that are not white space, as [split()] gives them)
    and their order; in its result every white-space character is a single
    space between two words, none stands at the start or at the end; and
    the function leaves its own results unchanged.  White space is what
    Python takes for it in a [str]: the ASCII white space with the
    separators 0x1C to 0x1F, and the white space of Unicode such as the
    no-break space. *)
Theorem normalize_whitespace_normal_form (text : string) :
  let n := TextProcessor.normalize_whitespace text in
  Py.split n = Py.split text
  ∧ single_spaced true (Py.characters n) = true
  ∧ Py.strip n = n
  ∧ TextProcessor.normalize_whitespace n = n.
Proof.
  unfold TextProcessor.normalize_whitespace.
  destruct (Py.truthy text) eqn:Htext; cbn zeta.
  - set (collapsed := TextProcessor.collapse_spaces false (Py.characters text)).
    assert (well_formed collapsed) as Hwf
      by apply well_formed_collapse, well_formed_characters.
    set (stripped := Py.rstrip_chars (Py.lstrip_chars collapsed)).
    assert (Py.strip (Py.join collapsed) = Py.join stripped) as ->
      by (unfold Py.strip; by rewrite characters_join).
    assert (Py.characters (Py.join stripped) = stripped) as Hchars
      by (by apply characters_join, well_formed_rstrip, well_formed_lstrip).
    assert (single_spaced true stripped = true) as Hspaced.
    { apply single_spaced_rstrip, (single_spaced_lstrip false), single_spaced_collapse. }
    assert (Py.strip (Py.join stripped) = Py.join stripped) as Hstrip.
    { unfold Py.strip. rewrite Hchars. unfold stripped.
      by rewrite lstrip_stripped, rstrip_idempotent. }
    split_and!.
    + unfold Py.split. rewrite Hchars. unfold stripped, collapsed.
      by rewrite words_go_rstrip, words_go_lstrip, words_go_collapse.
    + by rewrite Hchars.
    + done.
    + rewrite Hchars.
      rewrite (collapse_single_spaced false _ (single_spaced_weaken false _ Hspaced)).
      rewrite Hstrip. destruct (Py.truthy (Py.join stripped)); reflexivity.
  - destruct text as [|c text]; [|done]. rewrite Htext. done.
Qed.

(** The no-break space and the separator 0x1C are white space: a run of
    them becomes one space, and at the ends they are removed. *)
Lemma normalize_whitespace_example :
  let nbsp := Py.of_bytes [194; 160] in
  TextProcessor.normalize_whitespace
    (nbsp +:+ "Bolt" +:+ nbsp +:+ " " +:+ Py.of_bytes [28] +:+ "Loaded" +:+ nbsp)
  = "Bolt Loaded"
  ∧ Py.strip nbsp = ""
  ∧ Py.split ("Bolt" +:+ nbsp +:+ "Loaded") = ["Bolt"; "Loaded"].
Proof. by vm_compute. Qed.
